(** * A natural-language front end for a document store

    Shallow embedding of the query-synthesis and execution pipeline:

    - [Generator]: the rule engine of [dynamic_query_generator.py]
      (collection resolution, intent ladder, filter extraction, pipeline
      assembly, serialisation);
    - [Agent]: the dispatcher, prompt builder, recovery parser and chat
      agent of [mongo_chat_agent.py];
    - [Schema]: the schema extraction and the ranking of fields of the
      same file.

    Conventions of the model.  Text is a [string] of 8-bit characters and
    is assumed to be ASCII: [lower], the character classes of the regular
    expressions ([\d], [\s]) and [repr] follow Python on that range.
    Python objects are values of [Py.value]; a [dict] is an association
    list in insertion order, updated in place by [Py.dict_set].  The
    document store, the language model, the similarity of embeddings and
    [ast.literal_eval] are external: they are fields of [Agent.world], and
    every call to the store or to the language model is recorded in a
    trace of [Agent.event]s.

    Two limits of the interpreter are part of [Json.loads].  [int]
    refuses a numeral of more than 4300 digits, the default of
    [sys.get_int_max_str_digits()], with a [ValueError].  The recursion
    guard stops the decoder at some depth of nested containers with a
    [RecursionError]; that depth is a field of [Agent.world], taken to
    be at least 100 (the default recursion limit is 1000).  [repr] and
    [json.dumps] write an integer in full: the integers of the program
    are small constants or come from [json.loads], and stay within the
    4300 digits. *)

From Stdlib Require Import String Ascii List ZArith Lia Bool QArith Arith.
From Stdlib Require Import DecimalString.
From Stdlib Require DecimalFacts DecimalPos.
From Stdlib Require Import Sorted Permutation.
Import ListNotations.
Open Scope string_scope.

(* ================================================================== *)
(** * Text: the [str] operations the program uses *)
(* ================================================================== *)

Module Text.

Definition code (c : ascii) : nat := nat_of_ascii c.

Definition in_range (lo hi : nat) (c : ascii) : bool :=
  (lo <=? code c)%nat && (code c <=? hi)%nat.

Definition is_upper (c : ascii) : bool := in_range 65 90 c.
Definition is_lower (c : ascii) : bool := in_range 97 122 c.
Definition is_digit (c : ascii) : bool := in_range 48 57 c.
Definition is_alpha (c : ascii) : bool := is_upper c || is_lower c.

(** [\s] of [re] on the ASCII range: tab, newline, vertical tab, form
    feed, carriage return, the four separators 0x1c-0x1f and space. *)
Definition is_space (c : ascii) : bool :=
  in_range 9 13 c || in_range 28 31 c || (code c =? 32)%nat.

(** The double quote, and a way to write literals that contain it: in
    [bq "..."] every backquote stands for a double quote. *)
Definition dquote : ascii := ascii_of_nat 34.
Definition squote : ascii := ascii_of_nat 39.
Definition backslash : ascii := ascii_of_nat 92.
Definition backquote : ascii := ascii_of_nat 96.

Fixpoint map_chars (f : ascii -> ascii) (s : string) : string :=
  match s with
  | EmptyString => EmptyString
  | String c r => String (f c) (map_chars f r)
  end.

Definition bq (s : string) : string :=
  map_chars (fun c => if Ascii.eqb c backquote then dquote else c) s.

Definition DQ : string := String dquote EmptyString.

(** [str.lower] *)
Definition lower_char (c : ascii) : ascii :=
  if is_upper c then ascii_of_nat (code c + 32) else c.

Definition lower (s : string) : string := map_chars lower_char s.

(** [s.startswith(w)] *)
Fixpoint starts_with (w s : string) : bool :=
  match w, s with
  | EmptyString, _ => true
  | String a w', String b s' => Ascii.eqb a b && starts_with w' s'
  | String _ _, EmptyString => false
  end.

(** [needle in hay] *)
Fixpoint contains (needle hay : string) : bool :=
  starts_with needle hay
  || match hay with
     | EmptyString => false
     | String _ r => contains needle r
     end.

(** [any(word in text for word in words)] *)
Definition any_in (words : list string) (text : string) : bool :=
  existsb (fun w => contains w text) words.

(** [c in s], [s.find(c)], [s.rfind(c)] for a one-character [c];
    [None] is Python's [-1]. *)
Fixpoint has_char (c : ascii) (s : string) : bool :=
  match s with
  | EmptyString => false
  | String d r => Ascii.eqb c d || has_char c r
  end.

Fixpoint find_char (c : ascii) (s : string) : option nat :=
  match s with
  | EmptyString => None
  | String d r =>
      if Ascii.eqb c d then Some 0%nat
      else option_map S (find_char c r)
  end.

Fixpoint rfind_char (c : ascii) (s : string) : option nat :=
  match s with
  | EmptyString => None
  | String d r =>
      match rfind_char c r with
      | Some i => Some (S i)
      | None => if Ascii.eqb c d then Some 0%nat else None
      end
  end.

(** [s[a:]] and [s[a:b]] for non-negative [a], [b] *)
Fixpoint drop (a : nat) (s : string) : string :=
  match a, s with
  | O, _ => s
  | S a', String _ r => drop a' r
  | S _, EmptyString => EmptyString
  end.

Fixpoint take (n : nat) (s : string) : string :=
  match n, s with
  | S n', String c r => String c (take n' r)
  | _, _ => EmptyString
  end.

Definition slice (a b : nat) (s : string) : string := take (b - a) (drop a s).

Fixpoint join (sep : string) (l : list string) : string :=
  match l with
  | [] => EmptyString
  | [x] => x
  | x :: r => x ++ sep ++ join sep r
  end.

(** Decimal numerals: [str(n)] and [int(s)] *)
Definition of_nat (n : nat) : string := NilZero.string_of_uint (Nat.to_uint n).
Definition of_Z (z : Z) : string := NilZero.string_of_int (Z.to_int z).

Definition digit_val (c : ascii) : Z := Z.of_nat (code c - 48).

Fixpoint int_acc (acc : Z) (s : string) : option Z :=
  match s with
  | EmptyString => Some acc
  | String c r => if is_digit c then int_acc (10 * acc + digit_val c) r else None
  end.

(** [int(s)] on an unsigned decimal numeral *)
Definition int_of (s : string) : option Z :=
  match s with
  | EmptyString => None
  | _ => int_acc 0 s
  end.

Definition hex_digit (n : nat) : ascii :=
  if (n <? 10)%nat then ascii_of_nat (48 + n) else ascii_of_nat (87 + n).

Definition hex2 (c : ascii) : string :=
  String (hex_digit (code c / 16)) (String (hex_digit (code c mod 16)) EmptyString).

(** [s.startswith(w)], with the text after [w] *)
Fixpoint after_prefix (w s : string) : option string :=
  match w, s with
  | EmptyString, _ => Some s
  | String a w', String b s' => if Ascii.eqb a b then after_prefix w' s' else None
  | String _ _, EmptyString => None
  end.

(** The longest prefix of characters in the class [p], and the rest *)
Fixpoint span (p : ascii -> bool) (s : string) : string * string :=
  match s with
  | String c r =>
      if p c then let '(run, rest) := span p r in (String c run, rest)
      else (EmptyString, s)
  | EmptyString => (EmptyString, EmptyString)
  end.

(** [s.strip()] *)
Fixpoint lstrip (s : string) : string :=
  match s with
  | String c r => if is_space c then lstrip r else s
  | EmptyString => EmptyString
  end.

Fixpoint rstrip (s : string) : string :=
  match s with
  | EmptyString => EmptyString
  | String c r =>
      match rstrip r with
      | EmptyString => if is_space c then EmptyString else String c EmptyString
      | r' => String c r'
      end
  end.

Definition strip (s : string) : string := rstrip (lstrip s).

Definition NL : string := String (ascii_of_nat 10) EmptyString.

(** Every character of [s] is in the class [p]. *)
Fixpoint all_chars (p : ascii -> bool) (s : string) : bool :=
  match s with
  | EmptyString => true
  | String c r => p c && all_chars p r
  end.

End Text.

(* ================================================================== *)
(** * Py: the Python values that flow through the program *)
(* ================================================================== *)

Module Py.
Import Text.

(** A [float] is carried as the numeral it was written as; a [datetime]
    is always a midnight ([datetime(y, m, d)]); an [ObjectId] is its
    24-digit hexadecimal text. *)
Unset Elimination Schemes.
Inductive value : Type :=
| VNone
| VBool (b : bool)
| VInt (z : Z)
| VFloat (numeral : string)
| VStr (s : string)
| VList (l : list value)
| VDict (d : list (string * value))
| VDatetime (y m d : Z)
| VObjectId (hex : string).
Set Elimination Schemes.

(** Induction that reaches the values inside lists and dicts *)
Fixpoint value_ind (P : value -> Prop)
    (HNone : P VNone)
    (HBool : forall b, P (VBool b))
    (HInt : forall z, P (VInt z))
    (HFloat : forall n, P (VFloat n))
    (HStr : forall s, P (VStr s))
    (HList : forall l, Forall P l -> P (VList l))
    (HDict : forall d, Forall (fun kv => P (snd kv)) d -> P (VDict d))
    (HDatetime : forall y m d, P (VDatetime y m d))
    (HObjectId : forall h, P (VObjectId h))
    (v : value) {struct v} : P v :=
  let rec := value_ind P HNone HBool HInt HFloat HStr HList HDict HDatetime HObjectId in
  match v with
  | VNone => HNone
  | VBool b => HBool b
  | VInt z => HInt z
  | VFloat n => HFloat n
  | VStr s => HStr s
  | VList l =>
      HList l ((fix all (l : list value) : Forall P l :=
                  match l with
                  | [] => Forall_nil P
                  | x :: r => Forall_cons x (rec x) (all r)
                  end) l)
  | VDict d =>
      HDict d ((fix all (d : list (string * value)) : Forall (fun kv => P (snd kv)) d :=
                  match d with
                  | [] => Forall_nil _
                  | kv :: r => Forall_cons kv (rec (snd kv)) (all r)
                  end) d)
  | VDatetime y m d => HDatetime y m d
  | VObjectId h => HObjectId h
  end.

Definition dict : Type := list (string * value).

(** [k in d], [d.get(k)], [d[k] = v] *)
Fixpoint dict_has (k : string) (d : dict) : bool :=
  match d with
  | [] => false
  | (k', _) :: r => String.eqb k k' || dict_has k r
  end.

Fixpoint dict_get (k : string) (d : dict) : option value :=
  match d with
  | [] => None
  | (k', v) :: r => if String.eqb k k' then Some v else dict_get k r
  end.

Fixpoint dict_set (k : string) (v : value) (d : dict) : dict :=
  match d with
  | [] => [(k, v)]
  | (k', v') :: r =>
      if String.eqb k k' then (k', v) :: r else (k', v') :: dict_set k v r
  end.

(** [dict(pairs)] *)
Definition dict_of_pairs (pairs : list (string * value)) : dict :=
  fold_left (fun d kv => dict_set (fst kv) (snd kv) d) pairs [].

(** ** [repr] and [str] *)

Definition repr_char (quote c : ascii) : string :=
  if Ascii.eqb c backslash then String backslash (String backslash EmptyString)
  else if Ascii.eqb c quote then String backslash (String quote EmptyString)
  else if (code c =? 9)%nat then "\t"
  else if (code c =? 10)%nat then "\n"
  else if (code c =? 13)%nat then "\r"
  else if (code c <? 32)%nat || (code c =? 127)%nat then "\x" ++ hex2 c
  else String c EmptyString.

Fixpoint repr_chars (quote : ascii) (s : string) : string :=
  match s with
  | EmptyString => EmptyString
  | String c r => repr_char quote c ++ repr_chars quote r
  end.

Definition repr_quote (s : string) : ascii :=
  if has_char squote s && negb (has_char dquote s) then dquote else squote.

Definition repr_str (s : string) : string :=
  let q := repr_quote s in
  String q (repr_chars q s ++ String q EmptyString).

Fixpoint repr (v : value) : string :=
  match v with
  | VNone => "None"
  | VBool true => "True"
  | VBool false => "False"
  | VInt z => of_Z z
  | VFloat n => n
  | VStr s => repr_str s
  | VList l => "[" ++ join ", " (map repr l) ++ "]"
  | VDict d =>
      "{" ++ join ", " (map (fun '(k, x) => repr_str k ++ ": " ++ repr x) d) ++ "}"
  | VDatetime y m d =>
      "datetime.datetime(" ++ of_Z y ++ ", " ++ of_Z m ++ ", " ++ of_Z d ++ ", 0, 0)"
  | VObjectId h => "ObjectId('" ++ h ++ "')"
  end.

Definition pad (width : nat) (s : string) : string :=
  String.concat "" (repeat "0" (width - String.length s)) ++ s.

(** [datetime(y, m, d).isoformat()] *)
Definition isoformat (y m d : Z) : string :=
  pad 4 (of_Z y) ++ "-" ++ pad 2 (of_Z m) ++ "-" ++ pad 2 (of_Z d) ++ "T00:00:00".

Definition str (v : value) : string :=
  match v with
  | VStr s => s
  | VObjectId h => h
  | VDatetime y m d =>
      pad 4 (of_Z y) ++ "-" ++ pad 2 (of_Z m) ++ "-" ++ pad 2 (of_Z d) ++ " 00:00:00"
  | _ => repr v
  end.

(** ** [json.dumps(_, cls=DateTimeEncoder)] *)

Definition dumps_char (c : ascii) : string :=
  if Ascii.eqb c dquote then String backslash DQ
  else if Ascii.eqb c backslash then String backslash (String backslash EmptyString)
  else if (code c =? 10)%nat then "\n"
  else if (code c =? 13)%nat then "\r"
  else if (code c =? 9)%nat then "\t"
  else if (code c =? 8)%nat then "\b"
  else if (code c =? 12)%nat then "\f"
  else if (code c <? 32)%nat || (126 <? code c)%nat then "\u00" ++ hex2 c
  else String c EmptyString.

Fixpoint dumps_chars (s : string) : string :=
  match s with
  | EmptyString => EmptyString
  | String c r => dumps_char c ++ dumps_chars r
  end.

Definition dumps_str (s : string) : string := DQ ++ dumps_chars s ++ DQ.

Fixpoint all_some {A : Type} (l : list (option A)) : option (list A) :=
  match l with
  | [] => Some []
  | None :: _ => None
  | Some x :: r => option_map (cons x) (all_some r)
  end.

(** [DateTimeEncoder.default]: a [datetime] becomes
    [{"$date": isoformat + "Z"}]; anything else the encoder does not know
    raises [TypeError] ([None] here). *)
Definition encoder_default (v : value) : option value :=
  match v with
  | VDatetime y m d => Some (VDict [("$date", VStr (isoformat y m d ++ "Z"))])
  | _ => None
  end.

Fixpoint dumps (v : value) : option string :=
  match v with
  | VNone => Some "null"
  | VBool true => Some "true"
  | VBool false => Some "false"
  | VInt z => Some (of_Z z)
  | VFloat n => Some n
  | VStr s => Some (dumps_str s)
  | VList l =>
      option_map (fun xs => "[" ++ join ", " xs ++ "]") (all_some (map dumps l))
  | VDict d =>
      option_map (fun xs => "{" ++ join ", " xs ++ "}")
        (all_some (map (fun '(k, x) =>
                          option_map (fun t => dumps_str k ++ ": " ++ t) (dumps x)) d))
  | VDatetime y m d =>
      Some ("{" ++ dumps_str "$date" ++ ": " ++ dumps_str (isoformat y m d ++ "Z") ++ "}")
  | VObjectId _ => None
  end.

End Py.

(* ================================================================== *)
(** * Json: [json.loads] *)
(* ================================================================== *)

Module Json.
Import Text Py.

(** The decoder is the recursive-descent scanner of Python's [json]
    package on the ASCII range: strict strings, numerals made of an
    integer part, an optional fraction and an optional exponent, the constants
    [null], [true], [false], [NaN], [Infinity] and [-Infinity], and
    [dict(pairs)] for an object.  Two limits of the interpreter are part
    of it.  [int] refuses a numeral of more than 4300 digits with a
    [ValueError], as every syntax error is ([JSONDecodeError] is a
    [ValueError]).  The scanner enters the interpreter's recursion guard
    at every object and every array, and a [RecursionError] is raised
    when the text nests more containers than the guard allows; that
    number depends on the interpreter and on the depth of the call, and
    is the argument [depth] of the scanner. *)

(** What [json.loads] raises *)
Inductive exception : Type :=
| Value_error
| Recursion_error.

Inductive result (A : Type) : Type :=
| Ok (a : A)
| Raise (e : exception).

Arguments Ok {A} a.
Arguments Raise {A} e.

Definition is_ws (c : ascii) : bool :=
  (code c =? 32)%nat || (code c =? 9)%nat || (code c =? 10)%nat || (code c =? 13)%nat.

Fixpoint skip_ws (s : string) : string :=
  match s with
  | String c r => if is_ws c then skip_ws r else s
  | EmptyString => EmptyString
  end.

(** *** Strings *)

Definition hex_val (c : ascii) : option N :=
  if is_digit c then Some (N.of_nat (code c - 48))
  else if in_range 97 102 c then Some (N.of_nat (code c - 87))
  else if in_range 65 70 c then Some (N.of_nat (code c - 55))
  else None.

Definition hex4 (a b c d : ascii) : option N :=
  match hex_val a, hex_val b, hex_val c, hex_val d with
  | Some x, Some y, Some z, Some w => Some (((x * 16 + y) * 16 + z) * 16 + w)%N
  | _, _, _, _ => None
  end.

(** One unit of a decoded string: a character of the text, or the code
    unit of a [\uXXXX] escape. *)
Inductive unit16 : Type :=
| Raw (c : ascii)
| Esc (cp : N).

Definition byte (n : N) : ascii := ascii_of_N n.

Definition utf8 (cp : N) : string :=
  (if cp <? 128 then String (byte cp) EmptyString
   else if cp <? 2048 then
     String (byte (192 + cp / 64)) (String (byte (128 + cp mod 64)) EmptyString)
   else if cp <? 65536 then
     String (byte (224 + cp / 4096))
       (String (byte (128 + (cp / 64) mod 64))
          (String (byte (128 + cp mod 64)) EmptyString))
   else
     String (byte (240 + cp / 262144))
       (String (byte (128 + (cp / 4096) mod 64))
          (String (byte (128 + (cp / 64) mod 64))
             (String (byte (128 + cp mod 64)) EmptyString))))%N.

Definition is_high (cp : N) : bool := ((55296 <=? cp) && (cp <=? 56319))%N.
Definition is_low (cp : N) : bool := ((56320 <=? cp) && (cp <=? 57343))%N.

Fixpoint text_of_units (l : list unit16) : string :=
  match l with
  | [] => EmptyString
  | Raw c :: r => String c (text_of_units r)
  | Esc hi :: r =>
      match r with
      | Esc lo :: r' =>
          if is_high hi && is_low lo
          then utf8 (65536 + (hi - 55296) * 1024 + (lo - 56320))%N ++ text_of_units r'
          else utf8 hi ++ text_of_units r
      | _ => utf8 hi ++ text_of_units r
      end
  end.

Definition unescape (e : ascii) : option ascii :=
  if Ascii.eqb e dquote then Some dquote
  else if Ascii.eqb e backslash then Some backslash
  else if Ascii.eqb e "/" then Some "/"%char
  else if Ascii.eqb e "b" then Some (ascii_of_nat 8)
  else if Ascii.eqb e "f" then Some (ascii_of_nat 12)
  else if Ascii.eqb e "n" then Some (ascii_of_nat 10)
  else if Ascii.eqb e "r" then Some (ascii_of_nat 13)
  else if Ascii.eqb e "t" then Some (ascii_of_nat 9)
  else None.

(** [scan_units s acc]: [s] is the text after the opening quote; the
    result is the units up to the closing quote and the text after it. *)
Fixpoint scan_units (s : string) (acc : list unit16) : option (list unit16 * string) :=
  match s with
  | EmptyString => None
  | String c r =>
      if Ascii.eqb c dquote then Some (rev acc, r)
      else if Ascii.eqb c backslash then
        match r with
        | String e r1 =>
            if Ascii.eqb e "u" then
              match r1 with
              | String h1 (String h2 (String h3 (String h4 r2))) =>
                  match hex4 h1 h2 h3 h4 with
                  | Some cp => scan_units r2 (Esc cp :: acc)
                  | None => None
                  end
              | _ => None
              end
            else
              match unescape e with
              | Some x => scan_units r1 (Raw x :: acc)
              | None => None
              end
        | EmptyString => None
        end
      else if (code c <? 32)%nat then None
      else scan_units r (Raw c :: acc)
  end.

Definition scanstring (s : string) : option (string * string) :=
  match scan_units s [] with
  | Some (us, rest) => Some (text_of_units us, rest)
  | None => None
  end.

(** *** Numerals *)

(** The integer part (an optional minus sign, then either a single zero
    or a digit string without leading zero) and the text after it *)
Definition scan_integer (s : string) : option (string * string) :=
  let '(sign, body) :=
    match after_prefix "-" s with
    | Some r => ("-", r)
    | None => (EmptyString, s)
    end in
  match after_prefix "0" body with
  | Some r => Some (sign ++ "0", r)
  | None =>
      match span is_digit body with
      | (EmptyString, _) => None
      | (ds, rest) => Some (sign ++ ds, rest)
      end
  end.

(** The optional fraction: a dot and at least one digit *)
Definition scan_fraction (s : string) : string * string :=
  match after_prefix "." s with
  | Some r =>
      match span is_digit r with
      | (EmptyString, _) => (EmptyString, s)
      | (ds, rest) => ("." ++ ds, rest)
      end
  | None => (EmptyString, s)
  end.

(** The optional exponent: e or E, an optional sign, at least one digit *)
Definition scan_exponent (s : string) : string * string :=
  let marked :=
    match after_prefix "e" s with
    | Some r => Some ("e", r)
    | None =>
        match after_prefix "E" s with
        | Some r => Some ("E", r)
        | None => None
        end
    end in
  match marked with
  | None => (EmptyString, s)
  | Some (e, r) =>
      let '(sign, body) :=
        match after_prefix "-" r with
        | Some b => ("-", b)
        | None =>
            match after_prefix "+" r with
            | Some b => ("+", b)
            | None => (EmptyString, r)
            end
        end in
      match span is_digit body with
      | (EmptyString, _) => (EmptyString, s)
      | (ds, rest) => (e ++ sign ++ ds, rest)
      end
  end.

Definition int_value (numeral : string) : Z :=
  match after_prefix "-" numeral with
  | Some r => match int_of r with Some z => (- z)%Z | None => 0%Z end
  | None => match int_of numeral with Some z => z | None => 0%Z end
  end.

(** [sys.get_int_max_str_digits()], by default *)
Definition max_str_digits : nat := 4300.

(** The digits of an integer numeral, its sign apart *)
Definition digits (numeral : string) : nat :=
  match after_prefix "-" numeral with
  | Some r => String.length r
  | None => String.length numeral
  end.

(** A numeral without fraction and exponent goes to [int], which
    raises [ValueError] beyond the limit; the others go to [float]. *)
Definition scan_number (s : string) : option (value * string) :=
  match scan_integer s with
  | None => None
  | Some (i, r1) =>
      let '(f, r2) := scan_fraction r1 in
      let '(e, r3) := scan_exponent r2 in
      match f, e with
      | EmptyString, EmptyString =>
          if (max_str_digits <? digits i)%nat then None
          else Some (VInt (int_value i), r3)
      | _, _ => Some (VFloat (i ++ f ++ e), r3)
      end
  end.

Definition scan_constant (s : string) : option (value * string) :=
  match after_prefix "null" s with
  | Some r => Some (VNone, r)
  | None =>
  match after_prefix "true" s with
  | Some r => Some (VBool true, r)
  | None =>
  match after_prefix "false" s with
  | Some r => Some (VBool false, r)
  | None =>
  match scan_number s with
  | Some x => Some x
  | None =>
  match after_prefix "NaN" s with
  | Some r => Some (VFloat "NaN", r)
  | None =>
  match after_prefix "Infinity" s with
  | Some r => Some (VFloat "Infinity", r)
  | None =>
  match after_prefix "-Infinity" s with
  | Some r => Some (VFloat "-Infinity", r)
  | None => None
  end end end end end end end.

(** *** Values *)

(** [depth] is the number of containers that may still be opened. *)
Fixpoint scan_once (fuel depth : nat) (s : string) : result (value * string) :=
  match fuel with
  | O => Raise Value_error
  | S f =>
      match after_prefix DQ s with
      | Some r =>
          match scanstring r with
          | Some (t, rest) => Ok (VStr t, rest)
          | None => Raise Value_error
          end
      | None =>
      match after_prefix "{" s with
      | Some r =>
          match depth with
          | O => Raise Recursion_error
          | S d =>
              match after_prefix "}" (skip_ws r) with
              | Some rest => Ok (VDict [], rest)
              | None => scan_members f d (skip_ws r) []
              end
          end
      | None =>
      match after_prefix "[" s with
      | Some r =>
          match depth with
          | O => Raise Recursion_error
          | S d =>
              match after_prefix "]" (skip_ws r) with
              | Some rest => Ok (VList [], rest)
              | None => scan_elements f d (skip_ws r) []
              end
          end
      | None =>
          match scan_constant s with
          | Some x => Ok x
          | None => Raise Value_error
          end
      end end end
  end

with scan_members (fuel depth : nat) (s : string) (acc : list (string * value))
  : result (value * string) :=
  match fuel with
  | O => Raise Value_error
  | S f =>
      match after_prefix DQ s with
      | None => Raise Value_error
      | Some r =>
          match scanstring r with
          | None => Raise Value_error
          | Some (k, r1) =>
              match after_prefix ":" (skip_ws r1) with
              | None => Raise Value_error
              | Some r2 =>
                  match scan_once f depth (skip_ws r2) with
                  | Raise e => Raise e
                  | Ok (v, r3) =>
                      match after_prefix "}" (skip_ws r3) with
                      | Some rest =>
                          Ok (VDict (dict_of_pairs (rev ((k, v) :: acc))), rest)
                      | None =>
                          match after_prefix "," (skip_ws r3) with
                          | Some r4 => scan_members f depth (skip_ws r4) ((k, v) :: acc)
                          | None => Raise Value_error
                          end
                      end
                  end
              end
          end
      end
  end

with scan_elements (fuel depth : nat) (s : string) (acc : list value)
  : result (value * string) :=
  match fuel with
  | O => Raise Value_error
  | S f =>
      match scan_once f depth s with
      | Raise e => Raise e
      | Ok (v, r1) =>
          match after_prefix "]" (skip_ws r1) with
          | Some rest => Ok (VList (rev (v :: acc)), rest)
          | None =>
              match after_prefix "," (skip_ws r1) with
              | Some r2 => scan_elements f depth (skip_ws r2) (v :: acc)
              | None => Raise Value_error
              end
          end
      end
  end.

(** [json.loads(s)], the interpreter allowing [depth] nested
    containers; the fuel is twice the length of the text, which the
    scanner cannot use up. *)
Definition loads (depth : nat) (s : string) : result value :=
  match scan_once (2 * String.length s + 2) depth (skip_ws s) with
  | Ok (v, rest) =>
      match skip_ws rest with
      | EmptyString => Ok v
      | _ => Raise Value_error
      end
  | Raise e => Raise e
  end.

End Json.

(* ================================================================== *)
(** * Generator: [dynamic_query_generator.py] *)
(* ================================================================== *)

Module Generator.
Import Text Py.

(** [self.metadata], the result of [extract_metadata()]: for every
    collection, in order, its [info.get('fields', {})], a mapping from
    field name to type tag, in order. *)
Definition fields : Type := list (string * string).
Definition metadata : Type := list (string * fields).

(** The strings that [_determine_intent] returns. *)
Inductive intent : Type :=
| I_min_analysis | I_max_analysis | I_aggregate_sum | I_count
| I_average | I_list | I_max | I_min.

Definition intent_eqb (a b : intent) : bool :=
  match a, b with
  | I_min_analysis, I_min_analysis | I_max_analysis, I_max_analysis
  | I_aggregate_sum, I_aggregate_sum | I_count, I_count
  | I_average, I_average | I_list, I_list | I_max, I_max | I_min, I_min => true
  | _, _ => false
  end.

(** The [filters] dict: its two possible keys. *)
Record filters : Type := { year : option string; status : option string }.

Record analysis : Type :=
  { a_collections : list string; a_intent : intent; a_filters : filters }.

Definition mem (x : string) (l : list string) : bool := existsb (String.eqb x) l.

(** [re.search(r'20\d{2}', question)]: the leftmost match *)
Definition year_at (s : string) : option string :=
  match s with
  | String "2" (String "0" (String a (String b _))) =>
      if is_digit a && is_digit b
      then Some (String "2" (String "0" (String a (String b EmptyString))))
      else None
  | _ => None
  end.

Fixpoint search_year (s : string) : option string :=
  match s with
  | EmptyString => None
  | String _ r =>
      match year_at s with
      | Some y => Some y
      | None => search_year r
      end
  end.

Definition _determine_intent (question : string) : intent :=
  if any_in ["least"; "worst"; "lowest"; "bottom"] question then I_min_analysis
  else if any_in ["most"; "best"; "highest"; "top"] question then I_max_analysis
  else if any_in ["total sales"; "total revenue"; "sales total"] question then I_aggregate_sum
  else if any_in ["total"; "sum"; "sales"; "revenue"] question then I_aggregate_sum
  else if any_in ["count"; "how many"; "number of"] question then I_count
  else if any_in ["average"; "avg"; "mean"] question then I_average
  else if any_in ["show"; "list"; "display"; "get"] question then I_list
  else if any_in ["max"; "maximum"; "highest"] question then I_max
  else if any_in ["min"; "minimum"; "lowest"] question then I_min
  else I_list.

Definition _extract_filters (question : string) : filters :=
  {| year := search_year question;
     status :=
       if contains "completed" (lower question) then Some "completed"
       else if contains "pending" (lower question) then Some "pending"
       else if contains "cancelled" (lower question) then Some "cancelled"
       else None |}.

Section WithMetadata.

Variable md : metadata.

(** [self.collections = list(self.metadata.keys())] *)
Definition collections : list string := map fst md.

Fixpoint lookup (c : string) (m : metadata) : option fields :=
  match m with
  | [] => None
  | (c', fs) :: r => if String.eqb c c' then Some fs else lookup c r
  end.

Definition analyze_question (question : string) : analysis :=
  let question_lower := lower question in
  let hinted :=
    if any_in ["product"; "products"; "item"; "items"] question_lower then
      if mem "orders" collections then ["orders"] else []
    else if any_in ["sales"; "revenue"; "total sales"; "income"] question_lower then
      if mem "orders" collections then ["orders"] else []
    else if any_in ["customer"; "customers"; "client"; "clients"] question_lower then
      if mem "customers" collections then ["customers"] else []
    else [] in
  let mentioned :=
    (hinted ++ filter (fun c => contains (lower c) question_lower) collections)%list in
  let by_field :=
    match mentioned with
    | [] =>
        map fst
          (filter (fun '(_, fs) =>
                     existsb (fun '(f, _) => contains (lower f) question_lower) fs) md)
    | _ => mentioned
    end in
  let relevant_collections :=
    match by_field with
    | [] =>
        if any_in ["sales"; "revenue"; "total"; "amount"; "product"; "sold";
                   "least"; "most"] question_lower
        then ["orders"]
        else match collections with
             | c :: _ => [c]
             | [] => ["orders"]
             end
    | _ => by_field
    end in
  {| a_collections := relevant_collections;
     a_intent := _determine_intent question_lower;
     a_filters := _extract_filters question |}.

Definition _find_amount_field (collection : string) : option string :=
  match lookup collection md with
  | None => None
  | Some fs =>
      let amount_candidates :=
        ["amount"; "total"; "price"; "cost"; "value"; "revenue"; "sales"] in
      (fix each_candidate (cs : list string) : option string :=
         match cs with
         | [] => None
         | candidate :: cs' =>
             match find (fun '(field_name, _) => contains candidate (lower field_name)) fs with
             | Some (field_name, _) => Some field_name
             | None => each_candidate cs'
             end
         end) amount_candidates
  end.

Definition _find_date_fields (collection : string) : list string :=
  match lookup collection md with
  | None => []
  | Some fs =>
      map fst
        (filter (fun '(field_name, field_type) =>
                   String.eqb field_type "date"
                   || contains "date" (lower field_name)
                   || contains "time" (lower field_name)) fs)
  end.

Definition _has_field (collection field_name : string) : bool :=
  match lookup collection md with
  | None => false
  | Some fs => mem field_name (map fst fs)
  end.

(** The five stages of the product analysis, up to the sort direction. *)
Definition product_stages (direction : Z) : list value :=
  [ VDict [("$group", VDict [("_id", VStr "$productId");
                             ("totalSales", VDict [("$sum", VStr "$amount")]);
                             ("quantitySold", VDict [("$sum", VStr "$quantity")])])];
    VDict [("$lookup", VDict [("from", VStr "products");
                              ("localField", VStr "_id");
                              ("foreignField", VStr "_id");
                              ("as", VStr "product")])];
    VDict [("$unwind", VStr "$product")];
    VDict [("$project", VDict [("productName", VStr "$product.name");
                               ("totalSales", VInt 1);
                               ("quantitySold", VInt 1)])];
    VDict [("$sort", VDict [("totalSales", VInt direction)])];
    VDict [("$limit", VInt 10)] ].

Definition group_stage (name op amount_field : string) : value :=
  VDict [("$group", VDict [("_id", VNone);
                           (name, VDict [(op, VStr ("$" ++ amount_field))])])].

(** The [match_stage] dict of [generate_query]; [None] when [int] or
    [datetime] raises. *)
Definition build_match_stage (collection : string) (i : intent) (f : filters)
  : option dict :=
  let with_year :=
    match year f with
    | Some y =>
        match int_of y with
        | None => None
        | Some year =>
            match _find_date_fields collection with
            | date_field :: _ =>
                Some (dict_set date_field
                        (VDict [("$gte", VDatetime year 1 1);
                                ("$lt", VDatetime (year + 1) 1 1)]) [])
            | [] => Some []
            end
        end
    | None => Some []
    end in
  match with_year with
  | None => None
  | Some match_stage =>
      match status f with
      | Some s =>
          if _has_field collection "status"
          then Some (dict_set "status" (VStr s) match_stage)
          else Some match_stage
      | None =>
          if intent_eqb i I_aggregate_sum && _has_field collection "status"
          then Some (dict_set "status" (VStr "completed") match_stage)
          else Some match_stage
      end
  end.

(** The stages appended to the pipeline for each intent *)
Definition intent_stages (question collection : string) (i : intent) : list value :=
  match i with
  | I_count => [VDict [("$count", VStr "total")]]
  | I_aggregate_sum =>
      match _find_amount_field collection with
      | Some amount_field => [group_stage "total" "$sum" amount_field]
      | None => [VDict [("$count", VStr "total")]]
      end
  | I_average =>
      match _find_amount_field collection with
      | Some amount_field => [group_stage "average" "$avg" amount_field]
      | None => []
      end
  | I_min_analysis =>
      if any_in ["product"; "item"] (lower question) then product_stages 1
      else match _find_amount_field collection with
           | Some amount_field => [group_stage "min" "$min" amount_field]
           | None => []
           end
  | I_max_analysis =>
      if any_in ["product"; "item"] (lower question) then product_stages (-1)
      else match _find_amount_field collection with
           | Some amount_field => [group_stage "max" "$max" amount_field]
           | None => []
           end
  | I_list | I_max | I_min =>
      [ match _find_date_fields collection with
        | date_field :: _ => VDict [("$sort", VDict [(date_field, VInt (-1))])]
        | [] => VDict [("$sort", VDict [("_id", VInt (-1))])]
        end;
        VDict [("$limit", VInt 10)] ]
  end.

(** The local [pipeline] of [generate_query] when it reaches its
    [return], with the collection; [None] when an exception is raised. *)
Definition generate_pipeline (question : string) : option (list value * string) :=
  let analysis := analyze_question question in
  match a_collections analysis with
  | [] => None
  | collection :: _ =>
      let intent := a_intent analysis in
      match build_match_stage collection intent (a_filters analysis) with
      | None => None
      | Some match_stage =>
          let pipeline :=
            match match_stage with
            | [] => []
            | _ => [VDict [("$match", VDict match_stage)]]
            end in
          Some ((pipeline ++ intent_stages question collection intent)%list, collection)
      end
  end.

Definition generate_query (question : string) : option (string * string) :=
  match generate_pipeline question with
  | Some (pipeline, collection) =>
      match dumps (VList pipeline) with
      | Some text => Some (text, collection)
      | None => None
      end
  | None => None
  end.

Definition fallback_query : string :=
  match dumps (VList [VDict [("$limit", VInt 10)]]) with
  | Some text => text
  | None => EmptyString
  end.

Definition generate_mongo_query (prompt : string) : string :=
  match generate_query prompt with
  | Some (query, _) => query
  | None => fallback_query
  end.

End WithMetadata.

End Generator.

(* ================================================================== *)
(** * Agent: [mongo_chat_agent.py] *)
(* ================================================================== *)

Module Agent.
Import Text Py.

(** ** The outside world *)

(** [self.embeddings_db[name]]: the two entries that are read *)
Record collection_data : Type :=
  { doc_count : Z; static_fields : list (string * string) }.

(** What the program calls and does not define.  An [inl] is the
    message of the exception that the call raises.  [store_find] is
    [collection.find(query)] before [limit]; [similarity q c] is the
    cosine similarity of the embeddings of the question [q] and of the
    collection [c], a rational here, and 0 when a norm is 0.
    The interpreter lets [json.loads] nest a number of containers where
    [process_query] calls it: its recursion limit, 1000 by default,
    less the frames in use.  That number is taken to be at least 100,
    and [spare_depth] is what it has above 100;
    [recursion_error_text s] is [str(e)] for the [RecursionError] that
    [json.loads(s)] raises beyond it. *)
Record world : Type :=
  { store_find : string -> value -> string + list dict;
    store_count_documents : string -> value -> string + Z;
    store_aggregate : string -> value -> string + list dict;
    store_find_one : string -> string + option dict;
    llm_generate : string -> string -> string;
    similarity : string -> string -> Q;
    literal_eval : string -> option value;
    spare_depth : nat;
    recursion_error_text : string -> string;
    embeddings_db : list (string * collection_data) }.

Definition recursion_limit (w : world) : nat := 100 + spare_depth w.

(** Every call that leaves the process *)
Inductive event : Type :=
| Ev_find (collection : string) (query : value) (limit : nat)
| Ev_count_documents (collection : string) (query : value)
| Ev_aggregate (collection : string) (pipeline : value)
| Ev_find_one (collection : string)
| Ev_generate (system_prompt user_prompt : string).

Definition is_store_call (e : event) : bool :=
  match e with
  | Ev_generate _ _ => false
  | _ => true
  end.

Definition is_model_call (e : event) : bool :=
  match e with
  | Ev_generate _ _ => true
  | _ => false
  end.

(** A computation returns its result and the calls it made, in order. *)
Definition M (A : Type) : Type := (A * list event)%type.

Definition ret {A : Type} (a : A) : M A := (a, []).

Definition bind {A B : Type} (m : M A) (k : A -> M B) : M B :=
  let '(a, t1) := m in
  let '(b, t2) := k a in
  (b, (t1 ++ t2)%list).

Definition call {A : Type} (e : event) (answer : A) : M A := (answer, [e]).

Notation "x <- m ;; k" := (bind m (fun x => k))
  (at level 61, m at next level, right associativity).

(** ** [MongoDBConnector] *)

Definition prohibited_operators : list string :=
  ["$set"; "$unset"; "$push"; "$pull"; "deleteOne"; "deleteMany";
   "updateOne"; "updateMany"; "drop"].

Definition error_descriptor (message : string) : value :=
  VDict [("error", VStr message)].

(** [if '_id' in doc: doc['_id'] = str(doc['_id'])] *)
Definition stringify_id (doc : dict) : dict :=
  match dict_get "_id" doc with
  | Some v => dict_set "_id" (VStr (str v)) doc
  | None => doc
  end.

Definition documents (docs : list dict) : value := VList (map VDict docs).

Definition execute_query (w : world) (collection_name : string) (query : value)
  : M value :=
  if existsb (fun op => contains op (lower (str query))) prohibited_operators
  then ret (error_descriptor "Data modification queries are not allowed")
  else
    found <- call (Ev_find collection_name query 10) (store_find w collection_name query) ;;
    match found with
    | inr docs => ret (documents (map stringify_id (firstn 10 docs)))
    | inl e => ret (error_descriptor e)
    end.

(** [type(value).__name__] *)
Definition type_name (v : value) : string :=
  match v with
  | VNone => "NoneType"
  | VBool _ => "bool"
  | VInt _ => "int"
  | VFloat _ => "float"
  | VStr _ => "str"
  | VList _ => "list"
  | VDict _ => "dict"
  | VDatetime _ _ _ => "datetime"
  | VObjectId _ => "ObjectId"
  end.

(** Each field with its type name and [str(value)[:50]]; the empty list
    is the empty dict that is returned when there is no sample or when
    the store raises. *)
Definition get_collection_sample_fields (w : world) (collection_name : string)
  : M (list (string * (string * string))) :=
  sample <- call (Ev_find_one collection_name) (store_find_one w collection_name) ;;
  match sample with
  | inr (Some sample_doc) =>
      ret (map (fun '(field_name, v) => (field_name, (type_name v, take 50 (str v))))
               sample_doc)
  | _ => ret []
  end.

(** ** [VectorSearchEngine.search_collections] *)

Definition Qltb (a b : Q) : bool := negb (Qle_bool b a).

(** [sorted(items, key=score, reverse=True)]: stable, descending *)
Fixpoint insert_desc (x : string * Q) (l : list (string * Q)) : list (string * Q) :=
  match l with
  | [] => [x]
  | y :: r => if Qltb (snd x) (snd y) then y :: insert_desc x r else x :: l
  end.

Definition sorted_desc (l : list (string * Q)) : list (string * Q) :=
  fold_right insert_desc [] l.

Definition search_collections (w : world) (user_question : string) (top_k : nat)
  : list (string * Q) :=
  let similarities :=
    map (fun '(collection_name, _) =>
           (collection_name, similarity w user_question collection_name))
        (embeddings_db w) in
  firstn top_k (sorted_desc similarities).

(** ** [PromptBuilder] *)

Fixpoint lookup_data (c : string) (db : list (string * collection_data))
  : option collection_data :=
  match db with
  | [] => None
  | (c', d) :: r => if String.eqb c c' then Some d else lookup_data c r
  end.

Definition NO_RELEVANT_COLLECTION : string := "NO_RELEVANT_COLLECTION".

Definition context_header : string :=
  "## Available MongoDB Collections" ++ NL ++ NL ++
  "⚠️ IMPORTANT: Use ONLY the field names shown below. Do NOT invent field names."
  ++ NL ++ NL.

Definition live_field_line (f : string * (string * string)) : string :=
  let '(field_name, (type, sample_value)) := f in
  "  - `" ++ field_name ++ "`: " ++ type ++ " (e.g., " ++ sample_value ++ ")" ++ NL.

Definition static_field_line (f : string * string) : string :=
  let '(field_name, field_desc) := f in
  "  - `" ++ field_name ++ "`: " ++ field_desc ++ NL.

(** The text added to the context for one collection that is kept;
    [None] is the [KeyError] of [self.embeddings_db[collection_name]]. *)
Definition collection_section (w : world) (collection_name : string)
  : M (option string) :=
  match lookup_data collection_name (embeddings_db w) with
  | None => ret None
  | Some collection_data =>
      actual_fields <- get_collection_sample_fields w collection_name ;;
      ret (Some
        ("### Collection: `" ++ collection_name ++ "`" ++ NL ++
         "Document Count: " ++ of_Z (doc_count collection_data) ++ NL ++
         NL ++ "**ACTUAL Fields (verified from sample document):**" ++ NL ++
         match actual_fields with
         | [] => String.concat ""
                   (map static_field_line (firstn 5 (static_fields collection_data)))
         | _ => String.concat "" (map live_field_line actual_fields)
         end ++ NL))
  end.

(** The collections of the ranking that enter the context *)
Definition kept (relevant_collections : list (string * Q)) : list (string * Q) :=
  filter (fun '(_, similarity_score) => negb (Qltb similarity_score (2 # 10)))
         relevant_collections.

Fixpoint build_sections (w : world) (names : list (string * Q)) (context : string)
  : M (option string) :=
  match names with
  | [] => ret (Some context)
  | (collection_name, _) :: r =>
      section <- collection_section w collection_name ;;
      match section with
      | None => ret None
      | Some text => build_sections w r (context ++ text)
      end
  end.

Definition no_relevant (relevant_collections : list (string * Q)) : bool :=
  match relevant_collections with
  | [] => true
  | (_, top_score) :: _ => Qltb top_score (3 # 10)
  end.

Definition build_context (w : world) (user_question : string) (top_k_collections : nat)
  : M (option string) :=
  let relevant_collections := search_collections w user_question top_k_collections in
  if no_relevant relevant_collections then ret (Some NO_RELEVANT_COLLECTION)
  else build_sections w (kept relevant_collections) context_header.

(** The two prompts of [get_reliable_prompt] *)

Definition decline_system_prompt : string :=
  "You are a MongoDB query assistant. If the user asks something not related to the database, politely decline and suggest a relevant database query.".

Definition decline_user_prompt (user_question : string) : string :=
  "User asked: " ++ user_question ++ NL ++ NL ++
  "This question doesn't seem related to the database. Please ask something about the data in the MongoDB collections.".

Definition expert_system_prompt : string :=
  bq "You are a MongoDB query expert. Your ONLY job is to:
1. Generate MongoDB queries based on user questions
2. Use ONLY the collections and fields provided
3. Return ONLY valid MongoDB query syntax
4. Do NOT make up field names or collections
5. Do NOT attempt data modifications (no $set, $unset, deleteOne, deleteMany, drop, etc.)
6. Do NOT hallucinate - if you can't construct a valid query, say `UNABLE_TO_QUERY`
7. For simple key-value lookups use: db.collection.find({...})
8. For SORTING, LIMITING (top N), GROUPING: Use db.collection.aggregate([...])
9. For counting: Use db.collection.countDocuments({...})
10. For JOINING data (e.g. Orders + Customers), you MUST use this pattern:
    [
      {$match: ...},
      {$lookup: {from: `customers`, localField: `customerId`, foreignField: `_id`, as: `customer_docs`}},
      {$unwind: `$customer_docs`},
      {$project: {
         _id: 0,
         order_status: `$status`,
         amount: 1,
         customer_name: `$customer_docs.name`,
         customer_email: `$customer_docs.email`
      }}
    ]
11. IF user asks for a field (e.g. 'customerName') that is NOT in the collection's schema, you MUST use $lookup -> $unwind -> $project to fetch it.

CRITICAL RULES:
- NEVER suggest DROP, DELETE, UPDATE, or MODIFY operations
- NEVER create new collections or fields
- If the user asks for `Top N`, `Bottom N`, or `Sort By`, you MUST use aggregate with $sort and $limit
- If user asks for data modification, respond: `MODIFICATION_NOT_ALLOWED: Cannot modify database`
- If user asks something unrelated to database, respond: `OUT_OF_SCOPE: This question is not related to the database`

Return ONLY the MongoDB query code, nothing else.".

Definition expert_user_prompt (schema_context user_question : string) : string :=
  bq "Available Database Schema:
" ++ schema_context ++
  bq "

User Question: `" ++ user_question ++
  bq "`

Generate the MongoDB query to answer this question. Use ONLY the collections and fields shown above.
Return ONLY the query code, no explanation.".

(** [None] is the [KeyError] that [build_context] lets through. *)
Definition get_reliable_prompt (w : world) (user_question : string)
  : M (option (string * string)) :=
  built <- build_context w user_question 3 ;;
  match built with
  | None => ret None
  | Some schema_context =>
      if String.eqb schema_context NO_RELEVANT_COLLECTION
      then ret (Some (decline_system_prompt, decline_user_prompt user_question))
      else ret (Some (expert_system_prompt,
                      expert_user_prompt schema_context user_question))
  end.

(** ** The recovery parser inside [process_query] *)

Inductive operation : Type :=
| Op_find | Op_aggregate | Op_countDocuments | Op_count.

Definition is_word (c : ascii) : bool :=
  is_alpha c || is_digit c || Ascii.eqb c "_".

(** A match of the command pattern that starts at the head of [s]:
    the two groups and [query_code[match.end():]] *)
Definition match_command_at (s : string) : option (string * operation * string) :=
  match after_prefix "db." s with
  | None => None
  | Some r =>
      match span is_word r with
      | (EmptyString, _) => None
      | (collection_name, String "." r1) =>
          match after_prefix "find(" r1 with
          | Some rest => Some (collection_name, Op_find, rest)
          | None =>
          match after_prefix "aggregate(" r1 with
          | Some rest => Some (collection_name, Op_aggregate, rest)
          | None =>
          match after_prefix "countDocuments(" r1 with
          | Some rest => Some (collection_name, Op_countDocuments, rest)
          | None =>
          match after_prefix "count(" r1 with
          | Some rest => Some (collection_name, Op_count, rest)
          | None => None
          end end end end
      | _ => None
      end
  end.

(** [re.search]: the leftmost match *)
Fixpoint search_command (s : string) : option (string * operation * string) :=
  match match_command_at s with
  | Some m => Some m
  | None =>
      match s with
      | String _ r => search_command r
      | EmptyString => None
      end
  end.

(** The bracket counter.  [s] is [content_after_op[start:]] from the
    character of index [i] on, [stack] the list of brackets pushed so
    far; [Closed e] gives [end - start]. *)
Inductive scan : Type :=
| Closed (length : nat)
| Unclosed
| Pop_from_empty.

Fixpoint count_brackets (opening closing : ascii) (s : string)
         (stack : list ascii) (i : nat) : scan :=
  match s with
  | EmptyString => Unclosed
  | String char r =>
      if Ascii.eqb char opening
      then count_brackets opening closing r (stack ++ [opening])%list (S i)
      else if Ascii.eqb char closing then
        match rev stack with
        | [] => Pop_from_empty
        | _ :: popped =>
            match popped with
            | [] => Closed (i + 1)
            | _ => count_brackets opening closing r (rev popped) (S i)
            end
        end
      else count_brackets opening closing r stack (S i)
  end.

(** The substitution that quotes bare keys:
    a lead character among the opening brace, white space and the comma,
    an identifier, optional white space and a colon. *)
Definition is_ident_start (c : ascii) : bool :=
  is_alpha c || Ascii.eqb c "_" || Ascii.eqb c "$".

Definition is_ident_char (c : ascii) : bool := is_ident_start c || is_digit c.

Definition is_key_lead (c : ascii) : bool :=
  Ascii.eqb c "{" || is_space c || Ascii.eqb c ",".

(** A match that starts at the head of [s]: the lead character, the
    identifier and the text after the colon *)
Definition match_key_at (s : string) : option (ascii * string * string) :=
  match s with
  | String lead (String c r) =>
      if is_key_lead lead && is_ident_start c then
        let '(identifier, r1) := span is_ident_char (String c r) in
        match snd (span is_space r1) with
        | String ":" rest => Some (lead, identifier, rest)
        | _ => None
        end
      else None
  | _ => None
  end.

Fixpoint quote_keys_from (fuel : nat) (s : string) : string :=
  match fuel with
  | O => s
  | S f =>
      match match_key_at s with
      | Some (lead, identifier, rest) =>
          String lead (DQ ++ identifier ++ DQ ++ ":") ++ quote_keys_from f rest
      | None =>
          match s with
          | String c r => String c (quote_keys_from f r)
          | EmptyString => EmptyString
          end
      end
  end.

(** [re.sub(pattern, r'\1"\2":', s)] *)
Definition quote_keys (s : string) : string := quote_keys_from (String.length s) s.

(** The decoding attempts, in the order in which they are made *)
Inductive attempt : Type :=
| Loads_clean (clean_str : string)
| Loads_original (query_str : string)
| Literal_eval (query_str : string)
| Default_value.

(** The decoding of a span that the counter closed.  The first
    [json.loads] is under a bare [except]; the second one is under
    [except (ValueError, SyntaxError)], so that its [RecursionError]
    leaves the parser; [ast.literal_eval] is under a bare [except]. *)
Definition decode_closed (w : world) (default : value) (query_str : string)
  : Json.result value * list attempt :=
  let clean_query_str := quote_keys query_str in
  match Json.loads (recursion_limit w) clean_query_str with
  | Json.Ok v => (Json.Ok v, [Loads_clean clean_query_str])
  | Json.Raise _ =>
      match Json.loads (recursion_limit w) query_str with
      | Json.Ok v =>
          (Json.Ok v, [Loads_clean clean_query_str; Loads_original query_str])
      | Json.Raise Json.Recursion_error =>
          (Json.Raise Json.Recursion_error,
           [Loads_clean clean_query_str; Loads_original query_str])
      | Json.Raise Json.Value_error =>
          match literal_eval w query_str with
          | Some v =>
              (Json.Ok v, [Loads_clean clean_query_str; Loads_original query_str;
                           Literal_eval query_str])
          | None =>
              (Json.Ok default,
               [Loads_clean clean_query_str; Loads_original query_str;
                Literal_eval query_str; Default_value])
          end
      end
  end.

(** The decoding of the fallback span, under a bare [except] *)
Definition decode_unclosed (w : world) (default : value) (query_str : string)
  : value * list attempt :=
  let clean_query_str := quote_keys query_str in
  match Json.loads (recursion_limit w) clean_query_str with
  | Json.Ok v => (v, [Loads_clean clean_query_str])
  | Json.Raise _ => (default, [Loads_clean clean_query_str; Default_value])
  end.

(** What leaves the parser: the [IndexError] of a [pop] from an empty
    stack, and the [RecursionError] of [json.loads(query_str)]. *)
Inductive raised : Type :=
| Index_error
| Recursion_error_on (query_str : string).

(** The argument of the operation *)
Definition extract_argument (w : world) (opening closing : ascii) (default : value)
           (content_after_op : string) : raised + value * list attempt :=
  match find_char opening content_after_op with
  | None => inr (default, [])
  | Some start =>
      match count_brackets opening closing (drop start content_after_op) [] 0 with
      | Pop_from_empty => inl Index_error
      | Closed e =>
          let end_ := (start + e)%nat in
          let query_str := slice start end_ content_after_op in
          match decode_closed w default query_str with
          | (Json.Ok argument, attempts) => inr (argument, attempts)
          | (Json.Raise _, _) => inl (Recursion_error_on query_str)
          end
      | Unclosed =>
          let end_ :=
            match rfind_char closing content_after_op with
            | Some i => (i + 1)%nat
            | None => 0%nat
            end in
          inr (decode_unclosed w default (slice start end_ content_after_op))
      end
  end.

Definition opening_of (op : operation) : ascii :=
  match op with Op_aggregate => "["%char | _ => "{"%char end.

Definition closing_of (op : operation) : ascii :=
  match op with Op_aggregate => "]"%char | _ => "}"%char end.

Definition default_of (op : operation) : value :=
  match op with Op_aggregate => VList [] | _ => VDict [] end.

(** What the parser finds in the text of the model *)
Inductive recovered : Type :=
| Command (collection_name : string) (op : operation) (argument : value)
          (attempts : list attempt)
| No_command
| Parser_raised (e : raised).

Definition recover (w : world) (query_code : string) : recovered :=
  match search_command query_code with
  | None => No_command
  | Some (collection_name, op, content_after_op) =>
      match extract_argument w (opening_of op) (closing_of op) (default_of op)
                             content_after_op with
      | inr (argument, attempts) => Command collection_name op argument attempts
      | inl e => Parser_raised e
      end
  end.

(** ** [process_query] *)

(** The answers of [process_query], one for each [return]; the
    formatting of the results is not part of the model. *)
Inductive response : Type :=
| Refused_question
| Declined_before_model
| Model_error (query_code : string)
| Unable_to_query
| Modification_not_allowed
| Out_of_scope
| Count_error (message : string)
| Command_not_found (query_code : string)
| Execution_error (message query_code : string)
| Formatted (results : value)
| Raised (exception : string).

Definition prohibited_words : list string :=
  ["drop"; "delete"; "update"; "insert"; "modify"; "remove"; "truncate"; "alter"].

Definition join_match_filter (question_lower : string) : dict :=
  if contains "completed" question_lower then [("status", VStr "completed")]
  else if contains "pending" question_lower then [("status", VStr "pending")]
  else if contains "cancelled" question_lower then [("status", VStr "cancelled")]
  else [].

Definition join_pipeline (question_lower : string) : value :=
  VList
    [ VDict [("$match", VDict (join_match_filter question_lower))];
      VDict [("$lookup", VDict [("from", VStr "customers");
                                ("localField", VStr "customerId");
                                ("foreignField", VStr "_id");
                                ("as", VStr "customer_info")])];
      VDict [("$unwind", VDict [("path", VStr "$customer_info");
                                ("preserveNullAndEmptyArrays", VBool true)])];
      VDict [("$project", VDict [("_id", VInt 0);
                                 ("status", VInt 1);
                                 ("amount", VInt 1);
                                 ("quantity", VInt 1);
                                 ("customer_name", VStr "$customer_info.name");
                                 ("customer_email", VStr "$customer_info.email")])];
      VDict [("$limit", VInt 10)] ].

Definition wants_join (question_lower : string) : bool :=
  contains "order" question_lower
  && any_in ["customer"; "user"; "client"] question_lower
  && any_in ["name"; "email"; "detail"; "info"] question_lower.

(** The execution of the recovered command *)
Definition dispatch (w : world) (query_code collection_name : string)
           (op : operation) (argument : value) : M response :=
  match op with
  | Op_find =>
      results <- execute_query w collection_name argument ;;
      ret (Formatted results)
  | Op_countDocuments | Op_count =>
      counted <- call (Ev_count_documents collection_name argument)
                      (store_count_documents w collection_name argument) ;;
      match counted with
      | inr count =>
          ret (Formatted
                 (VList [VDict [("count", VInt count);
                                ("description",
                                 VStr ("Total documents in " ++ collection_name
                                       ++ " matching query"))]]))
      | inl e => ret (Count_error e)
      end
  | Op_aggregate =>
      aggregated <- call (Ev_aggregate collection_name argument)
                         (store_aggregate w collection_name argument) ;;
      match aggregated with
      | inr docs => ret (Formatted (documents (firstn 10 docs)))
      | inl e => ret (Execution_error e query_code)
      end
  end.

(** [str(e)] *)
Definition message_of (w : world) (e : raised) : string :=
  match e with
  | Index_error => "pop from empty list"
  | Recursion_error_on query_str => recursion_error_text w query_str
  end.

(** From the stripped text of the model to the answer; what the parser
    raises is caught by [except Exception as e]. *)
Definition run_query_code (w : world) (query_code : string) : M response :=
  match recover w query_code with
  | Command collection_name op argument _ =>
      dispatch w query_code collection_name op argument
  | No_command => ret (Command_not_found query_code)
  | Parser_raised e => ret (Execution_error (message_of w e) query_code)
  end.

Definition after_model (w : world) (query_code : string) : M response :=
  if contains "ERROR:" query_code then ret (Model_error query_code)
  else if contains "UNABLE_TO_QUERY" query_code then ret Unable_to_query
  else if contains "MODIFICATION_NOT_ALLOWED" query_code then ret Modification_not_allowed
  else if contains "OUT_OF_SCOPE" query_code then ret Out_of_scope
  else run_query_code w (strip query_code).

Definition ask_model (w : world) (user_question : string) : M response :=
  prompts <- get_reliable_prompt w user_question ;;
  match prompts with
  | None => ret (Raised "KeyError")
  | Some (system_prompt, user_prompt) =>
      if contains "OUT_OF_SCOPE" system_prompt || contains "OUT_OF_SCOPE" user_prompt
      then ret Declined_before_model
      else
        query_code <- call (Ev_generate system_prompt user_prompt)
                           (llm_generate w system_prompt user_prompt) ;;
        after_model w query_code
  end.

Definition process_query (w : world) (user_question : string) : M response :=
  if any_in prohibited_words (lower user_question) then ret Refused_question
  else
    let question_lower := lower user_question in
    if wants_join question_lower then
      let pipeline := join_pipeline question_lower in
      joined <- call (Ev_aggregate "orders" pipeline) (store_aggregate w "orders" pipeline) ;;
      match joined with
      | inr docs => ret (Formatted (documents docs))
      | inl _ => ask_model w user_question
      end
    else ask_model w user_question.

End Agent.

(* ================================================================== *)
(** * The vocabulary of the statements *)
(* ================================================================== *)

Module Props.
Import Text Py Generator Agent.

(** ** About the generator *)

(** The collection that [generate_query] works on *)
Definition resolved (md : metadata) (question : string) : option string :=
  hd_error (a_collections (analyze_question md question)).

(** The year [Y] as a half-open range of dates *)
Definition year_range (Y : Z) : value :=
  VDict [("$gte", VDatetime Y 1 1); ("$lt", VDatetime (Y + 1) 1 1)].

(** The same range once the encoder has run *)
Definition year_range_text (Y : Z) : string :=
  bq "{`$gte`: {`$date`: `" ++ of_Z Y ++ bq "-01-01T00:00:00Z`}, `$lt`: {`$date`: `"
  ++ of_Z (Y + 1) ++ bq "-01-01T00:00:00Z`}}".

(** The match stage at the head of the compiled pipeline *)
Definition compiled_match (md : metadata) (question : string) : option dict :=
  match generate_pipeline md question with
  | Some (VDict [("$match", VDict m)] :: _, _) => Some m
  | _ => None
  end.

(** [y] is a year of four digits that begins with 20 and occurs in the
    question. *)
Definition occurs_year (y question : string) : Prop :=
  year_at y = Some y /\ contains y question = true.

(** The name of a stage: the key of its only entry *)
Definition stage_name (stage : value) : option string :=
  match stage with
  | VDict [(name, _)] => Some name
  | _ => None
  end.

Definition sort_newest_first (md : metadata) (collection : string) : value :=
  match _find_date_fields md collection with
  | date_field :: _ => VDict [("$sort", VDict [(date_field, VInt (-1))])]
  | [] => VDict [("$sort", VDict [("_id", VInt (-1))])]
  end.

Definition limit_10 : value := VDict [("$limit", VInt 10)].

(** A pipeline is a match stage or nothing. *)
Definition match_prefix (prefix : list value) : Prop :=
  prefix = [] \/ exists m, prefix = [VDict [("$match", VDict m)]].

(** The question matches none of the words of the intent ladder. *)
Definition no_known_vocabulary (question_lower : string) : Prop :=
  any_in ["least"; "worst"; "lowest"; "bottom"; "most"; "best"; "highest"; "top";
          "total sales"; "total revenue"; "sales total"; "total"; "sum"; "sales";
          "revenue"; "count"; "how many"; "number of"; "average"; "avg"; "mean";
          "show"; "list"; "display"; "get"; "max"; "maximum"; "min"; "minimum"]
         question_lower = false.

(** ** About the dispatcher *)




Definition rejected : M value :=
  (error_descriptor "Data modification queries are not allowed", []).

(** A native identifier occurs somewhere in the value. *)
Fixpoint has_object_id (v : value) : bool :=
  match v with
  | VObjectId _ => true
  | VList l => existsb has_object_id l
  | VDict d => existsb (fun '(_, x) => has_object_id x) d
  | _ => false
  end.

(** ** About the recovery parser *)

(** The order of the decoding attempts as the specification words it:
    the span as it is, then the span with its keys quoted, then the
    literal evaluator, then the default, each stage after the one
    before it has raised. *)
Definition decode_as_specified (w : world) (default : value) (query_str : string)
  : Json.result value * list attempt :=
  match Json.loads (recursion_limit w) query_str with
  | Json.Ok v => (Json.Ok v, [Loads_original query_str])
  | Json.Raise _ =>
      let clean_query_str := quote_keys query_str in
      match Json.loads (recursion_limit w) clean_query_str with
      | Json.Ok v => (Json.Ok v, [Loads_original query_str; Loads_clean clean_query_str])
      | Json.Raise _ =>
          match literal_eval w query_str with
          | Some v =>
              (Json.Ok v, [Loads_original query_str; Loads_clean clean_query_str;
                           Literal_eval query_str])
          | None =>
              (Json.Ok default,
               [Loads_original query_str; Loads_clean clean_query_str;
                Literal_eval query_str; Default_value])
          end
      end
  end.

(** Brackets opened and closed in a text *)
Fixpoint occurrences (c : ascii) (s : string) : nat :=
  match s with
  | EmptyString => 0
  | String d r => (if Ascii.eqb c d then 1 else 0) + occurrences c r
  end.

(** C5 as it is stated, for a year [y] of the question *)
Definition year_claim (md : metadata) (question y : string) : Prop :=
  occurs_year y question ->
  forall collection date_field others Y,
    resolved md question = Some collection ->
    _find_date_fields md collection = date_field :: others ->
    int_of y = Some Y ->
    exists m, compiled_match md question = Some m
              /\ dict_get date_field m = Some (year_range Y).

(** C6 as it is stated: the attempts are made in the specified order. *)
Definition decoding_order_claim (w : world) (default : value) (span : string) : Prop :=
  decode_closed w default span = decode_as_specified w default span.

(** ** About the substitution and the decoder *)

(** Two texts that are the same up to a lead character, after which one
    goes on with [X] and the other with [X']; or that are [X] and [X']
    themselves. *)
Definition edited (lead : ascii) (X X' s s' : string) : Prop :=
  exists u, s = u ++ String lead X /\ s' = u ++ String lead X'.

Definition aligned (lead : ascii) (X X' s s' : string) : Prop :=
  edited lead X X' s s' \/ (s = X /\ s' = X').

(** No value can be followed by the text [r]. *)
Definition stuck (r : string) : bool :=
  match Json.skip_ws r with
  | String c _ => negb (Ascii.eqb c "," || Ascii.eqb c "}" || Ascii.eqb c "]")
  | EmptyString => false
  end.

(** The reading of the rewritten text, when the original gave [v] and
    left [r]: it fails, or it gives the same value and leaves an aligned
    text, or it stops in front of the identifier. *)
Definition outcome (c0 lead : ascii) (X X' : string) (v : value) (r : string)
           (res' : Json.result (value * string)) : Prop :=
  (exists e, res' = Json.Raise e)
  \/ (exists r', res' = Json.Ok (v, r') /\ aligned lead X X' r r')
  \/ (exists v' t, res' = Json.Ok (v', String c0 t)).

(** The two readings fail together or give the same result and leave
    edited texts. *)
Definition in_step (lead : ascii) (X X' : string) {A : Type}
           (res res' : option (A * string)) : Prop :=
  (res = None /\ res' = None)
  \/ (exists a r r', res = Some (a, r) /\ res' = Some (a, r')
                     /\ edited lead X X' r r').

(** ** About bare keys *)

(** An argument as the shell writes it: the keys of its objects bare,
    its strings between double quotes, its items separated as
    [json.dumps] separates them. *)
Fixpoint shell_text (v : value) : string :=
  match v with
  | VNone => "null"
  | VBool true => "true"
  | VBool false => "false"
  | VInt z => of_Z z
  | VFloat n => n
  | VStr s => DQ ++ s ++ DQ
  | VList l => "[" ++ join ", " (map shell_text l) ++ "]"
  | VDict d => "{" ++ join ", " (map (fun '(k, x) => k ++ ": " ++ shell_text x) d) ++ "}"
  | _ => EmptyString
  end.


(** ** About the limits of the interpreter *)

Fixpoint copies (n : nat) (c : ascii) : string :=
  match n with
  | O => EmptyString
  | S m => String c (copies m c)
  end.

(** [n] arrays in one another: [n] opening brackets, then [n] closing
    brackets *)
Definition nested (n : nat) : string := copies n "[" ++ copies n "]".

(** The object [{"n": 11...1}], the numeral having [n] digits *)
Definition long_integer (n : nat) : string :=
  bq "{`n`: " ++ copies n "1" ++ "}".

(** ** Worlds and inputs of the examples *)

Definition orders_metadata : metadata :=
  [("orders", [("_id", "ObjectId"); ("status", "str"); ("amount", "float");
               ("order_date", "datetime"); ("customerId", "ObjectId")]);
   ("customers", [("_id", "ObjectId"); ("name", "str"); ("email", "str")])].

Definition users_metadata : metadata := [("users", [("name", "str")])].

Definition an_id : string := "64b7f0c2a1d3e4f5a6b7c8d9".

Definition an_order : dict :=
  [("_id", VObjectId an_id); ("customerId", VObjectId an_id); ("status", VStr "pending")].

(** A store that holds one order, a model that answers [answer], a
    ranker that gives every collection the score [score], an
    interpreter that lets [json.loads] nest 1000 containers. *)
Definition a_world (answer : string) (score : Q) : world :=
  {| store_find := fun _ _ => inr [an_order];
     store_count_documents := fun _ _ => inr 1%Z;
     store_aggregate := fun _ _ => inr [an_order];
     store_find_one := fun _ => inr (Some an_order);
     llm_generate := fun _ _ => answer;
     similarity := fun _ _ => score;
     literal_eval := fun _ => None;
     spare_depth := 900;
     recursion_error_text := fun _ => "maximum recursion depth exceeded";
     embeddings_db :=
       [("orders", {| doc_count := 1; static_fields := [("status", "str")] |})] |}.

End Props.

(* ================================================================== *)
(** * Schema: [extract_schema] and [search_fields] *)
(* ================================================================== *)

Module Schema.
Import Text Py Agent.

(** The two calls of the store that only [extract_schema] makes:
    [db.list_collection_names()], which is taken to answer, and, for a
    collection, the names of [collection.list_indexes()] (an [inl] is
    the exception raised). *)
Record catalogue : Type :=
  { list_collection_names : list string;
    list_indexes : string -> string + list string }.

(** One value of the schema dict *)
Record entry : Type :=
  { description : string;
    fields : list (string * string);
    entry_doc_count : Z;
    indexed_fields : list string }.

Definition schema : Type := list (string * entry).

(** [schema[collection_name] = e] *)
Fixpoint schema_set (c : string) (e : entry) (s : schema) : schema :=
  match s with
  | [] => [(c, e)]
  | (c', e') :: r =>
      if String.eqb c c' then (c', e) :: r else (c', e') :: schema_set c e r
  end.

Fixpoint schema_get (c : string) (s : schema) : option entry :=
  match s with
  | [] => None
  | (c', e) :: r => if String.eqb c c' then Some e else schema_get c r
  end.

(** The body of the [try] for one collection; [None] when
    [count_documents] or [find_one] raises. *)
Definition describe (w : world) (cat : catalogue) (collection_name : string)
  : option entry :=
  match store_count_documents w collection_name (VDict []) with
  | inl _ => None
  | inr count =>
      match store_find_one w collection_name with
      | inl _ => None
      | inr sample_doc =>
          let fields_desc :=
            match sample_doc with
            | Some doc => map (fun '(key, v) => (key, type_name v)) doc
            | None => []
            end in
          let indexes :=
            match list_indexes cat collection_name with
            | inr names => names
            | inl _ => []
            end in
          Some {| description :=
                    "Collection with " ++ of_nat (List.length fields_desc)
                    ++ " fields and " ++ of_Z count ++ " documents";
                  fields := fields_desc;
                  entry_doc_count := count;
                  indexed_fields := indexes |}
      end
  end.

Fixpoint extract_from (w : world) (cat : catalogue) (names : list string)
         (acc : schema) : schema :=
  match names with
  | [] => acc
  | collection_name :: r =>
      if starts_with "system." collection_name then extract_from w cat r acc
      else
        match describe w cat collection_name with
        | Some e => extract_from w cat r (schema_set collection_name e acc)
        | None => extract_from w cat r acc
        end
  end.

Definition extract_schema (w : world) (cat : catalogue) : schema :=
  extract_from w cat (list_collection_names cat) [].

(** [search_fields]; [field_similarity q c f] is the cosine similarity of
    the embeddings of the question [q] and of the field [f] of the
    collection [c].  The keys of [field_embeddings] are those of
    [fields], in the same order: [generate_embeddings] builds one from
    the other. *)
Definition search_fields (w : world) (field_similarity : string -> string -> string -> Q)
           (user_question collection_name : string) (top_k : nat)
  : list (string * Q) :=
  match lookup_data collection_name (embeddings_db w) with
  | None => []
  | Some collection_data =>
      let field_similarities :=
        map (fun '(field_name, _) =>
               (field_name, field_similarity user_question collection_name field_name))
            (static_fields collection_data) in
      firstn top_k (sorted_desc field_similarities)
  end.

End Schema.

(* ================================================================== *)
(** * More vocabulary *)
(* ================================================================== *)

Module More.
Import Text Py Generator Agent Props.

(** The operation as the command pattern spells it *)
Definition operation_name (op : operation) : string :=
  match op with
  | Op_find => "find"
  | Op_aggregate => "aggregate"
  | Op_countDocuments => "countDocuments"
  | Op_count => "count"
  end.

(** The argument has the kind that the operation takes: a list of
    stages for [aggregate], a dict for the others. *)
Definition fits (op : operation) (argument : value) : bool :=
  match op, argument with
  | Op_aggregate, VList _ => true
  | Op_aggregate, _ => false
  | _, VDict _ => true
  | _, _ => false
  end.

(** The text without its double quotes and its white space *)
Fixpoint erase (s : string) : string :=
  match s with
  | EmptyString => EmptyString
  | String c r =>
      if Ascii.eqb c dquote || is_space c then erase r else String c (erase r)
  end.

(** The stages that [generate_query] can emit: all of them read. *)
Definition read_only_stages : list string :=
  ["$match"; "$count"; "$group"; "$lookup"; "$unwind"; "$project"; "$sort"; "$limit"].

Definition statuses : list string := ["completed"; "pending"; "cancelled"].

Definition amount_candidates : list string :=
  ["amount"; "total"; "price"; "cost"; "value"; "revenue"; "sales"].

(** What [json.loads] reads back from the text of a value: a datetime
    comes back as the dict that the encoder wrote for it. *)
Fixpoint decoded (v : value) : value :=
  match v with
  | VList l => VList (map decoded l)
  | VDict d => VDict (map (fun '(k, x) => (k, decoded x)) d)
  | VDatetime y m d => VDict [("$date", VStr (isoformat y m d ++ "Z"))]
  | _ => v
  end.

Definition ascii_text (s : string) : bool := all_chars (fun c => (code c <? 128)%nat) s.

(** Every field name of the metadata is ASCII. *)
Definition ascii_metadata (md : metadata) : bool :=
  forallb (fun '(_, fs) => forallb (fun '(f, _) => ascii_text f) fs) md.

Fixpoint distinct (l : list string) : bool :=
  match l with
  | [] => true
  | x :: r => negb (mem x r) && distinct r
  end.

(** The values that the decoder reads back as they are: ASCII strings,
    integers of at most 4300 digits, dicts without a repeated key *)
Fixpoint plain (v : value) : bool :=
  match v with
  | VNone | VBool _ => true
  | VInt z => (Json.digits (of_Z z) <=? Json.max_str_digits)%nat
  | VStr s => ascii_text s
  | VList l => forallb plain l
  | VDict d =>
      distinct (map fst d) && forallb (fun '(k, x) => ascii_text k && plain x) d
  | _ => false
  end.

Import Json.

(** The first character of the text of a value is no white space and
    no closing bracket. *)
Definition head_ok (text : string) : Prop :=
  exists c t, text = String c t /\ is_ws c = false
              /\ Ascii.eqb "]" c = false /\ Ascii.eqb "}" c = false.

Definition delimited (rest : string) : Prop :=
  exists c r, rest = String c r /\ (c = "," \/ c = "}" \/ c = "]")%char.

Definition follows (v : value) (rest : string) : Prop :=
  match v with
  | VInt _ => delimited rest
  | _ => True
  end.

(** The containers nested in a value *)
Fixpoint height (v : value) : nat :=
  match v with
  | VList l => S (list_max (map height l))
  | VDict d => S (list_max (map (fun kv => height (snd kv)) d))
  | _ => 0
  end.





(** The decoder reads back the text of [x], with fuel for twice its
    length and room for its containers. *)
Definition reads_back (x : value) : Prop :=
  plain x = true ->
  exists text,
    dumps x = Some text /\ head_ok text
    /\ forall rest m depth,
         follows x rest -> (2 * String.length text + 1 <= m)%nat ->
         (height x <= depth)%nat ->
         scan_once m depth (text ++ rest) = Ok (x, rest).



(** The scores of all the collections, before they are sorted *)
Definition similarities (w : world) (user_question : string) : list (string * Q) :=
  map (fun '(collection_name, _) =>
         (collection_name, similarity w user_question collection_name))
      (embeddings_db w).

(** Not ranked before: [b]'s score is at most [a]'s. *)
Definition not_above (a b : string * Q) : Prop := (snd b <= snd a)%Q.

Definition same_score (s : Q) (x : string * Q) : bool := Qeq_bool (snd x) s.

Definition model_calls (trace : list event) : list event := filter is_model_call trace.
Definition store_calls (trace : list event) : list event := filter is_store_call trace.

(** A store with three collections, one of them a system collection and
    one whose count raises *)
Definition a_catalogue : Schema.catalogue :=
  {| Schema.list_collection_names := ["orders"; "system.views"; "broken"];
     Schema.list_indexes := fun c => if String.eqb c "orders" then inr ["_id_"] else inl "no" |}.

Definition a_failing_world : world :=
  {| store_find := fun _ _ => inl "down";
     store_count_documents := fun c _ => if String.eqb c "broken" then inl "timeout" else inr 2%Z;
     store_aggregate := fun _ _ => inl "down";
     store_find_one := fun _ => inr (Some an_order);
     llm_generate := fun _ _ => "";
     similarity := fun _ c => if String.eqb c "orders" then 1 # 2 else 1 # 4;
     literal_eval := fun _ => None;
     spare_depth := 900;
     recursion_error_text := fun _ => "maximum recursion depth exceeded";
     embeddings_db :=
       [("customers", {| doc_count := 3; static_fields := [("name", "str"); ("email", "str")] |});
        ("orders", {| doc_count := 1; static_fields := [("status", "str")] |})] |}.

Definition shop_metadata : metadata :=
  [("products", [("name", "str"); ("price", "float")]);
   ("orders", [("status", "str"); ("amount", "float")])].

End More.

(* ================================================================== *)
(** * Facts about text *)
(* ================================================================== *)

Section TextFacts.
Import Text.






Lemma lower_char_not_upper (d : ascii) : is_upper (lower_char d) = false.
Proof. destruct d as [[] [] [] [] [] [] [] []]; vm_compute; reflexivity. Qed.

(** A text with a capital letter does not occur in a lowered text. *)
Lemma starts_with_lower_no_upper (t s : string) :
  starts_with t (lower s) = true -> all_chars (fun c => negb (is_upper c)) t = true.
Proof.
  revert s. induction t as [|c t IH]; intros s H; [reflexivity|].
  destruct s as [|d s]; [discriminate|].
  cbn [lower map_chars starts_with] in H. apply andb_true_iff in H.
  destruct H as [->%Ascii.eqb_eq H].
  cbn [all_chars]. rewrite lower_char_not_upper. simpl. exact (IH s H).
Qed.

Lemma capital_never_in_lowered (t s : string) :
  all_chars (fun c => negb (is_upper c)) t = false ->
  contains t (lower s) = false.
Proof.
  intros Ht. induction s as [|d s IH].
  - cbn. destruct t; [discriminate Ht|reflexivity].
  - change (lower (String d s)) with (String (lower_char d) (lower s)).
    cbn [contains]. rewrite IH, orb_false_r.
    destruct (starts_with t (String (lower_char d) (lower s))) eqn:E; [|reflexivity].
    apply (starts_with_lower_no_upper t (String d s)) in E. congruence.
Qed.

Lemma append_empty (s : string) : s ++ "" = s.
Proof. induction s; cbn; congruence. Qed.

Lemma append_assoc (a b c : string) : (a ++ b) ++ c = a ++ b ++ c.
Proof. induction a; cbn; congruence. Qed.

Lemma starts_with_split (w s : string) :
  starts_with w s = true -> exists rest, s = w ++ rest.
Proof.
  revert s. induction w as [|a w IH]; intros s H; [now exists s|].
  destruct s as [|b s]; [discriminate|]. cbn [starts_with] in H.
  apply andb_true_iff in H. destruct H as [->%Ascii.eqb_eq H].
  destruct (IH s H) as (rest & ->). now exists rest.
Qed.

Lemma span_split (p : ascii -> bool) (s : string) :
  s = fst (span p s) ++ snd (span p s) /\ all_chars p (fst (span p s)) = true.
Proof.
  induction s as [|c s (IH1 & IH2)]; [split; reflexivity|].
  cbn [span]. destruct (p c) eqn:E; [|split; reflexivity].
  destruct (span p s) as [run rest]. cbn [fst snd] in *.
  split; [cbn; congruence|]. cbn [all_chars]. now rewrite E, IH2.
Qed.

Lemma In_firstn {A : Type} (x : A) (n : nat) (l : list A) :
  In x (firstn n l) -> In x l.
Proof.
  revert l. induction n as [|n IH]; intros [|y l] H; try contradiction.
  destruct H as [H|H]; [now left|right; auto].
Qed.

End TextFacts.

(* ================================================================== *)
(** * The generator *)
(* ================================================================== *)

Section GeneratorFacts.
Import Text Py Generator Props.

Variable md : metadata.

Lemma analyze_question_resolves (question : string) :
  exists collection rest,
    a_collections (analyze_question md question) = collection :: rest.
Proof.
  unfold analyze_question. cbv zeta. cbn [a_collections].
  match goal with
  | |- exists c r, match ?by_field with [] => ?dflt | _ :: _ => _ end = _ =>
      destruct by_field as [|c r] eqn:E
  end.
  - match goal with
    | |- exists _ _, (if ?b then _ else _) = _ => destruct b; [eauto|]
    end.
    destruct (collections md); eauto.
  - eauto.
Qed.

Lemma digit_val_range (c : ascii) :
  is_digit c = true -> (0 <= digit_val c <= 9)%Z.
Proof.
  unfold is_digit, in_range, digit_val. intros H.
  apply andb_true_iff in H. destruct H as [H1 H2].
  apply Nat.leb_le in H1, H2. lia.
Qed.

Lemma year_at_form (s y : string) :
  year_at s = Some y ->
  exists a b, y = String "2" (String "0" (String a (String b EmptyString)))
              /\ is_digit a = true /\ is_digit b = true
              /\ starts_with y s = true.
Proof.
  unfold year_at. intros H.
  destruct s as [|c0 [|c1 [|a [|b r]]]]; try discriminate;
    try (destruct c0 as [[] [] [] [] [] [] [] []]; discriminate);
    try (destruct c0 as [[] [] [] [] [] [] [] []]; try discriminate;
         destruct c1 as [[] [] [] [] [] [] [] []]; discriminate).
  destruct c0 as [[] [] [] [] [] [] [] []]; try discriminate.
  destruct c1 as [[] [] [] [] [] [] [] []]; try discriminate.
  destruct (is_digit a) eqn:Ha; [|discriminate].
  destruct (is_digit b) eqn:Hb; [|discriminate].
  injection H as <-. exists a, b. repeat split; auto.
  simpl. rewrite !Ascii.eqb_refl. reflexivity.
Qed.

Lemma search_year_form (question y : string) :
  search_year question = Some y ->
  exists a b, y = String "2" (String "0" (String a (String b EmptyString)))
              /\ is_digit a = true /\ is_digit b = true.
Proof.
  induction question as [|c r IH]; [discriminate|].
  cbn [search_year]. destruct (year_at (String c r)) eqn:E.
  - intros H. injection H as <-. apply year_at_form in E.
    destruct E as (a & b & ? & ? & ? & _). eauto.
  - exact IH.
Qed.

Lemma year_int (a b : ascii) :
  is_digit a = true -> is_digit b = true ->
  exists Y, int_of (String "2" (String "0" (String a (String b EmptyString)))) = Some Y
            /\ (2000 <= Y <= 2099)%Z.
Proof.
  intros Ha Hb. unfold int_of. cbn [int_acc]. rewrite Ha, Hb.
  change (is_digit "2") with true. change (is_digit "0") with true. cbv iota.
  eexists. split; [reflexivity|].
  apply digit_val_range in Ha, Hb.
  change (digit_val "2") with 2%Z. change (digit_val "0") with 0%Z. lia.
Qed.

Lemma search_year_int (question y : string) :
  search_year question = Some y ->
  exists Y, int_of y = Some Y /\ (2000 <= Y <= 2099)%Z.
Proof.
  intros H. apply search_year_form in H. destruct H as (a & b & -> & Ha & Hb).
  now apply year_int.
Qed.

(** [build_match_stage] never raises on the filters of a question. *)
Lemma build_match_stage_total (collection question : string) (i : intent) :
  exists m, build_match_stage md collection i (_extract_filters question) = Some m.
Proof.
  unfold build_match_stage, _extract_filters. cbn [year status].
  destruct (search_year question) as [y|] eqn:E.
  - destruct (search_year_int _ _ E) as (Y & -> & _).
    destruct (_find_date_fields md collection);
      destruct (if contains "completed" _ then _ else _);
      destruct (_has_field md collection "status"); try rewrite andb_false_r;
      try rewrite andb_true_r; try destruct (intent_eqb i I_aggregate_sum); eauto.
  - destruct (if contains "completed" _ then _ else _);
      destruct (_has_field md collection "status"); try rewrite andb_false_r;
      try rewrite andb_true_r; try destruct (intent_eqb i I_aggregate_sum); eauto.
Qed.

(** The shape of every compiled pipeline: the match stage, if any,
    then the stages of the intent. *)
Lemma generate_pipeline_shape (question : string) :
  exists collection m,
    resolved md question = Some collection
    /\ build_match_stage md collection (_determine_intent (lower question))
                         (_extract_filters question) = Some m
    /\ generate_pipeline md question =
         Some ((match m with
                | [] => []
                | _ => [VDict [("$match", VDict m)]]
                end
                ++ intent_stages md question collection
                     (_determine_intent (lower question)))%list,
               collection).
Proof.
  destruct (analyze_question_resolves question) as (collection & rest & Hc).
  destruct (build_match_stage_total collection question
              (_determine_intent (lower question))) as (m & Hm).
  exists collection, m. unfold resolved, generate_pipeline.
  rewrite Hc. cbn [hd_error].
  change (a_intent (analyze_question md question))
    with (_determine_intent (lower question)).
  change (a_filters (analyze_question md question))
    with (_extract_filters question).
  rewrite Hm. auto.
Qed.

Lemma match_stages_prefix (m : dict) :
  match_prefix (match m with
                | [] => []
                | _ => [VDict [("$match", VDict m)]]
                end).
Proof. destruct m; [left|right; eexists]; reflexivity. Qed.

Lemma any_in_subset (small big : list string) (text : string) :
  incl small big -> any_in big text = false -> any_in small text = false.
Proof.
  unfold any_in. intros Hincl Hbig.
  destruct (existsb _ small) eqn:E; [|reflexivity].
  apply existsb_exists in E. destruct E as (x & Hin & Hx).
  rewrite <- Hbig. symmetry. apply existsb_exists. exists x. auto.
Qed.

Lemma unknown_vocabulary_is_list (question_lower : string) :
  no_known_vocabulary question_lower ->
  _determine_intent question_lower = I_list.
Proof.
  unfold no_known_vocabulary, _determine_intent. intros H.
  assert (E : forall l, incl l
      ["least"; "worst"; "lowest"; "bottom"; "most"; "best"; "highest"; "top";
       "total sales"; "total revenue"; "sales total"; "total"; "sum"; "sales";
       "revenue"; "count"; "how many"; "number of"; "average"; "avg"; "mean";
       "show"; "list"; "display"; "get"; "max"; "maximum"; "min"; "minimum"] ->
      any_in l question_lower = false)
    by (intros l Hl; exact (any_in_subset l _ _ Hl H)).
  rewrite !E; [reflexivity | ..]; intros x Hx; simpl in Hx |- *; tauto.
Qed.

Lemma year_numeral_length (Y : Z) :
  (2000 <= Y <= 2100)%Z -> String.length (of_Z Y) = 4%nat.
Proof.
  intros HY.
  assert (All : forallb (fun n => (String.length (of_Z (2000 + Z.of_nat n)) =? 4)%nat)
                        (seq 0 101) = true) by (vm_compute; reflexivity).
  rewrite forallb_forall in All.
  specialize (All (Z.to_nat (Y - 2000))).
  replace (2000 + Z.of_nat (Z.to_nat (Y - 2000)))%Z with Y in All by lia.
  apply Nat.eqb_eq, All, in_seq. lia.
Qed.

Lemma isoformat_new_year (Y : Z) :
  (2000 <= Y <= 2100)%Z -> isoformat Y 1 1 = of_Z Y ++ "-01-01T00:00:00".
Proof.
  intros HY. unfold isoformat, pad. rewrite (year_numeral_length Y HY).
  reflexivity.
Qed.

(** The range of a year of this century, after [json.dumps] with the
    encoder of the generator *)
Lemma dumps_year_range (Y : Z) :
  (2000 <= Y <= 2099)%Z -> dumps (year_range Y) = Some (year_range_text Y).
Proof.
  intros HY.
  assert (All : forallb (fun n =>
                  match dumps (year_range (2000 + Z.of_nat n)) with
                  | Some t => String.eqb t (year_range_text (2000 + Z.of_nat n))
                  | None => false
                  end) (seq 0 100) = true) by (vm_compute; reflexivity).
  rewrite forallb_forall in All.
  specialize (All (Z.to_nat (Y - 2000))).
  replace (2000 + Z.of_nat (Z.to_nat (Y - 2000)))%Z with Y in All by lia.
  destruct (dumps (year_range Y)) as [t|].
  - f_equal. apply String.eqb_eq, All, in_seq. lia.
  - discriminate All. apply in_seq. lia.
Qed.

(** X28. The year that the filter extraction finds is the leftmost text
    of the question made of 20 and two digits: no such text begins
    before it. *)
Lemma search_year_leftmost (question y : string) :
  search_year question = Some y ->
  exists before after,
    question = before ++ y ++ after
    /\ forall k, (k < String.length before)%nat -> year_at (drop k question) = None.
Proof.
  induction question as [|c r IH]; [discriminate|].
  cbn [search_year]. destruct (year_at (String c r)) as [y'|] eqn:E.
  - intros H. injection H as ->. exists EmptyString.
    destruct (year_at_form _ _ E) as (a & b & -> & _ & _ & Hs).
    destruct (starts_with_split _ _ Hs) as (after & ->).
    exists after. split; [reflexivity|]. simpl. intros k Hk. lia.
  - intros H. destruct (IH H) as (before & after & -> & Hk).
    exists (String c before), after. split; [reflexivity|].
    intros [|k] Hlt; [exact E|]. apply Hk. simpl in Hlt. lia.
Qed.

Lemma contains_year_found (y question : string) :
  occurs_year y question -> exists y', search_year question = Some y'.
Proof.
  intros [Hy Hc]. destruct (year_at_form _ _ Hy) as (a & b & -> & Ha & Hb & _).
  induction question as [|c r IH]; [discriminate|].
  cbn [search_year]. destruct (year_at (String c r)) eqn:E; [eauto|].
  cbn [contains] in Hc. apply orb_true_iff in Hc. destruct Hc as [Hc|Hc]; [|auto].
  exfalso. destruct (starts_with_split _ _ Hc) as (after & Heq).
  rewrite Heq in E. cbn in E. rewrite Ha, Hb in E. discriminate.
Qed.

End GeneratorFacts.

Section GeneratorClaims.
Import Text Py Generator Props.

(** C9.  When the intent ladder answers plain [max] or [min], the
    assembler has no branch of its own for it: the compiled pipeline is
    the list pipeline, that is an optional match stage, then a sort on
    the first date-like field (on [_id] when there is none), newest
    first, then a limit of 10.  No stage is a group stage, so no [$min]
    or [$max] accumulator is produced. *)
Theorem plain_min_max_compile_to_list_pipeline (md : metadata) (question : string) :
  _determine_intent (lower question) = I_max
  \/ _determine_intent (lower question) = I_min ->
  exists collection prefix,
    generate_pipeline md question =
      Some ((prefix ++ [sort_newest_first md collection; limit_10])%list, collection)
    /\ match_prefix prefix
    /\ intent_stages md question collection I_list =
         [sort_newest_first md collection; limit_10]
    /\ forall stage,
         In stage (prefix ++ [sort_newest_first md collection; limit_10])%list ->
         stage_name stage = Some "$match" \/ stage_name stage = Some "$sort"
         \/ stage_name stage = Some "$limit".
Proof.
  intros Hi.
  destruct (generate_pipeline_shape md question) as (collection & m & _ & _ & Hp).
  exists collection. eexists. split; [|split; [apply (match_stages_prefix m)|split]].
  - rewrite Hp. destruct Hi as [-> | ->]; unfold intent_stages, sort_newest_first;
      destruct (_find_date_fields md collection); reflexivity.
  - unfold intent_stages, sort_newest_first.
    destruct (_find_date_fields md collection); reflexivity.
  - intros stage Hin. apply in_app_or in Hin. destruct Hin as [Hin|Hin].
    + destruct m; [contradiction|]. destruct Hin as [<-|[]]. left. reflexivity.
    + destruct Hin as [<-|[<-|[]]].
      * right. left. unfold sort_newest_first.
        destruct (_find_date_fields md collection); reflexivity.
      * right. right. reflexivity.
Qed.

Lemma plain_min_max_compile_to_list_pipeline_witness :
  exists collection prefix,
    generate_pipeline orders_metadata "max price" =
      Some ((prefix ++ [sort_newest_first orders_metadata collection; limit_10])%list,
            collection)
    /\ match_prefix prefix
    /\ intent_stages orders_metadata "max price" collection I_list =
         [sort_newest_first orders_metadata collection; limit_10]
    /\ forall stage,
         In stage (prefix ++ [sort_newest_first orders_metadata collection; limit_10])%list ->
         stage_name stage = Some "$match" \/ stage_name stage = Some "$sort"
         \/ stage_name stage = Some "$limit".
Proof.
  apply (plain_min_max_compile_to_list_pipeline orders_metadata "max price").
  left. vm_compute. reflexivity.
Defined.

(** C5, as amended.  When the leftmost year of four digits beginning
    with 20 in the question is [Y], the resolved collection has a
    date-like field and the first such field is not named [status], the
    compiled pipeline begins with a match stage that constrains that
    field to exactly the half-open range from 1 January [Y], included,
    to 1 January [Y + 1], excluded. *)
Theorem leftmost_year_sets_range (md : metadata)
        (question y collection date_field : string) (others : list string) :
  search_year question = Some y ->
  resolved md question = Some collection ->
  _find_date_fields md collection = date_field :: others ->
  date_field <> "status" ->
  exists Y m,
    int_of y = Some Y /\ (2000 <= Y <= 2099)%Z
    /\ compiled_match md question = Some m
    /\ dict_get date_field m = Some (year_range Y)
    /\ dumps (year_range Y) = Some (year_range_text Y).
Proof.
  intros Hy Hres Hdate Hname.
  destruct (search_year_int _ _ Hy) as (Y & HY & Hrange).
  destruct (generate_pipeline_shape md question) as (c & m & Hc & Hm & Hp).
  rewrite Hres in Hc. injection Hc as <-.
  exists Y, m. split; [exact HY|]. split; [exact Hrange|].
  assert (Hneq : String.eqb "status" date_field = false)
    by (apply String.eqb_neq; congruence).
  assert (Shape : m = [(date_field, year_range Y)]
                  \/ exists s, m = [(date_field, year_range Y); ("status", VStr s)]).
  { unfold build_match_stage, _extract_filters in Hm. cbn [year status] in Hm.
    rewrite Hy, HY, Hdate in Hm. cbn [dict_set] in Hm.
    destruct (if contains "completed" _ then _ else _) as [s|];
      destruct (_has_field md collection "status");
      rewrite ?andb_true_r, ?andb_false_r in Hm;
      try destruct (intent_eqb _ I_aggregate_sum);
      try rewrite Hneq in Hm; injection Hm as <-; eauto. }
  unfold compiled_match. rewrite Hp.
  destruct Shape as [-> | [s ->]]; cbn [app dict_get]; rewrite String.eqb_refl;
    (split; [reflexivity|split; [reflexivity|now apply dumps_year_range]]).
Qed.

Lemma leftmost_year_sets_range_witness :
  exists Y m,
    int_of "2021" = Some Y /\ (2000 <= Y <= 2099)%Z
    /\ compiled_match orders_metadata "list orders 2021 and 2022" = Some m
    /\ dict_get "order_date" m = Some (year_range Y)
    /\ dumps (year_range Y) = Some (year_range_text Y).
Proof.
  apply (leftmost_year_sets_range orders_metadata "list orders 2021 and 2022"
           "2021" "orders" "order_date" []).
  - vm_compute. reflexivity.
  - vm_compute. reflexivity.
  - vm_compute. reflexivity.
  - discriminate.
Defined.

(** C5 as it is stated fails for a year that is not the leftmost one:
    the question mentions 2021 and then 2022, and the range that is
    compiled is that of 2021. *)
Lemma later_year_is_ignored :
  ~ year_claim orders_metadata "list orders 2021 and 2022" "2022".
Proof.
  intros Claim.
  destruct (Claim (conj eq_refl eq_refl) "orders" "order_date" [] 2022%Z
                  eq_refl eq_refl eq_refl) as (m & Hm & Hget).
  vm_compute in Hm. injection Hm as <-. vm_compute in Hget. discriminate Hget.
Qed.

(** A date field that is itself named [status] loses its range to the
    status filter. *)
Lemma status_filter_overwrites_range :
  compiled_match [("orders", [("status", "date")])] "sales 2023"
  = Some [("status", VStr "completed")].
Proof. vm_compute. reflexivity. Qed.

(** C4, at the failing input.  For the question [average] on a
    collection without an amount field no stage applies, and the compiled
    pipeline is empty: the text that is returned is the empty array, not
    the single limit stage. *)
Theorem average_without_amount_compiles_empty :
  _determine_intent (lower "average") = I_average
  /\ generate_pipeline users_metadata "average" = Some ([], "users")
  /\ generate_mongo_query users_metadata "average" = "[]"
  /\ generate_mongo_query users_metadata "average" <> fallback_query.
Proof. vm_compute. repeat split. discriminate. Qed.

(** The sum intent does substitute a count stage when there is no amount
    field. *)
Lemma sum_without_amount_counts (md : metadata) (question collection : string) :
  _find_amount_field md collection = None ->
  intent_stages md question collection I_aggregate_sum
  = [VDict [("$count", VStr "total")]].
Proof. intros H. unfold intent_stages. rewrite H. reflexivity. Qed.

(** X29. A question that matches no word of the ladder is a list
    question, and its pipeline ends with the sort and the limit. *)
Lemma unknown_vocabulary_lists (md : metadata) (question : string) :
  no_known_vocabulary (lower question) ->
  _determine_intent (lower question) = I_list
  /\ exists collection prefix,
       generate_pipeline md question =
         Some ((prefix ++ [sort_newest_first md collection; limit_10])%list, collection)
       /\ match_prefix prefix.
Proof.
  intros H. apply unknown_vocabulary_is_list in H. split; [exact H|].
  destruct (generate_pipeline_shape md question) as (collection & m & _ & _ & Hp).
  exists collection. eexists. split; [|apply (match_stages_prefix m)].
  rewrite Hp, H. unfold intent_stages, sort_newest_first.
  destruct (_find_date_fields md collection); reflexivity.
Qed.

(** The fallback of [generate_mongo_query] is the single limit stage. *)
Lemma fallback_query_text : fallback_query = bq "[{`$limit`: 10}]".
Proof. vm_compute. reflexivity. Qed.

End GeneratorClaims.

(* ================================================================== *)
(** * The safety gate and the dispatcher *)
(* ================================================================== *)

Section ReprFacts.
Import Text Py Props.










End ReprFacts.

Section GateFacts.
Import Text Py Agent Props.




End GateFacts.

Section DispatcherFacts.
Import Text Py Agent Props.





(** The four operators that the gate spells with a capital letter never
    match, whatever the query. *)
Lemma camel_case_operators_are_dead (t : string) (query : value) :
  In t ["deleteOne"; "deleteMany"; "updateOne"; "updateMany"] ->
  contains t (lower (str query)) = false.
Proof.
  intros H. apply capital_never_in_lowered.
  repeat (destruct H as [<- | H]; [reflexivity|]). contradiction.
Qed.

End DispatcherFacts.

Section DispatcherClaims.
Import Text Py Agent Props.

(** C1, at failing inputs.  A find query whose key is the operator
    [deleteOne] passes the gate and reaches the store; an aggregate
    command with a [$set] stage and a count command with a [$set] key are
    executed without any gate. *)
Theorem gate_lets_operators_through (w : world) :
  snd (execute_query w "orders" (VDict [("deleteOne", VDict [])]))
  = [Ev_find "orders" (VDict [("deleteOne", VDict [])]) 10]
  /\ snd (run_query_code w (bq "db.orders.aggregate([{`$set`: {`status`: `done`}}])"))
     = [Ev_aggregate "orders" (VList [VDict [("$set", VDict [("status", VStr "done")])]])]
  /\ snd (run_query_code w (bq "db.orders.countDocuments({`$set`: 1})"))
     = [Ev_count_documents "orders" (VDict [("$set", VInt 1)])].
Proof.
  split; [|split].
  - unfold execute_query.
    change (existsb _ prohibited_operators) with false. cbv iota.
    unfold bind, call. destruct (store_find w _ _); reflexivity.
  - unfold run_query_code.
    change (recover w _)
      with (Command "orders" Op_aggregate
              (VList [VDict [("$set", VDict [("status", VStr "done")])]])
              [Loads_clean (bq "[{`$set`: {`status`: `done`}}]")]).
    cbn [dispatch]. unfold bind, call. destruct (store_aggregate w _ _); reflexivity.
  - unfold run_query_code.
    change (recover w _)
      with (Command "orders" Op_countDocuments (VDict [("$set", VInt 1)])
              [Loads_clean (bq "{`$set`: 1}")]).
    cbn [dispatch]. unfold bind, call. destruct (store_count_documents w _ _); reflexivity.
Qed.

(** The count and aggregate commands are executed whatever their
    argument: no gate is consulted on those two paths. *)
Lemma aggregate_is_not_gated (w : world) (query_code collection_name : string)
      (argument : value) (attempts : list attempt) :
  recover w query_code = Command collection_name Op_aggregate argument attempts ->
  snd (run_query_code w query_code) = [Ev_aggregate collection_name argument].
Proof.
  intros H. unfold run_query_code. rewrite H. cbn [dispatch]. unfold bind, call.
  destruct (store_aggregate w _ _); reflexivity.
Qed.

Lemma count_is_not_gated (w : world) (query_code collection_name : string)
      (op : operation) (argument : value) (attempts : list attempt) :
  op = Op_countDocuments \/ op = Op_count ->
  recover w query_code = Command collection_name op argument attempts ->
  snd (run_query_code w query_code) = [Ev_count_documents collection_name argument].
Proof.
  intros Hop H. unfold run_query_code. rewrite H.
  destruct Hop as [-> | ->]; cbn [dispatch]; unfold bind, call;
    destruct (store_count_documents w _ _); reflexivity.
Qed.

(** From the question to the store: the model answers with an aggregate
    command that carries [$set], and the command is run. *)
Lemma model_output_with_set_is_run :
  snd (process_query
         (a_world (bq "db.orders.aggregate([{`$set`: {`status`: `done`}}])") (1 # 10))
         "hello")
  = [Ev_generate decline_system_prompt (decline_user_prompt "hello");
     Ev_aggregate "orders" (VList [VDict [("$set", VDict [("status", VStr "done")])]])].
Proof. vm_compute. reflexivity. Qed.

(** C10, at a failing input.  The value of the filter contains the
    prohibited operator [deleteOne], the query mutates nothing, and it is
    not rejected: the store is called. *)
Theorem find_gate_misses_camel_case (w : world) :
  In "deleteOne" prohibited_operators
  /\ contains "deleteOne" (repr (VDict [("note", VStr "deleteOne")])) = true
  /\ execute_query w "orders" (VDict [("note", VStr "deleteOne")]) <> rejected
  /\ snd (execute_query w "orders" (VDict [("note", VStr "deleteOne")]))
     = [Ev_find "orders" (VDict [("note", VStr "deleteOne")]) 10].
Proof.
  split; [simpl; tauto|]. split; [reflexivity|].
  unfold execute_query. change (existsb _ prohibited_operators) with false.
  cbv iota. unfold bind, call, rejected.
  destruct (store_find w _ _); split; try reflexivity; discriminate.
Qed.

(** C2, at failing inputs.  The documents of an aggregate command leave
    with the native identifier that the store gave them, and so does
    every field of a found document other than [_id]. *)
Theorem native_identifiers_leave :
  let w := a_world "" 0 in
  (exists results trace,
     run_query_code w (bq "db.orders.aggregate([{`$limit`: 1}])")
     = (Formatted results, trace)
     /\ results = documents [an_order]
     /\ has_object_id results = true)
  /\ exists results,
       execute_query w "orders" (VDict [])
       = (results, [Ev_find "orders" (VDict []) 10])
       /\ results = documents [[("_id", VStr an_id); ("customerId", VObjectId an_id);
                                ("status", VStr "pending")]]
       /\ has_object_id results = true.
Proof.
  split.
  - eexists. eexists. split; [vm_compute; reflexivity|]. split; reflexivity.
  - eexists. split; [vm_compute; reflexivity|]. split; reflexivity.
Qed.

End DispatcherClaims.

(* ================================================================== *)
(** * The ranker and the prompts *)
(* ================================================================== *)

Section RankerFacts.
Import Text Py Agent Props.

Lemma below_threshold_signals (w : world) (user_question : string) (k : nat) :
  no_relevant (search_collections w user_question k) = true ->
  build_context w user_question k = (Some NO_RELEVANT_COLLECTION, []).
Proof. intros H. unfold build_context. rewrite H. reflexivity. Qed.

Lemma decline_prompts_when_no_relevant (w : world) (user_question : string) :
  no_relevant (search_collections w user_question 3) = true ->
  get_reliable_prompt w user_question
  = (Some (decline_system_prompt, decline_user_prompt user_question), []).
Proof.
  intros H. unfold get_reliable_prompt.
  rewrite (below_threshold_signals w user_question 3 H). reflexivity.
Qed.

(** Without a relevant collection the model is still called, with the
    two prompts that ask it to decline. *)
Lemma no_relevant_collection_reaches_model (w : world) (user_question : string) :
  any_in prohibited_words (lower user_question) = false ->
  wants_join (lower user_question) = false ->
  no_relevant (search_collections w user_question 3) = true ->
  contains "OUT_OF_SCOPE" (decline_user_prompt user_question) = false ->
  exists r t,
    process_query w user_question
    = (r, Ev_generate decline_system_prompt (decline_user_prompt user_question) :: t).
Proof.
  intros Hp Hj Hn Hs. unfold process_query. rewrite Hp, Hj. unfold ask_model.
  rewrite (decline_prompts_when_no_relevant w user_question Hn).
  unfold bind at 1. unfold ret at 1.
  change (contains "OUT_OF_SCOPE" decline_system_prompt) with false.
  rewrite Hs. cbn [orb]. unfold bind, call.
  destruct (after_model w _) as [r t]. exists r, t. reflexivity.
Qed.

(** The collections that enter the context are those of the ranking
    whose score is not below 0.2. *)
Lemma kept_drops_low_scores (ranking : list (string * Q)) (c : string) (score : Q) :
  In (c, score) (kept ranking) <-> In (c, score) ranking /\ Qltb score (2 # 10) = false.
Proof.
  unfold kept. rewrite filter_In. split; intros [H1 H2]; split; auto.
  - now apply negb_true_iff in H2.
  - now apply negb_true_iff.
Qed.

Lemma Qltb_spec (a b : Q) : Qltb a b = true <-> (a < b)%Q.
Proof.
  unfold Qltb. rewrite negb_true_iff. split.
  - intros H. apply Qnot_le_lt. intros Hle. apply Qle_bool_iff in Hle. congruence.
  - intros H. destruct (Qle_bool b a) eqn:E; [|reflexivity].
    apply Qle_bool_iff in E. exfalso. apply (Qlt_not_le _ _ H E).
Qed.

Lemma insert_desc_In (x y : string * Q) (l : list (string * Q)) :
  In x (insert_desc y l) <-> x = y \/ In x l.
Proof.
  induction l as [|z l IH]; cbn [insert_desc].
  - simpl. intuition auto.
  - destruct (Qltb (snd y) (snd z)); simpl; rewrite ?IH; intuition auto.
Qed.

Lemma sorted_desc_In (x : string * Q) (l : list (string * Q)) :
  In x (sorted_desc l) <-> In x l.
Proof.
  unfold sorted_desc. induction l as [|y l IH]; cbn [fold_right]; [tauto|].
  rewrite insert_desc_In, IH. simpl. intuition auto.
Qed.

Lemma lookup_data_known (c : string) (d : collection_data)
      (db : list (string * collection_data)) :
  In (c, d) db -> exists d', lookup_data c db = Some d'.
Proof.
  induction db as [|[c' d0] db IH]; [contradiction|].
  intros H. cbn [lookup_data]. destruct (String.eqb c c') eqn:E; [eauto|].
  destruct H as [H|H]; [|auto].
  injection H as -> ->. rewrite String.eqb_refl in E. discriminate.
Qed.

(** The ranking only names collections of [embeddings_db]. *)
Lemma search_collections_known (w : world) (question c : string) (score : Q) (k : nat) :
  In (c, score) (search_collections w question k) ->
  exists d, lookup_data c (embeddings_db w) = Some d.
Proof.
  unfold search_collections. intros H. apply In_firstn in H.
  rewrite sorted_desc_In in H. apply in_map_iff in H.
  destruct H as ([c' d] & Heq & Hin). injection Heq as -> _.
  eapply lookup_data_known; eauto.
Qed.

Lemma build_sections_runs (w : world) (names : list (string * Q)) (context : string) :
  (forall c score, In (c, score) names ->
                   exists d, lookup_data c (embeddings_db w) = Some d) ->
  exists text,
    build_sections w names context
    = (Some (context ++ text), map (fun '(c, _) => Ev_find_one c) names).
Proof.
  revert context. induction names as [|[c score] names IH]; intros context Hk.
  - exists EmptyString. cbn. now rewrite append_empty.
  - destruct (Hk c score (or_introl eq_refl)) as (d & Hd).
    cbn [build_sections]. unfold collection_section. rewrite Hd.
    unfold get_collection_sample_fields, bind, call.
    destruct (store_find_one w c) as [e|[sample|]]; cbn [ret app];
      match goal with
      | |- context [build_sections w names (context ++ ?t)] =>
          destruct (IH (context ++ t)) as (text & ->);
            [intros; eapply Hk; right; eauto|];
            exists (t ++ text); cbn [map app]; now rewrite append_assoc
      end.
Qed.

(** With a relevant collection the agent declines before the model is
    called: the expert prompt itself spells the marker that the guard
    looks for. *)
Lemma relevant_collection_is_declined (w : world) (user_question : string) :
  any_in prohibited_words (lower user_question) = false ->
  wants_join (lower user_question) = false ->
  no_relevant (search_collections w user_question 3) = false ->
  process_query w user_question
  = (Declined_before_model,
     map (fun '(c, _) => Ev_find_one c) (kept (search_collections w user_question 3))).
Proof.
  intros Hp Hj Hn. unfold process_query. rewrite Hp, Hj.
  unfold ask_model, get_reliable_prompt, build_context. rewrite Hn.
  destruct (build_sections_runs w (kept (search_collections w user_question 3))
                                context_header) as (text & ->).
  { intros c score H. apply kept_drops_low_scores in H. destruct H as [H _].
    eapply search_collections_known; eauto. }
  unfold bind, ret.
  change (context_header ++ text)
    with (String "#" (String "#" EmptyString ++
            (" Available MongoDB Collections" ++ NL ++ NL ++
             "⚠️ IMPORTANT: Use ONLY the field names shown below. Do NOT invent field names."
             ++ NL ++ NL) ++ text)).
  cbn [String.eqb NO_RELEVANT_COLLECTION Ascii.eqb Bool.eqb].
  change (contains "OUT_OF_SCOPE" expert_system_prompt) with true.
  cbn [orb]. rewrite app_nil_r. rewrite app_nil_r. reflexivity.
Qed.

(** The samples that are fetched for the context are those of the kept
    collections, in the order of the ranking. *)
Lemma context_fetches_kept (w : world) (user_question : string) (k : nat) :
  no_relevant (search_collections w user_question k) = false ->
  exists text,
    build_context w user_question k
    = (Some (context_header ++ text),
       map (fun '(c, _) => Ev_find_one c) (kept (search_collections w user_question k))).
Proof.
  intros Hn. unfold build_context. rewrite Hn. apply build_sections_runs.
  intros c score H. apply kept_drops_low_scores in H. destruct H as [H _].
  eapply search_collections_known; eauto.
Qed.

Lemma declined_without_model (w : world) (user_question : string) :
  any_in prohibited_words (lower user_question) = false ->
  wants_join (lower user_question) = false ->
  no_relevant (search_collections w user_question 3) = false ->
  existsb is_model_call (snd (process_query w user_question)) = false.
Proof.
  intros Hp Hj Hn. rewrite (relevant_collection_is_declined w _ Hp Hj Hn). cbn [snd].
  induction (kept (search_collections w user_question 3)) as [|[c score] l IH];
    [reflexivity|exact IH].
Qed.

End RankerFacts.

Section RankerClaims.
Import Text Py Agent Props.

(** C3, at a failing input.  The only collection scores 0.1, below 0.3:
    the ranker signals that no collection is relevant, and yet the
    language model is called; the answer of the agent is made from what
    the model returns. *)
Theorem no_relevant_collection_still_asks_model :
  let w := a_world "Sorry, I cannot answer that." (1 # 10) in
  search_collections w "hello" 3 = [("orders", 1 # 10)]
  /\ build_context w "hello" 3 = (Some NO_RELEVANT_COLLECTION, [])
  /\ process_query w "hello"
     = (Command_not_found "Sorry, I cannot answer that.",
        [Ev_generate decline_system_prompt (decline_user_prompt "hello")]).
Proof. vm_compute. repeat split. Qed.

End RankerClaims.

(* ================================================================== *)
(** * The recovery parser *)
(* ================================================================== *)

Section ParserFacts.
Import Text Py Agent Props.

Lemma find_char_drop (c : ascii) (s : string) (start : nat) :
  find_char c s = Some start -> exists rest, drop start s = String c rest.
Proof.
  revert start. induction s as [|d s IH]; intros start H; [discriminate|].
  cbn [find_char] in H. destruct (Ascii.eqb c d) eqn:E.
  - injection H as <-. apply Ascii.eqb_eq in E. subst d. now exists s.
  - destruct (find_char c s) as [i|]; [|discriminate].
    injection H as <-. exact (IH i eq_refl).
Qed.

(** With a bracket on the stack the counter never pops from an empty
    stack. *)
Lemma count_brackets_no_pop (o c : ascii) (s : string) (stack : list ascii) (i : nat) :
  stack <> [] -> count_brackets o c s stack i <> Pop_from_empty.
Proof.
  revert stack i. induction s as [|ch s IH]; intros stack i Hs; [discriminate|].
  cbn [count_brackets]. destruct (Ascii.eqb ch o).
  - apply IH. destruct stack; discriminate.
  - destruct (Ascii.eqb ch c); [|now apply IH].
    destruct (rev stack) as [|x popped] eqn:E.
    + apply (f_equal (@rev ascii)) in E. rewrite rev_involutive in E. contradiction.
    + destruct popped as [|y popped]; [discriminate|].
      apply IH. intros H. apply (f_equal (@rev ascii)) in H.
      rewrite rev_involutive in H. discriminate.
Qed.

Lemma count_brackets_from_opening (o c : ascii) (rest : string) :
  count_brackets o c (String o rest) [] 0 <> Pop_from_empty.
Proof.
  cbn [count_brackets]. rewrite Ascii.eqb_refl.
  apply count_brackets_no_pop. discriminate.
Qed.

Lemma extract_argument_no_pop (w : world) (o c : ascii) (default : value)
      (content : string) :
  extract_argument w o c default content <> inl Index_error.
Proof.
  unfold extract_argument. destruct (find_char o content) as [start|] eqn:E;
    [|discriminate].
  destruct (find_char_drop _ _ _ E) as (rest & ->).
  destruct (count_brackets o c (String o rest) [] 0) eqn:S.
  - cbv zeta. destruct (decode_closed w default _) as [[v|x] t]; discriminate.
  - discriminate.
  - exfalso. exact (count_brackets_from_opening o c rest S).
Qed.

(** X25. What leaves the recovery parser.  The parser raises exactly
    when the bracket counter closed a span on which [json.loads] raises
    once the keys are quoted and raises [RecursionError] as it is: the
    second [json.loads] is under [except (ValueError, SyntaxError)].
    What is raised is that [RecursionError]; the pop of the bracket
    counter is never made on an empty stack. *)
Theorem parser_raises_iff (w : world) (query_code : string) (e : raised) :
  recover w query_code = Parser_raised e
  <-> exists collection_name op content start n,
        search_command query_code = Some (collection_name, op, content)
        /\ find_char (opening_of op) content = Some start
        /\ count_brackets (opening_of op) (closing_of op) (drop start content) [] 0
           = Closed n
        /\ (exists x, Json.loads (recursion_limit w)
                                 (quote_keys (slice start (start + n) content))
                      = Json.Raise x)
        /\ Json.loads (recursion_limit w) (slice start (start + n) content)
           = Json.Raise Json.Recursion_error
        /\ e = Recursion_error_on (slice start (start + n) content).
Proof.
  split.
  - unfold recover.
    destruct (search_command query_code) as [[[name op] content]|] eqn:Hs;
      [|discriminate].
    pose proof (extract_argument_no_pop w (opening_of op) (closing_of op)
                  (default_of op) content) as Hp.
    revert Hp. unfold extract_argument.
    destruct (find_char (opening_of op) content) as [start|] eqn:Hf; [|discriminate].
    destruct (count_brackets _ _ (drop start content) [] 0) as [n| |] eqn:Hc.
    + intros _. cbv zeta. unfold decode_closed.
      destruct (Json.loads _ (quote_keys _)) as [v|x] eqn:E1; [discriminate|].
      destruct (Json.loads _ (slice _ _ _)) as [v|[|]] eqn:E2; [discriminate| |].
      * destruct (literal_eval w _); discriminate.
      * intros H. injection H as <-.
        exists name, op, content, start, n. repeat split; eauto.
    + destruct (decode_unclosed _ _ _); discriminate.
    + intros Hp. contradiction.
  - intros (name & op & content & start & n & Hs & Hf & Hc & (x & E1) & E2 & ->).
    unfold recover, extract_argument. rewrite Hs, Hf, Hc. cbv zeta.
    unfold decode_closed. rewrite E1, E2. reflexivity.
Qed.

Lemma quote_keys_empty : quote_keys "" = "".
Proof. reflexivity. Qed.

Lemma slice_to_zero (start : nat) (s : string) : slice start 0 s = "".
Proof. unfold slice. destruct (drop start s); reflexivity. Qed.

(** X26. The counter ends unclosed exactly when every non-empty prefix
    of the text leaves more brackets open than closed. *)
Lemma unclosed_iff (o c : ascii) (s : string) (stack : list ascii) (i : nat) :
  o <> c -> stack <> [] ->
  count_brackets o c s stack i = Unclosed <->
  forall p q, s = p ++ q -> p <> "" ->
              (occurrences c p < List.length stack + occurrences o p)%nat.
Proof.
  intros Hoc. revert stack i. induction s as [|ch s IH]; intros stack i Hs.
  - split; [|reflexivity]. intros _ [|a p] q Hp Hne; [contradiction|discriminate].
  - cbn [count_brackets]. destruct (Ascii.eqb ch o) eqn:Eo.
    + apply Ascii.eqb_eq in Eo. subst ch.
      assert (Eco : Ascii.eqb c o = false) by (apply Ascii.eqb_neq; congruence).
      rewrite IH by (destruct stack; discriminate).
      rewrite length_app. cbn [List.length].
      split; intros H p q Hp Hne.
      * destruct p as [|a p]; [contradiction|]. injection Hp as <- ->.
        cbn [occurrences]. rewrite Ascii.eqb_refl, Eco.
        destruct p as [|b p]; [cbn; lia|].
        specialize (H (String b p) q eq_refl ltac:(discriminate)). lia.
      * specialize (H (String o p) q). cbn [occurrences append] in H.
        rewrite Ascii.eqb_refl, Eco in H.
        specialize (H ltac:(now rewrite Hp) ltac:(discriminate)). lia.
    + assert (Eoc : Ascii.eqb o ch = false) by (rewrite Ascii.eqb_sym; exact Eo).
      destruct (Ascii.eqb ch c) eqn:Ec.
      * apply Ascii.eqb_eq in Ec. subst ch.
        destruct (rev stack) as [|x popped] eqn:E.
        { apply (f_equal (@rev ascii)) in E. rewrite rev_involutive in E. contradiction. }
        assert (Hlen : List.length stack = S (List.length popped)).
        { rewrite <- (rev_involutive stack), E, length_rev. reflexivity. }
        destruct popped as [|y popped].
        { split; [discriminate|]. intros H.
          specialize (H (String c "") s eq_refl ltac:(discriminate)).
          cbn [occurrences] in H. rewrite Ascii.eqb_refl, Eoc in H.
          cbn [List.length] in Hlen. lia. }
        rewrite IH.
        2:{ intros H. apply (f_equal (@rev ascii)) in H.
            rewrite rev_involutive in H. discriminate. }
        rewrite length_rev. cbn [List.length] in *.
        split; intros H p q Hp Hne.
        { destruct p as [|a p]; [contradiction|]. injection Hp as <- ->.
          cbn [occurrences]. rewrite Ascii.eqb_refl, Eoc.
          destruct p as [|b p]; [cbn; lia|].
          specialize (H (String b p) q eq_refl ltac:(discriminate)). lia. }
        { specialize (H (String c p) q). cbn [occurrences append] in H.
          rewrite Ascii.eqb_refl, Eoc in H.
          specialize (H ltac:(now rewrite Hp) ltac:(discriminate)). lia. }
      * assert (Ecc : Ascii.eqb c ch = false) by (rewrite Ascii.eqb_sym; exact Ec).
        assert (Hpos : (0 < List.length stack)%nat)
          by (destruct stack; [contradiction|cbn; lia]).
        rewrite IH by assumption.
        split; intros H p q Hp Hne.
        { destruct p as [|a p]; [contradiction|]. injection Hp as <- ->.
          cbn [occurrences]. rewrite Ecc, Eoc.
          destruct p as [|b p]; [cbn; lia|].
          specialize (H (String b p) q eq_refl ltac:(discriminate)). lia. }
        { specialize (H (String ch p) q). cbn [occurrences append] in H.
          rewrite Ecc, Eoc in H.
          specialize (H ltac:(now rewrite Hp) ltac:(discriminate)). lia. }
Qed.

End ParserFacts.

Section Survival.
Import Text Py Json Agent Props.

Variables (lead c0 : ascii) (x x' : string).
Hypothesis Hlead : is_key_lead lead = true.
Hypothesis Hc0 : is_ident_start c0 = true.

Let X := String c0 x.
Let X' := String dquote (String c0 x').

Hypothesis Hstuck :
  forall L r, all_chars is_alpha L = true -> after_prefix L X = Some r -> stuck r = true.

Let edited := Props.edited lead X X'.
Let aligned := Props.aligned lead X X'.
Let outcome := Props.outcome c0 lead X X'.

Lemma edited_inv (c : ascii) (t s' : string) :
  edited (String c t) s' ->
  exists t', s' = String c t' /\ ((c = lead /\ t = X /\ t' = X') \/ edited t t').
Proof.
  intros ([|d u] & Hs & ->); cbn in Hs; injection Hs as -> ->.
  - exists X'. split; [reflexivity|]. left. auto.
  - exists (u ++ String lead X'). split; [reflexivity|]. right. now exists u.
Qed.

Lemma edited_inv_aligned (c : ascii) (t s' : string) :
  edited (String c t) s' -> exists t', s' = String c t' /\ aligned t t'.
Proof.
  intros H. destruct (edited_inv c t s' H) as (t' & Hs' & H').
  exists t'. split; [exact Hs'|].
  destruct H' as [(_ & Ht & Ht')|H']; [right; auto|left; exact H'].
Qed.

Lemma edited_nonempty (s' : string) : ~ edited "" s'.
Proof. intros ([|d u] & Hs & _); discriminate. Qed.

Lemma edited_cons (s s' : string) :
  edited s s' -> exists c t t', s = String c t /\ s' = String c t' /\ aligned t t'
                                /\ (c = lead \/ edited t t').
Proof.
  intros H. destruct s as [|c t]; [destruct (edited_nonempty _ H)|].
  destruct (edited_inv c t s' H) as (t' & Hs' & H').
  exists c, t, t'. split; [reflexivity|]. split; [exact Hs'|].
  destruct H' as [(Hc & Ht & Ht')|H'].
  - split; [right; auto|left; exact Hc].
  - split; [left; exact H'|right; exact H'].
Qed.

(** Facts about the two characters *)
Lemma lead_facts :
  Ascii.eqb lead dquote = false /\ Ascii.eqb lead backslash = false
  /\ unescape lead = None /\ Ascii.eqb lead "u" = false /\ hex_val lead = None
  /\ is_digit lead = false /\ is_alpha lead = false
  /\ Ascii.eqb lead "-" = false /\ Ascii.eqb lead "." = false
  /\ Ascii.eqb lead "+" = false /\ Ascii.eqb lead "}" = false
  /\ Ascii.eqb lead "]" = false /\ Ascii.eqb lead ":" = false
  /\ Ascii.eqb lead "[" = false.
Proof.
  clear - Hlead. revert Hlead.
  destruct lead as [[] [] [] [] [] [] [] []]; vm_compute; intros H;
    first [discriminate H | repeat split].
Qed.

Lemma c0_facts :
  is_ws c0 = false /\ Ascii.eqb c0 dquote = false /\ is_digit c0 = false
  /\ Ascii.eqb c0 "-" = false /\ Ascii.eqb c0 "{" = false /\ Ascii.eqb c0 "[" = false
  /\ Ascii.eqb c0 "}" = false /\ Ascii.eqb c0 "]" = false /\ Ascii.eqb c0 "," = false
  /\ Ascii.eqb c0 ":" = false.
Proof.
  clear - Hc0. revert Hc0.
  destruct c0 as [[] [] [] [] [] [] [] []]; vm_compute; intros H;
    first [discriminate H | repeat split].
Qed.

Lemma skip_ws_X : skip_ws X = X.
Proof. unfold X. cbn. destruct c0_facts as (-> & _). reflexivity. Qed.

Lemma skip_ws_X' : skip_ws X' = X'.
Proof. reflexivity. Qed.

Lemma skip_ws_aligned (s s' : string) :
  aligned s s' -> aligned (skip_ws s) (skip_ws s').
Proof.
  intros [(u & -> & ->) | (-> & ->)].
  - induction u as [|c u IH]; cbn [append skip_ws].
    + destruct (is_ws lead).
      * right. split; [apply skip_ws_X|apply skip_ws_X'].
      * left. exists EmptyString. split; reflexivity.
    + destruct (is_ws c); [exact IH|].
      left. exists (String c u). split; reflexivity.
  - right. split; [apply skip_ws_X|apply skip_ws_X'].
Qed.

(** One character read from two edited texts *)
Lemma after_char_edited (c : ascii) (s s' : string) :
  edited s s' ->
  (after_prefix (String c "") s = None /\ after_prefix (String c "") s' = None)
  \/ (exists r r', after_prefix (String c "") s = Some r
                   /\ after_prefix (String c "") s' = Some r'
                   /\ aligned r r' /\ (c = lead \/ edited r r')).
Proof.
  intros H. destruct (edited_cons s s' H) as (d & t & t' & -> & -> & Ha & Hd).
  cbn [after_prefix]. destruct (Ascii.eqb c d) eqn:E.
  - apply Ascii.eqb_eq in E. subst d. right. exists t, t'. auto.
  - left. auto.
Qed.

(** At the edit, the original goes on with an identifier and the
    rewritten text with a quote. *)
Lemma after_char_X (c : ascii) :
  Ascii.eqb c c0 = false -> after_prefix (String c "") X = None.
Proof. intros E. unfold X. cbn [after_prefix]. now rewrite E. Qed.

Lemma after_prefix_edited (L s s' : string) :
  all_chars (fun c => negb (Ascii.eqb c lead)) L = true ->
  edited s s' ->
  (after_prefix L s = None /\ after_prefix L s' = None)
  \/ (exists r r', after_prefix L s = Some r /\ after_prefix L s' = Some r'
                   /\ edited r r').
Proof.
  revert s s'. induction L as [|a L IH]; intros s s' HL H.
  - right. exists s, s'. auto.
  - cbn [all_chars] in HL. apply andb_true_iff in HL. destruct HL as [Ha HL].
    destruct (edited_cons s s' H) as (d & t & t' & -> & -> & _ & Hd).
    cbn [after_prefix]. destruct (Ascii.eqb a d) eqn:E; [|left; auto].
    apply Ascii.eqb_eq in E. subst d.
    destruct Hd as [->|Hd]; [rewrite Ascii.eqb_refl in Ha; discriminate|].
    apply IH; assumption.
Qed.

Lemma span_edited (p : ascii -> bool) (s s' : string) :
  p lead = false -> edited s s' ->
  exists r r', span p s = (fst (span p s), r) /\ span p s' = (fst (span p s), r')
               /\ edited r r'.
Proof.
  intros Hp (u & -> & ->). induction u as [|c u IH]; cbn [append span].
  - rewrite Hp. exists (String lead X), (String lead X'). repeat split.
    exists EmptyString. auto.
  - destruct (p c).
    + destruct IH as (r & r' & E1 & E2 & Hr). rewrite E1, E2. cbn [fst].
      exists r, r'. auto.
    + exists (String c (u ++ String lead X)), (String c (u ++ String lead X')).
      repeat split. exists (String c u). auto.
Qed.

(** A string that is scanned from two aligned texts: the same string is
    read from both, or the rewritten text closes it at the edit. *)
Lemma scan_units_aligned (n : nat) :
  forall s s' acc us r,
    (String.length s <= n)%nat -> aligned s s' ->
    scan_units s acc = Some (us, r) ->
    (exists r', scan_units s' acc = Some (us, r') /\ aligned r r')
    \/ (exists us' t, scan_units s' acc = Some (us', String c0 t)).
Proof.
  destruct lead_facts as (Lq & Lb & Lu & Lx & Lh & _).
  induction n as [n IH] using lt_wf_ind.
  intros s s' acc us r Hlen [H | (-> & ->)] Hscan.
  2:{ right. exists (rev acc), x'. reflexivity. }
  destruct (edited_cons s s' H) as (c & t & t' & -> & -> & Ha & Hc).
  cbn [scan_units] in Hscan |- *.
  destruct (Ascii.eqb c dquote) eqn:Eq.
  { injection Hscan as <- <-. left. exists t'. auto. }
  destruct (Ascii.eqb c backslash) eqn:Eb.
  - apply Ascii.eqb_eq in Eb. subst c.
    destruct Hc as [<-|Hc]; [rewrite Ascii.eqb_refl in Lb; discriminate|].
    destruct (edited_cons t t' Hc) as (e & t1 & t1' & -> & -> & Ha1 & Hc1).
    destruct (Ascii.eqb e "u") eqn:Eu.
    + apply Ascii.eqb_eq in Eu. subst e.
      destruct Hc1 as [<-|Hc1]; [discriminate|].
      destruct (edited_cons _ _ Hc1) as (h1 & t2 & t2' & -> & -> & _ & Hc2).
      destruct Hc2 as [<-|Hc2];
        [unfold hex4 in Hscan; rewrite Lh in Hscan;
         destruct t2 as [|? [|? [|? ?]]]; discriminate|].
      destruct (edited_cons _ _ Hc2) as (h2 & t3 & t3' & -> & -> & _ & Hc3).
      destruct Hc3 as [<-|Hc3];
        [unfold hex4 in Hscan; rewrite Lh in Hscan;
         destruct t3 as [|? [|? ?]]; try discriminate;
         destruct (hex_val h1); discriminate|].
      destruct (edited_cons _ _ Hc3) as (h3 & t4 & t4' & -> & -> & _ & Hc4).
      destruct Hc4 as [<-|Hc4];
        [unfold hex4 in Hscan; rewrite Lh in Hscan;
         destruct t4 as [|? ?]; try discriminate;
         destruct (hex_val h1), (hex_val h2); discriminate|].
      destruct (edited_cons _ _ Hc4) as (h4 & t5 & t5' & -> & -> & Ha5 & Hc5).
      destruct (hex4 h1 h2 h3 h4) as [cp|] eqn:Eh; [|discriminate].
      apply (IH (String.length t5)) with (s := t5) (acc := Esc cp :: acc);
        [cbn in Hlen; lia|lia|exact Ha5|exact Hscan].
    + destruct (unescape e) as [y|] eqn:Ee; [|discriminate].
      apply (IH (String.length t1)) with (s := t1) (acc := Raw y :: acc);
        [cbn in Hlen; lia|lia|exact Ha1|exact Hscan].
  - destruct (code c <? 32)%nat; [discriminate|].
    apply (IH (String.length t)) with (s := t) (acc := Raw c :: acc);
      [cbn in Hlen; lia|lia|exact Ha|exact Hscan].
Qed.

Lemma scanstring_aligned (s s' t r : string) :
  aligned s s' -> scanstring s = Some (t, r) ->
  (exists r', scanstring s' = Some (t, r') /\ aligned r r')
  \/ (exists t' tail, scanstring s' = Some (t', String c0 tail)).
Proof.
  unfold scanstring. intros Ha Hs.
  destruct (scan_units s []) as [[us r0]|] eqn:E; [|discriminate].
  injection Hs as <- <-.
  destruct (scan_units_aligned _ s s' [] us r0 (le_n _) Ha E)
    as [(r' & -> & Hr) | (us' & tail & ->)]; [left|right]; eauto.
Qed.

Let in_step {A : Type} := @Props.in_step lead X X' A.

Lemma digits_edited (s s' : string) :
  edited s s' ->
  exists ds r r', span is_digit s = (ds, r) /\ span is_digit s' = (ds, r')
                  /\ edited r r'.
Proof.
  intros H. destruct lead_facts as (_ & _ & _ & _ & _ & Ld & _).
  destruct (span_edited is_digit s s' Ld H) as (r & r' & E1 & E2 & Hr).
  eauto 6.
Qed.

Lemma lead_free (L : string) :
  all_chars (fun c => negb (is_key_lead c)) L = true ->
  all_chars (fun c => negb (Ascii.eqb c lead)) L = true.
Proof.
  induction L as [|a L IH]; [reflexivity|]. cbn [all_chars].
  intros H. apply andb_true_iff in H. destruct H as [Ha HL].
  rewrite (IH HL), andb_true_r. destruct (Ascii.eqb a lead) eqn:E; [|reflexivity].
  apply Ascii.eqb_eq in E. subst a. rewrite Hlead in Ha. discriminate.
Qed.

Lemma scan_integer_edited (s s' : string) :
  edited s s' -> in_step (scan_integer s) (scan_integer s').
Proof.
  intros H. unfold scan_integer.
  assert (Body : exists sign b b',
    (match after_prefix "-" s with Some r => ("-", r) | None => (EmptyString, s) end)
      = (sign, b)
    /\ (match after_prefix "-" s' with Some r => ("-", r) | None => (EmptyString, s') end)
      = (sign, b')
    /\ edited b b').
  { destruct (after_prefix_edited "-" s s') as [(-> & ->)|(r & r' & -> & -> & Hr)];
      [now apply lead_free|exact H|eauto 6|eauto 6]. }
  destruct Body as (sign & b & b' & -> & -> & Hb).
  destruct (after_prefix_edited "0" b b') as [(-> & ->)|(r & r' & -> & -> & Hr)];
    [now apply lead_free|exact Hb| |right; eauto 6].
  destruct (digits_edited b b' Hb) as (ds & r & r' & -> & -> & Hr).
  destruct ds; [left; auto|right; eauto 6].
Qed.

Lemma scan_fraction_edited (s s' : string) :
  edited s s' ->
  exists f r r', scan_fraction s = (f, r) /\ scan_fraction s' = (f, r') /\ edited r r'.
Proof.
  intros H. unfold scan_fraction.
  destruct (after_prefix_edited "." s s') as [(-> & ->)|(r & r' & -> & -> & Hr)];
    [now apply lead_free|exact H|eauto 6|].
  destruct (digits_edited r r' Hr) as (ds & r1 & r1' & -> & -> & Hr1).
  destruct ds; eauto 6.
Qed.

Lemma scan_exponent_edited (s s' : string) :
  edited s s' ->
  exists e r r', scan_exponent s = (e, r) /\ scan_exponent s' = (e, r') /\ edited r r'.
Proof.
  intros H. unfold scan_exponent.
  assert (Mark :
    (match after_prefix "e" s with
     | Some r => Some ("e", r)
     | None => match after_prefix "E" s with Some r => Some ("E", r) | None => None end
     end = None
     /\ match after_prefix "e" s' with
        | Some r => Some ("e", r)
        | None => match after_prefix "E" s' with Some r => Some ("E", r) | None => None end
        end = None)
    \/ exists e r r',
        match after_prefix "e" s with
        | Some r => Some ("e", r)
        | None => match after_prefix "E" s with Some r => Some ("E", r) | None => None end
        end = Some (e, r)
        /\ match after_prefix "e" s' with
           | Some r => Some ("e", r)
           | None => match after_prefix "E" s' with Some r => Some ("E", r) | None => None end
           end = Some (e, r')
        /\ edited r r').
  { destruct (after_prefix_edited "e" s s') as [(-> & ->)|(r & r' & -> & -> & Hr)];
      [now apply lead_free|exact H| |right; eauto 6].
    destruct (after_prefix_edited "E" s s') as [(-> & ->)|(r & r' & -> & -> & Hr)];
      [now apply lead_free|exact H|left; auto|right; eauto 6]. }
  destruct Mark as [(-> & ->)|(e & r & r' & -> & -> & Hr)]; [eauto 6|].
  assert (Sign : exists sign b b',
    match after_prefix "-" r with
    | Some b => ("-", b)
    | None => match after_prefix "+" r with Some b => ("+", b) | None => (EmptyString, r) end
    end = (sign, b)
    /\ match after_prefix "-" r' with
       | Some b => ("-", b)
       | None => match after_prefix "+" r' with Some b => ("+", b) | None => (EmptyString, r') end
       end = (sign, b')
    /\ edited b b').
  { destruct (after_prefix_edited "-" r r') as [(-> & ->)|(b & b' & -> & -> & Hb)];
      [now apply lead_free|exact Hr| |eauto 6].
    destruct (after_prefix_edited "+" r r') as [(-> & ->)|(b & b' & -> & -> & Hb)];
      [now apply lead_free|exact Hr|eauto 6|eauto 6]. }
  destruct Sign as (sign & b & b' & -> & -> & Hb).
  destruct (digits_edited b b' Hb) as (ds & r1 & r1' & -> & -> & Hr1).
  destruct ds; eauto 6.
Qed.

Lemma scan_number_edited (s s' : string) :
  edited s s' -> in_step (scan_number s) (scan_number s').
Proof.
  intros H. unfold scan_number.
  destruct (scan_integer_edited s s' H) as [(-> & ->)|(i & r1 & r1' & -> & -> & H1)];
    [left; auto|].
  destruct (scan_fraction_edited r1 r1' H1) as (f & r2 & r2' & -> & -> & H2).
  destruct (scan_exponent_edited r2 r2' H2) as (e & r3 & r3' & -> & -> & H3).
  destruct f, e; [|solve [right; eauto 6]..].
  destruct (max_str_digits <? digits i)%nat; [left; auto|right; eauto 6].
Qed.

Lemma scan_constant_edited (s s' : string) :
  edited s s' -> in_step (scan_constant s) (scan_constant s').
Proof.
  intros H. unfold scan_constant.
  destruct (after_prefix_edited "null" s s') as [(-> & ->)|(r & r' & -> & -> & Hr)];
    [now apply lead_free|exact H| |right; eauto 6].
  destruct (after_prefix_edited "true" s s') as [(-> & ->)|(r & r' & -> & -> & Hr)];
    [now apply lead_free|exact H| |right; eauto 6].
  destruct (after_prefix_edited "false" s s') as [(-> & ->)|(r & r' & -> & -> & Hr)];
    [now apply lead_free|exact H| |right; eauto 6].
  destruct (scan_number_edited s s' H) as [(-> & ->)|(v & r & r' & -> & -> & Hr)];
    [|right; eauto 6].
  destruct (after_prefix_edited "NaN" s s') as [(-> & ->)|(r & r' & -> & -> & Hr)];
    [now apply lead_free|exact H| |right; eauto 6].
  destruct (after_prefix_edited "Infinity" s s') as [(-> & ->)|(r & r' & -> & -> & Hr)];
    [now apply lead_free|exact H| |right; eauto 6].
  destruct (after_prefix_edited "-Infinity" s s') as [(-> & ->)|(r & r' & -> & -> & Hr)];
    [now apply lead_free|exact H|left; auto|right; eauto 6].
Qed.

(** At the edit the original can only read a constant, and what follows
    the constant cannot follow a value. *)
Lemma scan_constant_X (v : value) (r : string) :
  scan_constant X = Some (v, r) -> stuck r = true.
Proof.
  destruct c0_facts as (_ & _ & Cd & Cm & _).
  unfold scan_constant.
  destruct (after_prefix "null" X) as [r0|] eqn:E1;
    [intros H; injection H as _ <-; now apply (Hstuck "null")|].
  destruct (after_prefix "true" X) as [r0|] eqn:E2;
    [intros H; injection H as _ <-; now apply (Hstuck "true")|].
  destruct (after_prefix "false" X) as [r0|] eqn:E3;
    [intros H; injection H as _ <-; now apply (Hstuck "false")|].
  assert (En : scan_number X = None).
  { unfold scan_number, scan_integer, X. cbn [after_prefix].
    rewrite (Ascii.eqb_sym "-" c0), Cm.
    assert (E0 : Ascii.eqb "0" c0 = false).
    { destruct (Ascii.eqb "0" c0) eqn:E; [|reflexivity].
      apply Ascii.eqb_eq in E. rewrite <- E in Cd. discriminate. }
    rewrite E0. cbn [span]. rewrite Cd. reflexivity. }
  rewrite En.
  destruct (after_prefix "NaN" X) as [r0|] eqn:E4;
    [intros H; injection H as _ <-; now apply (Hstuck "NaN")|].
  destruct (after_prefix "Infinity" X) as [r0|] eqn:E5;
    [intros H; injection H as _ <-; now apply (Hstuck "Infinity")|].
  unfold X. cbn [after_prefix]. rewrite (Ascii.eqb_sym "-" c0), Cm. discriminate.
Qed.

Lemma after_struct_aligned (c : ascii) (s s' : string) :
  Ascii.eqb c c0 = false -> Ascii.eqb c dquote = false -> aligned s s' ->
  (after_prefix (String c "") s = None /\ after_prefix (String c "") s' = None)
  \/ (exists r r', after_prefix (String c "") s = Some r
                   /\ after_prefix (String c "") s' = Some r' /\ aligned r r').
Proof.
  intros E0 Eq [H | (-> & ->)].
  - destruct (after_char_edited c s s' H) as [?|(r & r' & ? & ? & ? & _)];
      [left; assumption|right; eauto].
  - left. split; [now apply after_char_X|].
    unfold X'. cbn [after_prefix]. now rewrite Eq.
Qed.

Lemma stuck_blocks (r : string) :
  stuck r = true ->
  after_prefix "}" (skip_ws r) = None /\ after_prefix "," (skip_ws r) = None
  /\ after_prefix "]" (skip_ws r) = None /\ skip_ws r <> "".
Proof.
  unfold stuck. destruct (skip_ws r) as [|c t]; [discriminate|].
  intros H. apply negb_true_iff in H. apply orb_false_iff in H.
  destruct H as [H H3]. apply orb_false_iff in H. destruct H as [H1 H2].
  cbn [after_prefix].
  rewrite (Ascii.eqb_sym "}" c), (Ascii.eqb_sym "," c), (Ascii.eqb_sym "]" c).
  rewrite H1, H2, H3. repeat split. discriminate.
Qed.

Lemma ident_blocks (t : string) :
  skip_ws (String c0 t) = String c0 t
  /\ after_prefix "}" (String c0 t) = None /\ after_prefix "," (String c0 t) = None
  /\ after_prefix "]" (String c0 t) = None /\ after_prefix ":" (String c0 t) = None.
Proof.
  destruct c0_facts as (Cw & _ & _ & _ & _ & _ & C1 & C2 & C3 & C4).
  cbn [skip_ws after_prefix]. rewrite Cw.
  rewrite (Ascii.eqb_sym "}" c0), (Ascii.eqb_sym "," c0), (Ascii.eqb_sym "]" c0),
    (Ascii.eqb_sym ":" c0), C1, C2, C3, C4. repeat split.
Qed.

Lemma struct_chars :
  (Ascii.eqb "}" c0 = false /\ Ascii.eqb "}" dquote = false)
  /\ (Ascii.eqb "]" c0 = false /\ Ascii.eqb "]" dquote = false)
  /\ (Ascii.eqb "," c0 = false /\ Ascii.eqb "," dquote = false)
  /\ (Ascii.eqb ":" c0 = false /\ Ascii.eqb ":" dquote = false).
Proof.
  destruct c0_facts as (_ & _ & _ & _ & _ & _ & C1 & C2 & C3 & C4).
  rewrite (Ascii.eqb_sym "}" c0), (Ascii.eqb_sym "," c0), (Ascii.eqb_sym "]" c0),
    (Ascii.eqb_sym ":" c0), C1, C2, C3, C4. repeat split.
Qed.

(** What is left once a value has been read from both texts, when the
    reading of the rewritten text is an [outcome] *)
Ltac blocked_by_ident :=
  match goal with
  | |- context [skip_ws (String c0 ?t)] =>
      let E1 := fresh in let E2 := fresh in let E3 := fresh in
      let E4 := fresh in let E5 := fresh in
      destruct (ident_blocks t) as (E1 & E2 & E3 & E4 & E5);
      rewrite !E1, ?E2, ?E3, ?E4, ?E5; left; eexists; reflexivity
  end.

Ltac raises := left; eexists; reflexivity.

Lemma scan_survival (n : nat) :
  (forall d s s' v r, aligned s s' -> scan_once n d s = Ok (v, r) ->
     stuck r = true \/ forall n' d', outcome v r (scan_once n' d' s'))
  /\ (forall d s s' acc v r, aligned s s' -> scan_members n d s acc = Ok (v, r) ->
        forall n' d', outcome v r (scan_members n' d' s' acc))
  /\ (forall d s s' acc v r, aligned s s' -> scan_elements n d s acc = Ok (v, r) ->
        forall n' d', outcome v r (scan_elements n' d' s' acc)).
Proof.
  destruct struct_chars as ((B1 & B2) & (K1 & K2) & (M1 & M2) & (N1 & N2)).
  destruct c0_facts as (_ & Cq & _ & _ & Cb & Ck & _).
  induction n as [|m (IHonce & IHmembers & IHelements)];
    [repeat split; intros; discriminate|].
  assert (Elements : forall d s s' acc v r, aligned s s' ->
            scan_elements (S m) d s acc = Ok (v, r) ->
            forall n' d', outcome v r (scan_elements n' d' s' acc)).
  { intros d s s' acc v r Ha Hs [|m'] d'; [raises|].
    cbn [scan_elements] in Hs |- *.
    destruct (scan_once m d s) as [[v0 r1]|e0] eqn:E; [|discriminate].
    destruct (IHonce d s s' v0 r1 Ha E) as [St|Out].
    { destruct (stuck_blocks r1 St) as (_ & E2 & E3 & _).
      rewrite E2, E3 in Hs. discriminate. }
    destruct (Out m' d') as [(e1 & ->)|[(r1' & -> & Hr1)|(v' & t & ->)]];
      [raises| |blocked_by_ident].
    apply skip_ws_aligned in Hr1.
    destruct (after_struct_aligned "]" _ _ K1 K2 Hr1)
      as [(E1 & E1')|(r2 & r2' & E1 & E1' & Hr2)]; rewrite E1 in Hs; rewrite E1'.
    2:{ injection Hs as <- <-. right. left. eauto. }
    destruct (after_struct_aligned "," _ _ M1 M2 Hr1)
      as [(E2 & E2')|(r2 & r2' & E2 & E2' & Hr2)]; rewrite E2 in Hs; rewrite E2';
      [discriminate|].
    apply skip_ws_aligned in Hr2. exact (IHelements _ _ _ _ _ _ Hr2 Hs m' d'). }
  assert (Members : forall d s s' acc v r, aligned s s' ->
            scan_members (S m) d s acc = Ok (v, r) ->
            forall n' d', outcome v r (scan_members n' d' s' acc)).
  { intros d s s' acc v r Ha Hs [|m'] d'; [raises|].
    cbn [scan_members] in Hs |- *.
    destruct Ha as [Ha|(-> & ->)].
    2:{ unfold X in Hs. cbn [after_prefix DQ] in Hs.
        rewrite (Ascii.eqb_sym dquote c0), Cq in Hs. discriminate. }
    destruct (after_char_edited dquote s s' Ha)
      as [(E0 & E0')|(r0 & r0' & E0 & E0' & Hr0 & _)];
      unfold DQ in *; rewrite E0 in Hs; rewrite E0'; [discriminate|].
    destruct (scanstring r0) as [[k r1]|] eqn:Ek; [|discriminate].
    destruct (scanstring_aligned _ _ _ _ Hr0 Ek) as [(r1' & -> & Hr1)|(k' & t & ->)];
      [|blocked_by_ident].
    apply skip_ws_aligned in Hr1.
    destruct (after_struct_aligned ":" _ _ N1 N2 Hr1)
      as [(E1 & E1')|(r2 & r2' & E1 & E1' & Hr2)]; rewrite E1 in Hs; rewrite E1';
      [discriminate|].
    apply skip_ws_aligned in Hr2.
    destruct (scan_once m d (skip_ws r2)) as [[v0 r3]|e0] eqn:Ev; [|discriminate].
    destruct (IHonce _ _ _ v0 r3 Hr2 Ev) as [St|Out].
    { destruct (stuck_blocks r3 St) as (E2 & E3 & _).
      rewrite E2, E3 in Hs. discriminate. }
    destruct (Out m' d') as [(e1 & ->)|[(r3' & -> & Hr3)|(v' & t & ->)]];
      [raises| |blocked_by_ident].
    apply skip_ws_aligned in Hr3.
    destruct (after_struct_aligned "}" _ _ B1 B2 Hr3)
      as [(E2 & E2')|(r4 & r4' & E2 & E2' & Hr4)]; rewrite E2 in Hs; rewrite E2'.
    2:{ injection Hs as <- <-. right. left. eauto. }
    destruct (after_struct_aligned "," _ _ M1 M2 Hr3)
      as [(E3 & E3')|(r4 & r4' & E3 & E3' & Hr4)]; rewrite E3 in Hs; rewrite E3';
      [discriminate|].
    apply skip_ws_aligned in Hr4. exact (IHmembers _ _ _ _ _ _ Hr4 Hs m' d'). }
  split; [|split; assumption].
  intros d s s' v r Ha Hs. cbn [scan_once] in Hs.
  destruct Ha as [Ha|(-> & ->)].
  2:{ left. unfold X in Hs. cbn [after_prefix DQ] in Hs.
      rewrite (Ascii.eqb_sym dquote c0), Cq, (Ascii.eqb_sym "{" c0), Cb,
        (Ascii.eqb_sym "[" c0), Ck in Hs.
      destruct (scan_constant (String c0 x)) as [[v1 r1]|] eqn:Ec; [|discriminate].
      injection Hs as <- <-. exact (scan_constant_X v1 r1 Ec). }
  right. intros [|m'] d'; [raises|]. cbn [scan_once].
  destruct (after_char_edited dquote s s' Ha)
    as [(E0 & E0')|(r0 & r0' & E0 & E0' & Hr0 & _)];
    unfold DQ in *; rewrite E0 in Hs; rewrite E0'.
  2:{ destruct (scanstring r0) as [[t r1]|] eqn:Et; [|discriminate].
      injection Hs as <- <-.
      destruct (scanstring_aligned _ _ _ _ Hr0 Et) as [(r1' & -> & Hr1)|(t' & tl & ->)];
        [right; left; eauto|right; right; eauto]. }
  destruct (after_char_edited "{" s s' Ha)
    as [(E1 & E1')|(r0 & r0' & E1 & E1' & Hr0 & _)]; rewrite E1 in Hs; rewrite E1'.
  2:{ destruct d as [|d]; [discriminate|]. destruct d' as [|d']; [raises|].
      apply skip_ws_aligned in Hr0.
      destruct (after_struct_aligned "}" _ _ B1 B2 Hr0)
        as [(E2 & E2')|(r1 & r1' & E2 & E2' & Hr1)]; rewrite E2 in Hs; rewrite E2'.
      - exact (IHmembers _ _ _ _ _ _ Hr0 Hs m' d').
      - injection Hs as <- <-. right. left. eauto. }
  destruct (after_char_edited "[" s s' Ha)
    as [(E2 & E2')|(r0 & r0' & E2 & E2' & Hr0 & _)]; rewrite E2 in Hs; rewrite E2'.
  2:{ destruct d as [|d]; [discriminate|]. destruct d' as [|d']; [raises|].
      apply skip_ws_aligned in Hr0.
      destruct (after_struct_aligned "]" _ _ K1 K2 Hr0)
        as [(E3 & E3')|(r1 & r1' & E3 & E3' & Hr1)]; rewrite E3 in Hs; rewrite E3'.
      - exact (IHelements _ _ _ _ _ _ Hr0 Hs m' d').
      - injection Hs as <- <-. right. left. eauto. }
  destruct (scan_constant_edited s s' Ha) as [(E3 & _)|(a & r1 & r1' & E3 & -> & Hr1)];
    rewrite E3 in Hs; [discriminate|].
  injection Hs as <- <-. right. left. exists r1'. split; [reflexivity|left; exact Hr1].
Qed.

End Survival.

Section QuoteKeysFacts.
Import Text Py Json Agent Props.

Lemma ident_char_facts (c : ascii) :
  is_ident_char c = true ->
  is_ws c = false
  /\ negb (Ascii.eqb c "," || Ascii.eqb c "}" || Ascii.eqb c "]") = true.
Proof.
  destruct c as [[] [] [] [] [] [] [] []]; vm_compute; intros H;
    first [discriminate H | split; reflexivity].
Qed.

Lemma space_facts (c : ascii) :
  is_space c = true ->
  is_alpha c = false
  /\ negb (Ascii.eqb c "," || Ascii.eqb c "}" || Ascii.eqb c "]") = true.
Proof.
  destruct c as [[] [] [] [] [] [] [] []]; vm_compute; intros H;
    first [discriminate H | split; reflexivity].
Qed.

Lemma stuck_at_colon (sp rest : string) :
  all_chars is_space sp = true -> stuck (sp ++ ":" ++ rest) = true.
Proof.
  induction sp as [|c sp IH]; intros H; [reflexivity|].
  cbn [all_chars] in H. apply andb_true_iff in H. destruct H as [Hc H].
  unfold stuck. cbn [append skip_ws]. destruct (is_ws c).
  - exact (IH H).
  - now apply space_facts.
Qed.

Lemma stuck_at_identifier (id sp rest : string) :
  all_chars is_ident_char id = true -> all_chars is_space sp = true ->
  stuck (id ++ sp ++ ":" ++ rest) = true.
Proof.
  destruct id as [|b id]; intros Hid Hsp; [now apply stuck_at_colon|].
  cbn [all_chars] in Hid. apply andb_true_iff in Hid. destruct Hid as [Hb _].
  destruct (ident_char_facts b Hb) as (Hw & Hn).
  unfold stuck. cbn [append skip_ws]. rewrite Hw. exact Hn.
Qed.

(** After a word read from the head of an identifier that is followed
    by a colon, no value can end. *)
Lemma stuck_after_word (L id sp rest r : string) :
  all_chars is_alpha L = true ->
  all_chars is_ident_char id = true -> all_chars is_space sp = true ->
  after_prefix L (id ++ sp ++ ":" ++ rest) = Some r -> stuck r = true.
Proof.
  revert id. induction L as [|a L IH]; intros id HL Hid Hsp H.
  - injection H as <-. now apply stuck_at_identifier.
  - cbn [all_chars] in HL. apply andb_true_iff in HL. destruct HL as [Ha HL].
    destruct id as [|b id].
    + exfalso. destruct sp as [|c sp]; cbn [append after_prefix] in H.
      * destruct (Ascii.eqb a ":") eqn:E; [|discriminate].
        apply Ascii.eqb_eq in E. subst a. discriminate.
      * destruct (Ascii.eqb a c) eqn:E; [|discriminate].
        apply Ascii.eqb_eq in E. subst a.
        cbn [all_chars] in Hsp. apply andb_true_iff in Hsp.
        destruct Hsp as [Hc _]. apply space_facts in Hc. destruct Hc. congruence.
    + cbn [append after_prefix] in H. destruct (Ascii.eqb a b); [|discriminate].
      cbn [all_chars] in Hid. apply andb_true_iff in Hid. destruct Hid as [_ Hid].
      exact (IH id HL Hid Hsp H).
Qed.

Lemma match_key_at_shape (s : string) (lead : ascii) (identifier rest : string) :
  match_key_at s = Some (lead, identifier, rest) ->
  exists c id sp,
    identifier = String c id
    /\ s = String lead (String c id ++ sp ++ ":" ++ rest)
    /\ is_key_lead lead = true /\ is_ident_start c = true
    /\ all_chars is_ident_char (String c id) = true
    /\ all_chars is_space sp = true.
Proof.
  unfold match_key_at. destruct s as [|l [|c r]]; try discriminate.
  destruct (is_key_lead l) eqn:El; [|discriminate].
  destruct (is_ident_start c) eqn:Ec; [|discriminate]. cbn [andb].
  destruct (span_split is_ident_char (String c r)) as (S1 & S2).
  destruct (span is_ident_char (String c r)) as [id r1] eqn:Es.
  cbn [fst snd] in S1, S2.
  destruct (span_split is_space r1) as (T1 & T2).
  destruct (span is_space r1) as [sp r2]. cbn [fst snd] in *.
  destruct r2 as [|colon rest0]; [discriminate|].
  destruct (Ascii.eqb colon ":") eqn:E.
  2:{ intros H. exfalso. revert H E. clear.
      destruct colon as [[] [] [] [] [] [] [] []]; vm_compute; congruence. }
  apply Ascii.eqb_eq in E. subst colon. intros H. injection H as <- <- <-.
  assert (Hid : exists id', id = String c id').
  { cbn [span] in Es. unfold is_ident_char in Es at 1. rewrite Ec in Es. cbn [orb] in Es.
    destruct (span is_ident_char r) as [run rst]. injection Es as <- _. eauto. }
  destruct Hid as (id' & ->).
  exists c, id', sp. repeat split; auto.
  rewrite S1, T1. reflexivity.
Qed.

(** The substitution leaves the text as it is, or its first match quotes
    an identifier that follows a lead character. *)
Lemma quote_keys_from_shape (n : nat) (s : string) :
  quote_keys_from n s = s
  \/ exists u lead c id sp rest tail,
       s = u ++ String lead (String c (id ++ sp ++ ":" ++ rest))
       /\ quote_keys_from n s = u ++ String lead (String dquote (String c (id ++ tail)))
       /\ is_key_lead lead = true /\ is_ident_start c = true
       /\ all_chars is_ident_char (String c id) = true
       /\ all_chars is_space sp = true.
Proof.
  revert s. induction n as [|n IH]; intros s; [left; reflexivity|].
  cbn [quote_keys_from].
  destruct (match_key_at s) as [[[lead identifier] rest]|] eqn:E.
  - right. destruct (match_key_at_shape _ _ _ _ E)
      as (c & id & sp & -> & -> & Hl & Hc & Hid & Hsp).
    exists EmptyString, lead, c, id, sp, rest,
      (DQ ++ ":" ++ quote_keys_from n rest).
    repeat split; auto. unfold DQ. cbn [append]. do 3 f_equal.
    now rewrite !append_assoc.
  - destruct s as [|a s]; [left; reflexivity|].
    destruct (IH s) as [->|(u & lead & c & id & sp & rest & tail & -> & -> & Hrest)];
      [left; reflexivity|right].
    exists (String a u), lead, c, id, sp, rest, tail. repeat split; tauto.
Qed.

Lemma aligned_not_blank (lead c0 : ascii) (x x' r r' : string) :
  is_ident_start c0 = true ->
  aligned lead (String c0 x) (String dquote (String c0 x')) r r' ->
  skip_ws r <> "".
Proof.
  intros Hc0 H.
  assert (Hlead : forall l, is_key_lead l = true -> True) by auto.
  enough (A : forall a a', aligned lead (String c0 x) (String dquote (String c0 x')) a a'
                           -> a <> "").
  { intros E. revert H. clear Hlead.
    intros [(u & -> & _)|(-> & _)].
    - revert E. induction u as [|d u IHu]; cbn [append skip_ws].
      + destruct (is_ws lead); [|discriminate].
        destruct (c0_facts c0 Hc0) as (-> & _). discriminate.
      + destruct (is_ws d); [exact IHu|discriminate].
    - revert E. cbn [skip_ws]. destruct (c0_facts c0 Hc0) as (-> & _). discriminate. }
  intros a a' [(u & -> & _)|(-> & _)]; [destruct u|]; discriminate.
Qed.

(** A text that decodes either is left as it is by the substitution, or
    no longer decodes once its keys are quoted, whatever the depth
    allowed. *)
Lemma loads_after_quote_keys (d d' : nat) (s : string) (v : value) :
  loads d s = Ok v -> quote_keys s = s \/ exists e, loads d' (quote_keys s) = Raise e.
Proof.
  intros Hv. unfold quote_keys.
  destruct (quote_keys_from_shape (String.length s) s)
    as [E|(u & lead & c0 & id & sp & rest & tail & Hs & -> & Hl & Hc & Hid & Hsp)];
    [left; exact E|right].
  set (x := id ++ sp ++ ":" ++ rest) in *. set (x' := id ++ tail).
  set (s' := u ++ String lead (String dquote (String c0 x'))).
  assert (Ha : aligned lead (String c0 x) (String dquote (String c0 x')) s s')
    by (left; exists u; split; [exact Hs|reflexivity]).
  assert (Hstuck : forall L r, all_chars is_alpha L = true ->
            after_prefix L (String c0 x) = Some r -> stuck r = true).
  { intros L r HL. apply (stuck_after_word L (String c0 id) sp rest r HL Hid Hsp). }
  apply (skip_ws_aligned lead c0 x x' Hc) in Ha.
  unfold loads in Hv |- *.
  destruct (scan_once _ d (skip_ws s)) as [[v0 r]|e0] eqn:E; [|discriminate].
  destruct (skip_ws r) eqn:Er; [|discriminate]. injection Hv as ->.
  destruct (scan_survival lead c0 x x' Hl Hc Hstuck (2 * String.length s + 2))
    as (Once & _ & _).
  destruct (Once _ _ _ _ _ Ha E) as [St|Out].
  { destruct (stuck_blocks r St) as (_ & _ & _ & Hne). contradiction. }
  destruct (Out (2 * String.length s' + 2)%nat d')
    as [(e1 & ->)|[(r' & -> & Hr)|(v' & t & ->)]].
  - eauto.
  - exfalso. exact (aligned_not_blank lead c0 x x' r r' Hc Hr Er).
  - destruct (ident_blocks c0 Hc t) as (-> & _). eauto.
Qed.

End QuoteKeysFacts.

Section FuelFacts.
Import Text Py Json Agent Props.

Lemma length_append (a b : string) :
  String.length (a ++ b) = (String.length a + String.length b)%nat.
Proof. induction a; cbn; congruence. Qed.

Lemma after_prefix_length (L s r : string) :
  after_prefix L s = Some r ->
  String.length s = (String.length L + String.length r)%nat.
Proof.
  revert s. induction L as [|a L IH]; intros s H.
  - injection H as <-. reflexivity.
  - destruct s as [|b s]; [discriminate|]. cbn [after_prefix] in H.
    destruct (Ascii.eqb a b); [|discriminate]. cbn. f_equal. now apply IH.
Qed.

Lemma skip_ws_length (s : string) :
  (String.length (skip_ws s) <= String.length s)%nat.
Proof.
  induction s as [|c s IH]; [cbn; lia|]. cbn [skip_ws].
  destruct (is_ws c); cbn in *; lia.
Qed.

Lemma span_length (p : ascii -> bool) (s : string) :
  String.length s
  = (String.length (fst (span p s)) + String.length (snd (span p s)))%nat.
Proof.
  destruct (span_split p s) as (E & _). rewrite E at 1. apply length_append.
Qed.


Lemma scan_units_length (n : nat) :
  forall s acc us r,
    (String.length s <= n)%nat -> scan_units s acc = Some (us, r) ->
    (String.length r < String.length s)%nat.
Proof.
  induction n as [n IH] using lt_wf_ind.
  intros s acc us r Hn H. destruct s as [|c t]; [discriminate|].
  cbn [scan_units] in H. destruct (Ascii.eqb c dquote).
  { injection H as _ <-. cbn. lia. }
  destruct (Ascii.eqb c backslash).
  - destruct t as [|e t1]; [discriminate|]. destruct (Ascii.eqb e "u").
    + destruct t1 as [|h1 [|h2 [|h3 [|h4 t2]]]]; try discriminate.
      destruct (hex4 h1 h2 h3 h4); [|discriminate].
      apply (IH (String.length t2)) in H; cbn in *; lia.
    + destruct (unescape e); [|discriminate].
      apply (IH (String.length t1)) in H; cbn in *; lia.
  - destruct (code c <? 32)%nat; [discriminate|].
    apply (IH (String.length t)) in H; cbn in *; lia.
Qed.

Lemma scanstring_length (s t r : string) :
  scanstring s = Some (t, r) -> (String.length r < String.length s)%nat.
Proof.
  unfold scanstring. destruct (scan_units s []) as [[us r0]|] eqn:E; [|discriminate].
  intros H. injection H as _ <-. exact (scan_units_length _ _ _ _ _ (le_n _) E).
Qed.

Lemma scan_integer_length (s i r : string) :
  scan_integer s = Some (i, r) -> (String.length r < String.length s)%nat.
Proof.
  unfold scan_integer.
  assert (B : exists sign b,
    (match after_prefix "-" s with Some r => ("-", r) | None => (EmptyString, s) end)
      = (sign, b) /\ (String.length b <= String.length s)%nat).
  { destruct (after_prefix "-" s) as [r0|] eqn:E; [|eauto].
    apply after_prefix_length in E. exists "-", r0. split; [reflexivity|cbn in E; lia]. }
  destruct B as (sign & b & -> & Hb).
  destruct (after_prefix "0" b) as [r0|] eqn:E0.
  - intros H. injection H as _ <-. apply after_prefix_length in E0. cbn in E0. lia.
  - pose proof (span_length is_digit b) as Hs.
    destruct (span is_digit b) as [ds rest]. cbn [fst snd] in Hs.
    destruct ds; [discriminate|]. intros H. injection H as _ <-. cbn in Hs. lia.
Qed.

Lemma scan_fraction_length (s : string) :
  (String.length (snd (scan_fraction s)) <= String.length s)%nat.
Proof.
  unfold scan_fraction. destruct (after_prefix "." s) as [r0|] eqn:E; [|cbn; lia].
  apply after_prefix_length in E. pose proof (span_length is_digit r0) as Hs.
  destruct (span is_digit r0) as [ds rest]. cbn [fst snd] in Hs.
  destruct ds; cbn [snd]; cbn in *; lia.
Qed.

Lemma scan_exponent_length (s : string) :
  (String.length (snd (scan_exponent s)) <= String.length s)%nat.
Proof.
  unfold scan_exponent.
  assert (M : forall e r,
    match after_prefix "e" s with
    | Some r => Some ("e", r)
    | None => match after_prefix "E" s with Some r => Some ("E", r) | None => None end
    end = Some (e, r) -> (String.length r < String.length s)%nat).
  { intros e r. destruct (after_prefix "e" s) as [r0|] eqn:E1.
    - intros H. injection H as _ <-. apply after_prefix_length in E1. cbn in E1. lia.
    - destruct (after_prefix "E" s) as [r0|] eqn:E2; [|discriminate].
      intros H. injection H as _ <-. apply after_prefix_length in E2. cbn in E2. lia. }
  destruct (match after_prefix "e" s with Some _ => _ | None => _ end)
    as [[e r]|]; [|cbn; lia].
  specialize (M e r eq_refl).
  assert (B : exists sign b,
    match after_prefix "-" r with
    | Some b => ("-", b)
    | None => match after_prefix "+" r with Some b => ("+", b) | None => (EmptyString, r) end
    end = (sign, b) /\ (String.length b <= String.length r)%nat).
  { destruct (after_prefix "-" r) as [b|] eqn:E1.
    - apply after_prefix_length in E1. exists "-", b. split; [reflexivity|cbn in E1; lia].
    - destruct (after_prefix "+" r) as [b|] eqn:E2; [|eauto].
      apply after_prefix_length in E2. exists "+", b. split; [reflexivity|cbn in E2; lia]. }
  destruct B as (sign & b & -> & Hb).
  pose proof (span_length is_digit b) as Hs.
  destruct (span is_digit b) as [ds rest]. cbn [fst snd] in Hs.
  destruct ds; cbn [snd]; cbn in *; lia.
Qed.

Lemma scan_number_length (s : string) (v : value) (r : string) :
  scan_number s = Some (v, r) -> (String.length r < String.length s)%nat.
Proof.
  unfold scan_number. destruct (scan_integer s) as [[i r1]|] eqn:E; [|discriminate].
  apply scan_integer_length in E.
  pose proof (scan_fraction_length r1) as F.
  destruct (scan_fraction r1) as [f r2]. cbn [snd] in F.
  pose proof (scan_exponent_length r2) as G.
  destruct (scan_exponent r2) as [e r3]. cbn [snd] in G.
  destruct f, e; [destruct (max_str_digits <? digits i)%nat; [discriminate|]|..];
    intros H; injection H as _ <-; lia.
Qed.

Lemma scan_constant_length (s : string) (v : value) (r : string) :
  scan_constant s = Some (v, r) -> (String.length r < String.length s)%nat.
Proof.
  unfold scan_constant.
  repeat match goal with
  | |- match after_prefix ?L s with Some _ => _ | None => _ end = _ -> _ =>
      let E := fresh "E" in
      destruct (after_prefix L s) eqn:E;
        [intros H; injection H as _ <-; apply after_prefix_length in E; cbn in E; lia|]
  | |- match scan_number s with Some _ => _ | None => _ end = _ -> _ =>
      let E := fresh "E" in
      destruct (scan_number s) as [[? ?]|] eqn:E;
        [intros H; injection H as _ <-; exact (scan_number_length _ _ _ E)|]
  end.
  discriminate.
Qed.

(** A value that is read with some fuel is read with any fuel that is
    at least twice the number of characters it takes. *)
Lemma scan_fuel (n : nat) :
  (forall d s v r, scan_once n d s = Ok (v, r) ->
     (String.length r < String.length s)%nat
     /\ forall m, (2 * (String.length s - String.length r) <= m)%nat ->
                  scan_once m d s = Ok (v, r))
  /\ (forall d s acc v r, scan_members n d s acc = Ok (v, r) ->
        (String.length r < String.length s)%nat
        /\ forall m, (2 * (String.length s - String.length r) + 1 <= m)%nat ->
                     scan_members m d s acc = Ok (v, r))
  /\ (forall d s acc v r, scan_elements n d s acc = Ok (v, r) ->
        (String.length r < String.length s)%nat
        /\ forall m, (2 * (String.length s - String.length r) + 1 <= m)%nat ->
                     scan_elements m d s acc = Ok (v, r)).
Proof.
  induction n as [|n (IHonce & IHmembers & IHelements)];
    [repeat split; discriminate|].
  split; [|split].
  - intros d s v r H. cbn [scan_once] in H.
    destruct (after_prefix DQ s) as [r0|] eqn:E0.
    { pose proof (after_prefix_length _ _ _ E0) as L0. cbn in L0.
      destruct (scanstring r0) as [[t rest]|] eqn:Et; [|discriminate].
      injection H as <- <-. pose proof (scanstring_length _ _ _ Et).
      split; [lia|]. intros [|m] Hm; [lia|]. cbn [scan_once].
      now rewrite E0, Et. }
    destruct (after_prefix "{" s) as [r0|] eqn:E1.
    { pose proof (after_prefix_length _ _ _ E1) as L1. cbn in L1.
      pose proof (skip_ws_length r0) as W.
      destruct d as [|d]; [discriminate|].
      destruct (after_prefix "}" (skip_ws r0)) as [rest|] eqn:E2.
      - pose proof (after_prefix_length _ _ _ E2) as L2. cbn in L2.
        injection H as <- <-. split; [lia|]. intros [|m] Hm; [lia|].
        cbn [scan_once]. now rewrite E0, E1, E2.
      - destruct (IHmembers _ _ _ _ _ H) as (Lm & Fm). split; [lia|].
        intros [|m] Hm; [lia|]. cbn [scan_once]. rewrite E0, E1, E2.
        apply Fm. lia. }
    destruct (after_prefix "[" s) as [r0|] eqn:E2.
    { pose proof (after_prefix_length _ _ _ E2) as L1. cbn in L1.
      pose proof (skip_ws_length r0) as W.
      destruct d as [|d]; [discriminate|].
      destruct (after_prefix "]" (skip_ws r0)) as [rest|] eqn:E3.
      - pose proof (after_prefix_length _ _ _ E3) as L2. cbn in L2.
        injection H as <- <-. split; [lia|]. intros [|m] Hm; [lia|].
        cbn [scan_once]. now rewrite E0, E1, E2, E3.
      - destruct (IHelements _ _ _ _ _ H) as (Lm & Fm). split; [lia|].
        intros [|m] Hm; [lia|]. cbn [scan_once]. rewrite E0, E1, E2, E3.
        apply Fm. lia. }
    destruct (scan_constant s) as [[v1 r1]|] eqn:Ec; [|discriminate].
    injection H as <- <-.
    pose proof (scan_constant_length _ _ _ Ec). split; [lia|].
    intros [|m] Hm; [lia|]. cbn [scan_once]. now rewrite E0, E1, E2, Ec.
  - intros d s acc v r H. cbn [scan_members] in H.
    destruct (after_prefix DQ s) as [r0|] eqn:E0; [|discriminate].
    pose proof (after_prefix_length _ _ _ E0) as L0. cbn in L0.
    destruct (scanstring r0) as [[k r1]|] eqn:Ek; [|discriminate].
    pose proof (scanstring_length _ _ _ Ek) as Lk.
    pose proof (skip_ws_length r1) as W1.
    destruct (after_prefix ":" (skip_ws r1)) as [r2|] eqn:E1; [|discriminate].
    pose proof (after_prefix_length _ _ _ E1) as L1. cbn in L1.
    pose proof (skip_ws_length r2) as W2.
    destruct (scan_once n d (skip_ws r2)) as [[v0 r3]|e0] eqn:Ev; [|discriminate].
    destruct (IHonce _ _ _ _ Ev) as (Lv & Fv).
    pose proof (skip_ws_length r3) as W3.
    destruct (after_prefix "}" (skip_ws r3)) as [rest|] eqn:E2.
    + pose proof (after_prefix_length _ _ _ E2) as L2. cbn in L2.
      injection H as <- <-. split; [lia|]. intros [|m] Hm; [lia|].
      cbn [scan_members]. rewrite E0, Ek, E1, (Fv m) by lia. now rewrite E2.
    + destruct (after_prefix "," (skip_ws r3)) as [r4|] eqn:E3; [|discriminate].
      pose proof (after_prefix_length _ _ _ E3) as L3. cbn in L3.
      pose proof (skip_ws_length r4) as W4.
      destruct (IHmembers _ _ _ _ _ H) as (Lm & Fm). split; [lia|].
      intros [|m] Hm; [lia|].
      cbn [scan_members]. rewrite E0, Ek, E1, (Fv m) by lia. rewrite E2, E3.
      apply Fm. lia.
  - intros d s acc v r H. cbn [scan_elements] in H.
    destruct (scan_once n d s) as [[v0 r1]|e0] eqn:Ev; [|discriminate].
    destruct (IHonce _ _ _ _ Ev) as (Lv & Fv).
    pose proof (skip_ws_length r1) as W1.
    destruct (after_prefix "]" (skip_ws r1)) as [rest|] eqn:E1.
    + pose proof (after_prefix_length _ _ _ E1) as L1. cbn in L1.
      injection H as <- <-. split; [lia|]. intros [|m] Hm; [lia|].
      cbn [scan_elements]. rewrite (Fv m) by lia. now rewrite E1.
    + destruct (after_prefix "," (skip_ws r1)) as [r2|] eqn:E2; [|discriminate].
      pose proof (after_prefix_length _ _ _ E2) as L2. cbn in L2.
      pose proof (skip_ws_length r2) as W2.
      destruct (IHelements _ _ _ _ _ H) as (Le & Fe). split; [lia|].
      intros [|m] Hm; [lia|].
      cbn [scan_elements]. rewrite (Fv m) by lia. rewrite E1, E2.
      apply Fe. lia.
Qed.

(** A [RecursionError] that is raised with some fuel is raised with any
    fuel that is at least twice the length of the text. *)
Lemma scan_fuel_recursion (n : nat) :
  (forall d s, scan_once n d s = Raise Recursion_error ->
     forall m, (2 * String.length s <= m)%nat ->
               scan_once m d s = Raise Recursion_error)
  /\ (forall d s acc, scan_members n d s acc = Raise Recursion_error ->
        forall m, (2 * String.length s + 1 <= m)%nat ->
                  scan_members m d s acc = Raise Recursion_error)
  /\ (forall d s acc, scan_elements n d s acc = Raise Recursion_error ->
        forall m, (2 * String.length s + 1 <= m)%nat ->
                  scan_elements m d s acc = Raise Recursion_error).
Proof.
  induction n as [|n (IHonce & IHmembers & IHelements)];
    [repeat split; discriminate|].
  destruct (scan_fuel n) as (Fonce & _ & _).
  split; [|split].
  - intros d s H. cbn [scan_once] in H.
    destruct (after_prefix DQ s) as [r0|] eqn:E0.
    { destruct (scanstring r0) as [[t rest]|]; discriminate. }
    destruct (after_prefix "{" s) as [r0|] eqn:E1.
    { pose proof (after_prefix_length _ _ _ E1) as L1. cbn in L1.
      pose proof (skip_ws_length r0) as W.
      intros [|m] Hm; [lia|]. cbn [scan_once]. rewrite E0, E1.
      destruct d as [|d]; [reflexivity|].
      destruct (after_prefix "}" (skip_ws r0)) as [rest|] eqn:E2; [discriminate|].
      apply (IHmembers _ _ _ H). lia. }
    destruct (after_prefix "[" s) as [r0|] eqn:E2.
    { pose proof (after_prefix_length _ _ _ E2) as L1. cbn in L1.
      pose proof (skip_ws_length r0) as W.
      intros [|m] Hm; [lia|]. cbn [scan_once]. rewrite E0, E1, E2.
      destruct d as [|d]; [reflexivity|].
      destruct (after_prefix "]" (skip_ws r0)) as [rest|] eqn:E3; [discriminate|].
      apply (IHelements _ _ _ H). lia. }
    destruct (scan_constant s) as [[v1 r1]|]; discriminate.
  - intros d s acc H. cbn [scan_members] in H.
    destruct (after_prefix DQ s) as [r0|] eqn:E0; [|discriminate].
    pose proof (after_prefix_length _ _ _ E0) as L0. cbn in L0.
    destruct (scanstring r0) as [[k r1]|] eqn:Ek; [|discriminate].
    pose proof (scanstring_length _ _ _ Ek) as Lk.
    pose proof (skip_ws_length r1) as W1.
    destruct (after_prefix ":" (skip_ws r1)) as [r2|] eqn:E1; [|discriminate].
    pose proof (after_prefix_length _ _ _ E1) as L1. cbn in L1.
    pose proof (skip_ws_length r2) as W2.
    intros [|m] Hm; [lia|]. cbn [scan_members]. rewrite E0, Ek, E1.
    destruct (scan_once n d (skip_ws r2)) as [[v0 r3]|e0] eqn:Ev.
    + destruct (Fonce _ _ _ _ Ev) as (Lv & Fv). rewrite (Fv m) by lia.
      pose proof (skip_ws_length r3) as W3.
      destruct (after_prefix "}" (skip_ws r3)) as [rest|] eqn:E2; [discriminate|].
      destruct (after_prefix "," (skip_ws r3)) as [r4|] eqn:E3; [|discriminate].
      pose proof (after_prefix_length _ _ _ E3) as L3. cbn in L3.
      pose proof (skip_ws_length r4) as W4.
      apply (IHmembers _ _ _ H). lia.
    + injection H as ->. rewrite (IHonce _ _ Ev m) by lia. reflexivity.
  - intros d s acc H. cbn [scan_elements] in H.
    intros [|m] Hm; [lia|]. cbn [scan_elements].
    destruct (scan_once n d s) as [[v0 r1]|e0] eqn:Ev.
    + destruct (Fonce _ _ _ _ Ev) as (Lv & Fv). rewrite (Fv m) by lia.
      pose proof (skip_ws_length r1) as W1.
      destruct (after_prefix "]" (skip_ws r1)) as [rest|] eqn:E1; [discriminate|].
      destruct (after_prefix "," (skip_ws r1)) as [r2|] eqn:E2; [|discriminate].
      pose proof (after_prefix_length _ _ _ E2) as L2. cbn in L2.
      pose proof (skip_ws_length r2) as W2.
      apply (IHelements _ _ _ H). lia.
    + injection H as ->. rewrite (IHonce _ _ Ev m) by lia. reflexivity.
Qed.

(** The fuel of [loads] is enough: a text that the scanner decodes with
    some fuel is decoded by [loads], to the same value; a text on which
    the scanner raises [RecursionError] with some fuel raises it in
    [loads]. *)
Lemma loads_fuel_enough (n d : nat) (s : string) (v : value) (r : string) :
  scan_once n d (skip_ws s) = Ok (v, r) -> skip_ws r = "" -> loads d s = Ok v.
Proof.
  intros H Hr. unfold loads. destruct (scan_fuel n) as (Once & _ & _).
  destruct (Once _ _ _ _ H) as (_ & F). pose proof (skip_ws_length s).
  rewrite F by lia. now rewrite Hr.
Qed.

Lemma loads_recursion_fuel_enough (n d : nat) (s : string) :
  scan_once n d (skip_ws s) = Raise Recursion_error ->
  loads d s = Raise Recursion_error.
Proof.
  intros H. unfold loads. destruct (scan_fuel_recursion n) as (Once & _ & _).
  pose proof (skip_ws_length s). rewrite (Once _ _ H) by lia. reflexivity.
Qed.

(** A text on which [loads] raises [ValueError] is rejected with any
    fuel. *)
Lemma loads_rejects (n d : nat) (s : string) :
  loads d s = Raise Value_error ->
  match scan_once n d (skip_ws s) with
  | Ok (_, r) => skip_ws r <> ""
  | Raise e => e = Value_error
  end.
Proof.
  intros H. destruct (scan_once n d (skip_ws s)) as [[v r]|[|]] eqn:E.
  - intros Hr. rewrite (loads_fuel_enough n d s v r E Hr) in H. discriminate.
  - reflexivity.
  - rewrite (loads_recursion_fuel_enough n d s E) in H. discriminate.
Qed.

End FuelFacts.

Section ParserClaims.
Import Text Py Agent Props.

(** C8.  When the text holds a command and the bracket counter does not
    come back to zero, the parser does not raise.  The argument is what
    [json.loads] decodes from the span that runs from the first opening
    bracket to the last closing bracket of the text after the command,
    once its keys are quoted; it is the empty default, an empty object
    for find and count and an empty sequence for aggregate, when
    [json.loads] raises, and so when there is no closing bracket at all.
    The command is then run with that argument. *)
Theorem unclosed_bracket_falls_back (w : world)
        (query_code collection_name content : string) (op : operation) (start : nat) :
  search_command query_code = Some (collection_name, op, content) ->
  find_char (opening_of op) content = Some start ->
  count_brackets (opening_of op) (closing_of op) (drop start content) [] 0 = Unclosed ->
  forall (stop : nat) (span : string),
    stop = match rfind_char (closing_of op) content with
           | Some last => (last + 1)%nat
           | None => 0%nat
           end ->
    span = slice start stop content ->
    (forall v, Json.loads (recursion_limit w) (quote_keys span) = Json.Ok v ->
       recover w query_code
       = Command collection_name op v [Loads_clean (quote_keys span)]
       /\ run_query_code w query_code = dispatch w query_code collection_name op v)
    /\ (forall e, Json.loads (recursion_limit w) (quote_keys span) = Json.Raise e ->
          recover w query_code
          = Command collection_name op
                    match op with Op_aggregate => VList [] | _ => VDict [] end
                    [Loads_clean (quote_keys span); Default_value]
          /\ run_query_code w query_code
             = dispatch w query_code collection_name op
                        match op with Op_aggregate => VList [] | _ => VDict [] end)
    /\ (rfind_char (closing_of op) content = None ->
        recover w query_code
        = Command collection_name op
                  match op with Op_aggregate => VList [] | _ => VDict [] end
                  [Loads_clean ""; Default_value])
    /\ forall e, recover w query_code <> Parser_raised e.
Proof.
  intros Hcmd Hstart Hscan stop span -> ->.
  assert (R : recover w query_code
              = let '(argument, attempts) :=
                  decode_unclosed w (default_of op)
                    (slice start
                           match rfind_char (closing_of op) content with
                           | Some last => (last + 1)%nat
                           | None => 0%nat
                           end content) in
                Command collection_name op argument attempts).
  { unfold recover, extract_argument. rewrite Hcmd, Hstart, Hscan. reflexivity. }
  assert (D : match op with Op_aggregate => VList [] | _ => VDict [] end = default_of op)
    by (destruct op; reflexivity).
  rewrite D. unfold run_query_code. rewrite R. unfold decode_unclosed.
  split; [|split; [|split]].
  - intros v ->. split; reflexivity.
  - intros e ->. split; reflexivity.
  - intros ->. rewrite slice_to_zero. reflexivity.
  - intros e. destruct (Json.loads _ _); discriminate.
Qed.

Lemma unclosed_bracket_falls_back_witness :
  recover (a_world "" 0) (bq "db.orders.find({`a`: `{`}) and more")
  = Command "orders" Op_find (VDict [("a", VStr "{")]) [Loads_clean (bq "{`a`: `{`}")]
  /\ run_query_code (a_world "" 0) (bq "db.orders.find({`a`: `{`}) and more")
     = dispatch (a_world "" 0) (bq "db.orders.find({`a`: `{`}) and more")
                "orders" Op_find (VDict [("a", VStr "{")]).
Proof.
  refine (proj1 (unclosed_bracket_falls_back (a_world "" 0)
                   (bq "db.orders.find({`a`: `{`}) and more") "orders"
                   (bq "{`a`: `{`}) and more") Op_find 0 _ _ _
                   10 (bq "{`a`: `{`}") _ _)
                (VDict [("a", VStr "{")]) _);
    vm_compute; reflexivity.
Defined.

(** X27. The value that is decoded does not depend on which of the two
    orders is followed, trying the rewritten span first or the span as
    it is first, but in one case: when [json.loads] raises on the
    rewritten span and raises [RecursionError] on the span as it is, the
    code raises, where the specified order would go on to the literal
    evaluator. *)
Lemma decode_closed_value_as_specified (w : world) (default : value) (span : string) :
  fst (decode_closed w default span) = fst (decode_as_specified w default span)
  \/ ((exists e, Json.loads (recursion_limit w) (quote_keys span) = Json.Raise e)
      /\ Json.loads (recursion_limit w) span = Json.Raise Json.Recursion_error
      /\ fst (decode_closed w default span) = Json.Raise Json.Recursion_error).
Proof.
  unfold decode_closed, decode_as_specified.
  destruct (Json.loads (recursion_limit w) span) as [v|[|]] eqn:E.
  - left.
    destruct (loads_after_quote_keys _ (recursion_limit w) span v E) as [-> | (e & ->)];
      [rewrite E|]; reflexivity.
  - left. destruct (Json.loads _ (quote_keys span)); [reflexivity|].
    destruct (literal_eval w span); reflexivity.
  - destruct (Json.loads _ (quote_keys span)) as [v|e] eqn:Q; [left; reflexivity|].
    right. eauto.
Qed.

(** C6, as amended.  For a span that the bracket counter closed, the
    decodings are tried in this order: the span with its bare keys
    quoted, then the span as it is, then the literal evaluator, then the
    empty default.  The second is tried after any exception of the
    first; the third only after a [ValueError] of the second, whose
    [RecursionError] leaves the parser; the default after any exception
    of the third.  A span that [json.loads] decodes as it is decodes to
    its own value: at the first attempt when the substitution leaves it
    unchanged, at the second otherwise, [json.loads] then raising on the
    rewritten span. *)
Theorem decode_closed_order (w : world) (default : value) (span : string) :
  (forall v, Json.loads (recursion_limit w) (quote_keys span) = Json.Ok v ->
     decode_closed w default span = (Json.Ok v, [Loads_clean (quote_keys span)]))
  /\ (forall e v, Json.loads (recursion_limit w) (quote_keys span) = Json.Raise e ->
        Json.loads (recursion_limit w) span = Json.Ok v ->
        decode_closed w default span
        = (Json.Ok v, [Loads_clean (quote_keys span); Loads_original span]))
  /\ (forall e, Json.loads (recursion_limit w) (quote_keys span) = Json.Raise e ->
        Json.loads (recursion_limit w) span = Json.Raise Json.Recursion_error ->
        decode_closed w default span
        = (Json.Raise Json.Recursion_error,
           [Loads_clean (quote_keys span); Loads_original span]))
  /\ (forall e v, Json.loads (recursion_limit w) (quote_keys span) = Json.Raise e ->
        Json.loads (recursion_limit w) span = Json.Raise Json.Value_error ->
        literal_eval w span = Some v ->
        decode_closed w default span
        = (Json.Ok v,
           [Loads_clean (quote_keys span); Loads_original span; Literal_eval span]))
  /\ (forall e, Json.loads (recursion_limit w) (quote_keys span) = Json.Raise e ->
        Json.loads (recursion_limit w) span = Json.Raise Json.Value_error ->
        literal_eval w span = None ->
        decode_closed w default span
        = (Json.Ok default,
           [Loads_clean (quote_keys span); Loads_original span;
            Literal_eval span; Default_value]))
  /\ (forall v, Json.loads (recursion_limit w) span = Json.Ok v ->
        (quote_keys span = span
         /\ decode_closed w default span = (Json.Ok v, [Loads_clean span]))
        \/ ((exists e, Json.loads (recursion_limit w) (quote_keys span) = Json.Raise e)
            /\ decode_closed w default span
               = (Json.Ok v, [Loads_clean (quote_keys span); Loads_original span]))).
Proof.
  unfold decode_closed. repeat split.
  - intros v ->. reflexivity.
  - intros e v -> ->. reflexivity.
  - intros e -> ->. reflexivity.
  - intros e v -> -> ->. reflexivity.
  - intros e -> -> ->. reflexivity.
  - intros v E.
    destruct (loads_after_quote_keys _ (recursion_limit w) span v E) as [Q | (e & Q)].
    + left. rewrite Q, E. auto.
    + right. rewrite Q, E. eauto.
Qed.

Lemma decode_closed_order_witness :
  decode_closed (a_world "" 0) (VDict []) (bq "{`status`: `pending`}")
  = (Json.Ok (VDict [("status", VStr "pending")]),
     [Loads_clean (bq "{`status`: `pending`}")])
  /\ decode_closed (a_world "" 0) (VDict []) (bq "{`note`: `a b: c`}")
     = (Json.Ok (VDict [("note", VStr "a b: c")]),
        [Loads_clean (quote_keys (bq "{`note`: `a b: c`}"));
         Loads_original (bq "{`note`: `a b: c`}")]).
Proof.
  split.
  - refine (proj1 (decode_closed_order (a_world "" 0) (VDict [])
                     (bq "{`status`: `pending`}"))
                  (VDict [("status", VStr "pending")]) _).
    vm_compute. reflexivity.
  - refine (proj1 (proj2 (decode_closed_order (a_world "" 0) (VDict [])
                            (bq "{`note`: `a b: c`}")))
                  Json.Value_error (VDict [("note", VStr "a b: c")]) _ _);
      vm_compute; reflexivity.
Defined.

(** C6 as it is stated fails: on a span with quoted keys that is valid
    as it is, the first decoding that is tried is that of the rewritten
    span, and it fails; the span as it is comes second. *)
Lemma rewritten_span_is_decoded_first :
  ~ decoding_order_claim (a_world "" 0) (VDict []) (bq "{`note`: `a b: c`}").
Proof. unfold decoding_order_claim. vm_compute. discriminate. Qed.

End ParserClaims.

(* ================================================================== *)
(** * Further properties of the generator *)
(* ================================================================== *)

Section GeneratorMoreFacts.
Import Text Py Generator Props More.

Lemma mem_In (x : string) (l : list string) : mem x l = true -> In x l.
Proof.
  unfold mem; rewrite existsb_exists; intros [y [Hy E]].
  apply String.eqb_eq in E; subst; exact Hy.
Qed.

Lemma dict_set_In (k k' : string) (v v' : value) (d : dict) :
  In (k', v') (dict_set k v d) -> (k' = k /\ v' = v) \/ In (k', v') d.
Proof.
  induction d as [|[k0 v0] d IH]; simpl.
  - intros [E|[]]; inversion E; auto.
  - destruct (String.eqb k k0) eqn:Ek; simpl.
    + apply String.eqb_eq in Ek; subst k0.
      intros [E|H]; [inversion E; auto | auto].
    + intros [E|H]; [auto | destruct (IH H); auto].
Qed.

(** The entries of the match stage: the status filter and the range of
    the year on the first date field, nothing else. *)
Lemma match_stage_entries (md : metadata) (collection question : string) (i : intent)
      (m : dict) (k : string) (v : value) :
  build_match_stage md collection i (_extract_filters question) = Some m ->
  In (k, v) m ->
  (k = "status" /\ exists s, v = VStr s /\ In s statuses
                             /\ _has_field md collection "status" = true)
  \/ (exists Y y, v = year_range Y /\ (2000 <= Y <= 2099)%Z
                  /\ search_year question = Some y /\ int_of y = Some Y
                  /\ hd_error (_find_date_fields md collection) = Some k).
Proof.
  unfold build_match_stage; cbn [year status _extract_filters].
  assert (Hyear : forall m0,
    match search_year question with
    | Some y =>
        match int_of y with
        | None => None
        | Some year =>
            match _find_date_fields md collection with
            | date_field :: _ =>
                Some (dict_set date_field
                        (VDict [("$gte", VDatetime year 1 1);
                                ("$lt", VDatetime (year + 1) 1 1)]) [])
            | [] => Some []
            end
        end
    | None => Some []
    end = Some m0 ->
    forall k v, In (k, v) m0 ->
      exists Y y, v = year_range Y /\ (2000 <= Y <= 2099)%Z
                  /\ search_year question = Some y /\ int_of y = Some Y
                  /\ hd_error (_find_date_fields md collection) = Some k).
  { intros m0 H0 k0 v0 Hin.
    destruct (search_year question) as [y|] eqn:Ey.
    - destruct (search_year_int _ _ Ey) as [Y [HY R]]; rewrite HY in H0.
      destruct (_find_date_fields md collection) as [|f fs].
      + inversion H0; subst; destruct Hin.
      + inversion H0; subst; simpl in Hin; destruct Hin as [E|[]].
        inversion E; subst. exists Y, y; repeat split; auto; lia.
    - inversion H0; subst; destruct Hin. }
  match goal with
  | |- match ?w with _ => _ end = _ -> _ => destruct w as [m0|] eqn:Ew
  end; [|discriminate].
  specialize (Hyear m0 eq_refl).
  assert (Hset : forall s, In s statuses ->
            _has_field md collection "status" = true ->
            In (k, v) (dict_set "status" (VStr s) m0) ->
            (k = "status" /\ exists s, v = VStr s /\ In s statuses
                             /\ _has_field md collection "status" = true)
            \/ (exists Y y, v = year_range Y /\ (2000 <= Y <= 2099)%Z
                  /\ search_year question = Some y /\ int_of y = Some Y
                  /\ hd_error (_find_date_fields md collection) = Some k)).
  { intros s Hs Hf Hin. apply dict_set_In in Hin. destruct Hin as [[-> ->]|Hin].
    - left; split; [reflexivity|]. exists s; auto.
    - right; apply Hyear; exact Hin. }
  destruct (contains "completed" (lower question)).
  { destruct (_has_field md collection "status") eqn:Hf; intros H Hin; inversion H; subst.
    - apply (Hset "completed"); simpl; auto.
    - right; apply Hyear; exact Hin. }
  destruct (contains "pending" (lower question)).
  { destruct (_has_field md collection "status") eqn:Hf; intros H Hin; inversion H; subst.
    - apply (Hset "pending"); simpl; auto.
    - right; apply Hyear; exact Hin. }
  destruct (contains "cancelled" (lower question)).
  { destruct (_has_field md collection "status") eqn:Hf; intros H Hin; inversion H; subst.
    - apply (Hset "cancelled"); simpl; auto.
    - right; apply Hyear; exact Hin. }
  destruct (intent_eqb i I_aggregate_sum && _has_field md collection "status") eqn:Hb;
    intros H Hin; inversion H; subst.
  - apply andb_true_iff in Hb; destruct Hb as [_ Hf].
    apply (Hset "completed"); simpl; auto.
  - right; apply Hyear; exact Hin.
Qed.

(** Values that the encoder can write: no native identifier inside *)
Lemma all_some_total {A : Type} (l : list (option A)) :
  Forall (fun o => o <> None) l -> all_some l <> None.
Proof.
  induction 1 as [|o l Ho _ IH]; simpl; [discriminate|].
  destruct o as [a|]; [|congruence].
  destruct (all_some l); [discriminate | congruence].
Qed.

Lemma dumps_encodable (v : value) : has_object_id v = false -> dumps v <> None.
Proof.
  induction v as [| b | z | n | s | l IH | d IH | y m d0 | h] using value_ind;
    simpl; intros H; try discriminate.
  - destruct b; discriminate.
  - assert (all_some (map dumps l) <> None).
    { apply all_some_total. induction IH as [|x l Hx _ IHl]; simpl in *; constructor.
      - apply Hx. apply orb_false_iff in H; tauto.
      - apply IHl. apply orb_false_iff in H; tauto. }
    destruct (all_some (map dumps l)); [discriminate | congruence].
  - match goal with |- option_map _ ?a <> None => assert (a <> None) as Ha end.
    { apply all_some_total. induction IH as [|[k x] l Hx _ IHl]; simpl in *; constructor.
      - apply orb_false_iff in H. destruct H as [H _]. apply Hx in H.
        destruct (dumps x); [discriminate | congruence].
      - apply IHl. apply orb_false_iff in H; tauto. }
    match goal with |- option_map _ ?a <> None => destruct a end;
      [discriminate | congruence].
Qed.

Lemma intent_stages_read_only (md : metadata) (question collection : string) (i : intent) :
  Forall (fun stage =>
            has_object_id stage = false
            /\ exists name body, stage = VDict [(name, body)]
                                 /\ In name read_only_stages /\ name <> "$match")
         (intent_stages md question collection i).
Proof.
  assert (P : forall name body,
             has_object_id body = false ->
             In name read_only_stages -> name <> "$match" ->
             has_object_id (VDict [(name, body)]) = false
             /\ exists name' body', VDict [(name, body)] = VDict [(name', body')]
                                    /\ In name' read_only_stages /\ name' <> "$match").
  { intros name body Hb Hn Hm; split.
    - simpl; rewrite Hb; reflexivity.
    - exists name, body; auto. }
  unfold intent_stages, product_stages, group_stage.
  destruct i;
    repeat match goal with
           | |- context [if ?b then _ else _] => destruct b
           | |- context [match _find_amount_field ?a ?b with _ => _ end] =>
               destruct (_find_amount_field a b)
           | |- context [match _find_date_fields ?a ?b with _ => _ end] =>
               destruct (_find_date_fields a b)
           end;
    repeat constructor;
    try (apply P; [reflexivity | simpl; tauto | discriminate]).
Qed.

Lemma match_stage_encodable (md : metadata) (collection question : string) (i : intent)
      (m : dict) :
  build_match_stage md collection i (_extract_filters question) = Some m ->
  has_object_id (VDict m) = false.
Proof.
  intros H. simpl.
  destruct (existsb (fun '(_, x) => has_object_id x) m) eqn:E; [|reflexivity].
  apply existsb_exists in E. destruct E as [[k v] [Hin Hv]].
  destruct (match_stage_entries _ _ _ _ _ _ _ H Hin) as [[_ [s [-> _]]]|[Y [y [-> _]]]];
    discriminate.
Qed.

Lemma existsb_app_false {A : Type} (f : A -> bool) (l1 l2 : list A) :
  existsb f l1 = false -> existsb f l2 = false -> existsb f (l1 ++ l2) = false.
Proof. intros H1 H2; rewrite existsb_app, H1, H2; reflexivity. Qed.

Lemma contains_prefix (a b s : string) :
  contains (a ++ b) s = true -> contains a s = true.
Proof.
  assert (S : forall s, starts_with (a ++ b) s = true -> starts_with a s = true).
  { clear s. induction a as [|c a IH]; intros s; simpl; [reflexivity|].
    destruct s as [|d s]; [discriminate|].
    rewrite !andb_true_iff; intros [H1 H2]; split; auto. }
  induction s as [|c s IH].
  - cbn [contains]. rewrite !orb_false_r. apply S.
  - cbn [contains]. rewrite !orb_true_iff. intros [H|H]; [left; apply S; exact H | right; auto].
Qed.

End GeneratorMoreFacts.

Section GeneratorMore.
Import Text Py Generator Props More.

(** X1. [generate_query] always reaches its [return]: no exception can be
    raised by [int], [datetime] or the encoder, for any metadata and any
    question, so the fallback of [generate_mongo_query] is never used and
    its result is always the text of the compiled pipeline. *)
Theorem generate_query_never_raises (md : metadata) (question : string) :
  exists pipeline collection text,
    generate_pipeline md question = Some (pipeline, collection)
    /\ dumps (VList pipeline) = Some text
    /\ generate_query md question = Some (text, collection)
    /\ generate_mongo_query md question = text.
Proof.
  destruct (generate_pipeline_shape md question) as [c [m [Hr [Hm Hp]]]].
  assert (Hid : has_object_id
                  (VList (match m with
                          | [] => []
                          | _ => [VDict [("$match", VDict m)]]
                          end
                          ++ intent_stages md question c
                               (_determine_intent (lower question)))%list) = false).
  { cbn [has_object_id]. apply existsb_app_false.
    - pose proof (match_stage_encodable _ _ _ _ _ Hm) as Hd.
      destruct m; [reflexivity|].
      cbn [existsb has_object_id] in *. rewrite Hd. reflexivity.
    - pose proof (intent_stages_read_only md question c
                    (_determine_intent (lower question))) as F.
      clear Hp.
      induction F as [|x l [Hx _] _ IH]; simpl; [reflexivity|].
      rewrite Hx, IH; reflexivity. }
  apply dumps_encodable in Hid.
  destruct (dumps _) as [text|] eqn:Et; [|congruence].
  eexists _, c, text. split; [exact Hp|]. split; [exact Et|].
  unfold generate_mongo_query, generate_query. rewrite Hp, Et. auto.
Qed.

(** X2. Every stage of a compiled pipeline is a dict with one key, and
    that key is one of [$match], [$count], [$group], [$lookup],
    [$unwind], [$project], [$sort], [$limit]: the compiler never emits a
    writing stage.  A [$match] stage can only be the first one. *)
Theorem compiled_stages_are_read_only (md : metadata) (question : string) :
  exists pipeline collection,
    generate_pipeline md question = Some (pipeline, collection)
    /\ Forall (fun stage => exists name body,
                   stage = VDict [(name, body)] /\ In name read_only_stages) pipeline
    /\ Forall (fun stage => stage_name stage <> Some "$match") (tl pipeline).
Proof.
  destruct (generate_pipeline_shape md question) as [c [m [Hr [Hm Hp]]]].
  pose proof (intent_stages_read_only md question c
                (_determine_intent (lower question))) as F.
  eexists _, c. split; [exact Hp|].
  assert (F1 : Forall (fun stage => exists name body,
                 stage = VDict [(name, body)] /\ In name read_only_stages)
                 (intent_stages md question c (_determine_intent (lower question)))).
  { eapply Forall_impl; [|exact F]. intros a [_ [n [b [E [Hn _]]]]]; eauto. }
  assert (F2 : Forall (fun stage => stage_name stage <> Some "$match")
                 (intent_stages md question c (_determine_intent (lower question)))).
  { eapply Forall_impl; [|exact F]. intros a [_ [n [b [E [_ Hn]]]]]; subst; simpl.
    congruence. }
  destruct m as [|e m]; simpl.
  - split; [exact F1|].
    destruct (intent_stages md question c (_determine_intent (lower question)));
      [constructor | inversion F2; assumption].
  - split; [|exact F2].
    constructor; [|exact F1]. eexists _, _; split; [reflexivity|simpl; tauto].
Qed.

(** X3. The collection that the compiler works on is a collection of the
    metadata, or it is the literal [orders], which is used even when the
    metadata has no such collection. *)
Theorem resolved_collection_is_known_or_orders (md : metadata) (question : string) :
  exists collection,
    resolved md question = Some collection
    /\ (In collection (collections md) \/ collection = "orders").
Proof.
  unfold resolved, analyze_question; cbn [a_collections].
  set (ql := lower question).
  set (hinted := if any_in _ ql then _ else _).
  assert (Hh : forall c, In c hinted -> In c (collections md)).
  { subst hinted; intros c.
    repeat match goal with
           | |- In _ (if ?b then _ else _) -> _ => destruct b eqn:?
           end; simpl; intros H; try tauto;
      destruct H as [<-|[]]; apply mem_In; assumption. }
  set (named := filter _ (collections md)).
  assert (Hn : forall c, In c named -> In c (collections md)).
  { intros c H; apply filter_In in H; tauto. }
  destruct (hinted ++ named)%list as [|c0 r0] eqn:Em.
  - cbv beta iota.
    match goal with
    | |- context [map fst (filter ?f md)] => set (by_field := map fst (filter f md))
    end.
    assert (Hb : forall c, In c by_field -> In c (collections md)).
    { intros c H. subst by_field. apply in_map_iff in H.
      destruct H as [[c' fs] [<- H]]. apply filter_In in H.
      unfold collections. apply in_map_iff. exists (c', fs); tauto. }
    destruct by_field as [|c1 r1].
    + match goal with
      | |- exists _, hd_error (if ?b then _ else _) = _ /\ _ => destruct b
      end.
      * exists "orders"; split; [reflexivity | right; reflexivity].
      * destruct (collections md) as [|c2 r2] eqn:Ec.
        -- exists "orders"; split; [reflexivity | right; reflexivity].
        -- exists c2; split; [reflexivity | left; left; reflexivity].
    + exists c1; split; [reflexivity|]. left; apply Hb; simpl; auto.
  - exists c0; split; [reflexivity|]. left.
    assert (In c0 (hinted ++ named)%list) as H by (rewrite Em; simpl; auto).
    apply in_app_or in H; destruct H; auto.
Qed.

(** X4. Product vocabulary wins over the name of a collection: when the
    question has one of the words product, products, item, items and the
    metadata has a collection [orders], the compiler works on [orders],
    whatever other collection the question names. *)
Theorem product_words_resolve_to_orders (md : metadata) (question : string) :
  any_in ["product"; "products"; "item"; "items"] (lower question) = true ->
  mem "orders" (collections md) = true ->
  resolved md question = Some "orders".
Proof.
  intros Hq Ho. unfold resolved, analyze_question; cbn [a_collections].
  rewrite Hq, Ho. reflexivity.
Qed.

Lemma product_words_resolve_to_orders_witness :
  resolved shop_metadata "list products" = Some "orders".
Proof.
  apply (product_words_resolve_to_orders shop_metadata "list products"); reflexivity.
Defined.

(** X5. A question of intent sum that names no year and no status, on a
    collection that has a field [status] and an amount field, compiles to
    the match on the completed orders followed by the sum of the amount
    field, and to nothing else. *)
Theorem sum_defaults_to_completed (md : metadata)
        (question collection amount_field : string) :
  _determine_intent (lower question) = I_aggregate_sum ->
  _extract_filters question = {| year := None; status := None |} ->
  resolved md question = Some collection ->
  _has_field md collection "status" = true ->
  _find_amount_field md collection = Some amount_field ->
  generate_pipeline md question
  = Some ([VDict [("$match", VDict [("status", VStr "completed")])];
           group_stage "total" "$sum" amount_field], collection).
Proof.
  intros Hi Hf Hr Hs Ha.
  destruct (generate_pipeline_shape md question) as [c [m [Hr' [Hm Hp]]]].
  rewrite Hr in Hr'; inversion Hr'; subst c.
  rewrite Hp. rewrite Hi, Hf in Hm. unfold build_match_stage in Hm; cbn in Hm.
  rewrite Hs in Hm. cbn in Hm. inversion Hm; subst m.
  rewrite Hi. cbn [intent_stages]. rewrite Ha. reflexivity.
Qed.

Lemma sum_defaults_to_completed_witness :
  generate_pipeline shop_metadata "total orders"
  = Some ([VDict [("$match", VDict [("status", VStr "completed")])];
           group_stage "total" "$sum" "amount"], "orders").
Proof.
  apply (sum_defaults_to_completed shop_metadata "total orders" "orders" "amount");
    reflexivity.
Defined.

(** X6. In the last two rules of the intent ladder only the short word
    can fire: a question is classified [max] only when it contains the
    text max, and [min] only when it contains the text min.  The words
    highest and lowest of these rules are taken by the first two rules,
    and maximum and minimum contain the short word. *)
Theorem plain_max_min_need_their_short_word (question : string) :
  (_determine_intent question = I_max -> contains "max" question = true)
  /\ (_determine_intent question = I_min -> contains "min" question = true).
Proof.
  unfold _determine_intent.
  destruct (any_in ["least"; "worst"; "lowest"; "bottom"] question) eqn:E1;
    [split; discriminate|].
  destruct (any_in ["most"; "best"; "highest"; "top"] question) eqn:E2;
    [split; discriminate|].
  destruct (any_in ["total sales"; "total revenue"; "sales total"] question);
    [split; discriminate|].
  destruct (any_in ["total"; "sum"; "sales"; "revenue"] question);
    [split; discriminate|].
  destruct (any_in ["count"; "how many"; "number of"] question);
    [split; discriminate|].
  destruct (any_in ["average"; "avg"; "mean"] question);
    [split; discriminate|].
  destruct (any_in ["show"; "list"; "display"; "get"] question);
    [split; discriminate|].
  assert (H1 : contains "lowest" question = false).
  { apply (any_in_subset ["lowest"] _ question) in E1.
    - simpl in E1. rewrite orb_false_r in E1. exact E1.
    - intros x [<-|[]]; simpl; tauto. }
  assert (H2 : contains "highest" question = false).
  { apply (any_in_subset ["highest"] _ question) in E2.
    - simpl in E2. rewrite orb_false_r in E2. exact E2.
    - intros x [<-|[]]; simpl; tauto. }
  destruct (any_in ["max"; "maximum"; "highest"] question) eqn:E8.
  - split; [intros _|discriminate].
    cbn [any_in existsb] in E8. rewrite H2 in E8.
    rewrite !orb_false_r in E8. apply orb_true_iff in E8. destruct E8 as [E|E]; [exact E|].
    apply (contains_prefix "max" "imum"); exact E.
  - destruct (any_in ["min"; "minimum"; "lowest"] question) eqn:E9;
      [|split; discriminate].
    split; [discriminate|intros _].
    cbn [any_in existsb] in E9. rewrite H1 in E9.
    rewrite !orb_false_r in E9. apply orb_true_iff in E9. destruct E9 as [E|E]; [exact E|].
    apply (contains_prefix "min" "imum"); exact E.
Qed.

Lemma plain_max_min_need_their_short_word_witness :
  contains "max" "max price" = true.
Proof.
  apply (proj1 (plain_max_min_need_their_short_word "max price")); reflexivity.
Defined.

(** X7. The match stage of a compiled pipeline is never empty and holds
    at most two filters: under the key [status] one of the texts
    completed, pending, cancelled, on a collection that has a field
    [status]; under the first date field of the collection the range of a
    year between 2000 and 2099 that is written in the question. *)
Theorem match_stage_filters (md : metadata) (question : string) (m : dict)
        (k : string) (v : value) :
  compiled_match md question = Some m ->
  In (k, v) m ->
  exists collection,
    resolved md question = Some collection
    /\ ((k = "status" /\ exists s, v = VStr s /\ In s statuses
                                   /\ _has_field md collection "status" = true)
        \/ (exists Y y, v = year_range Y /\ (2000 <= Y <= 2099)%Z
                        /\ search_year question = Some y /\ int_of y = Some Y
                        /\ hd_error (_find_date_fields md collection) = Some k)).
Proof.
  intros Hc Hin.
  destruct (generate_pipeline_shape md question) as [c [m0 [Hr [Hm Hp]]]].
  exists c; split; [exact Hr|].
  unfold compiled_match in Hc. rewrite Hp in Hc.
  destruct m0 as [|e m0].
  - exfalso. cbn [app] in Hc.
    pose proof (intent_stages_read_only md question c
                  (_determine_intent (lower question))) as F.
    destruct (intent_stages md question c (_determine_intent (lower question)))
      as [|st r]; [discriminate|].
    inversion F as [|? ? [_ [n [b [E [_ Hn]]]]] _]; subst.
    destruct n as [|a n]; [discriminate|].
    repeat (destruct a as [[] [] [] [] [] [] [] []]; try discriminate;
            destruct n as [|a n]; try discriminate).
    congruence.
  - cbn in Hc. inversion Hc; subst m.
    eapply match_stage_entries; eassumption.
Qed.

Lemma match_stage_filters_witness :
  exists collection,
    resolved orders_metadata "list orders 2021 and 2022" = Some collection
    /\ (("order_date" = "status"
         /\ exists s, year_range 2021 = VStr s /\ In s statuses
                      /\ _has_field orders_metadata collection "status" = true)
        \/ (exists Y y, year_range 2021 = year_range Y /\ (2000 <= Y <= 2099)%Z
                        /\ search_year "list orders 2021 and 2022" = Some y
                        /\ int_of y = Some Y
                        /\ hd_error (_find_date_fields orders_metadata collection)
                           = Some "order_date")).
Proof.
  apply (match_stage_filters orders_metadata "list orders 2021 and 2022"
           [("order_date", year_range 2021)]);
    [vm_compute; reflexivity | left; reflexivity].
Defined.

End GeneratorMore.

(* ================================================================== *)
(** * The amount field *)
(* ================================================================== *)

Section AmountFacts.
Import Text Py Generator Props More.

Lemma find_first {A : Type} (p : A -> bool) (l : list A) (x : A) :
  find p l = Some x ->
  exists l1 l2, l = (l1 ++ x :: l2)%list /\ p x = true
                /\ forall y, In y l1 -> p y = false.
Proof.
  induction l as [|a l IH]; cbn [find]; [discriminate|].
  destruct (p a) eqn:E.
  - intros H; inversion H; subst. exists [], l. repeat split; auto. intros y [].
  - intros H. destruct (IH H) as [l1 [l2 [-> [Hx Hl]]]].
    exists (a :: l1), l2. repeat split; auto.
    intros y [<-|Hy]; auto.
Qed.

Lemma no_field_matches (candidate : string) (fs : fields) :
  find (fun '(field_name, _) => contains candidate (lower field_name)) fs = None ->
  forall f, In f (map fst fs) -> contains candidate (lower f) = false.
Proof.
  intros H f Hf. apply in_map_iff in Hf. destruct Hf as [[f' ty] [<- Hin]].
  exact (find_none _ _ H _ Hin).
Qed.

End AmountFacts.

Section AmountMore.
Import Text Py Generator Props More.

(** X8. [_find_amount_field] goes by candidate first and by field
    second: the field it returns contains, in lower case, a candidate
    word that no field of the collection matches for any earlier
    candidate, and it is the first field of the collection that contains
    this word; it returns nothing exactly when no field contains any of
    the seven words. *)
Theorem amount_field_priority (md : metadata) (collection : string) (fs : fields) :
  lookup collection md = Some fs ->
  match _find_amount_field md collection with
  | Some amount_field =>
      exists earlier candidate later fs1 type fs2,
        amount_candidates = (earlier ++ candidate :: later)%list
        /\ (forall c f, In c earlier -> In f (map fst fs) ->
                        contains c (lower f) = false)
        /\ fs = (fs1 ++ (amount_field, type) :: fs2)%list
        /\ contains candidate (lower amount_field) = true
        /\ forall f, In f (map fst fs1) -> contains candidate (lower f) = false
  | None =>
      forall c f, In c amount_candidates -> In f (map fst fs) ->
                  contains c (lower f) = false
  end.
Proof.
  intros Hl. unfold _find_amount_field. rewrite Hl.
  assert (Step : forall earlier candidate later,
    amount_candidates = (earlier ++ candidate :: later)%list ->
    (forall c f, In c earlier -> In f (map fst fs) -> contains c (lower f) = false) ->
    forall x,
      find (fun '(field_name, _) => contains candidate (lower field_name)) fs = Some x ->
      exists earlier candidate later fs1 type fs2,
        amount_candidates = (earlier ++ candidate :: later)%list
        /\ (forall c f, In c earlier -> In f (map fst fs) ->
                        contains c (lower f) = false)
        /\ fs = (fs1 ++ (fst x, type) :: fs2)%list
        /\ contains candidate (lower (fst x)) = true
        /\ forall f, In f (map fst fs1) -> contains candidate (lower f) = false).
  { intros earlier candidate later E He [f ty] Hf.
    apply find_first in Hf. destruct Hf as [l1 [l2 [-> [Hx Hn]]]].
    exists earlier, candidate, later, l1, ty, l2. repeat split; auto.
    intros f' Hf'. apply in_map_iff in Hf'. destruct Hf' as [[f0 t0] [<- Hin]].
    exact (Hn _ Hin). }
  assert (Grow : forall earlier candidate,
    (forall c f, In c earlier -> In f (map fst fs) -> contains c (lower f) = false) ->
    find (fun '(field_name, _) => contains candidate (lower field_name)) fs = None ->
    forall c f, In c (earlier ++ [candidate])%list -> In f (map fst fs) ->
                contains c (lower f) = false).
  { intros earlier candidate He Hn c f Hc Hf. apply in_app_or in Hc.
    destruct Hc as [Hc|[<-|[]]]; [exact (He c f Hc Hf)|].
    exact (no_field_matches _ _ Hn f Hf). }
  assert (H0 : forall c f, In c [] -> In f (map fst fs) -> contains c (lower f) = false)
    by (intros c f []).
  destruct (find (fun '(field_name, _) => contains "amount" (lower field_name)) fs)
    as [[f1 t1]|] eqn:E1.
  { exact (Step [] "amount" _ eq_refl H0 _ E1). }
  pose proof (Grow _ _ H0 E1) as H1. cbn [app] in H1.
  destruct (find (fun '(field_name, _) => contains "total" (lower field_name)) fs)
    as [[f2 t2]|] eqn:E2.
  { exact (Step ["amount"] "total" _ eq_refl H1 _ E2). }
  pose proof (Grow _ _ H1 E2) as H2. cbn [app] in H2.
  destruct (find (fun '(field_name, _) => contains "price" (lower field_name)) fs)
    as [[f3 t3]|] eqn:E3.
  { exact (Step ["amount"; "total"] "price" _ eq_refl H2 _ E3). }
  pose proof (Grow _ _ H2 E3) as H3. cbn [app] in H3.
  destruct (find (fun '(field_name, _) => contains "cost" (lower field_name)) fs)
    as [[f4 t4]|] eqn:E4.
  { exact (Step ["amount"; "total"; "price"] "cost" _ eq_refl H3 _ E4). }
  pose proof (Grow _ _ H3 E4) as H4. cbn [app] in H4.
  destruct (find (fun '(field_name, _) => contains "value" (lower field_name)) fs)
    as [[f5 t5]|] eqn:E5.
  { exact (Step ["amount"; "total"; "price"; "cost"] "value" _ eq_refl H4 _ E5). }
  pose proof (Grow _ _ H4 E5) as H5. cbn [app] in H5.
  destruct (find (fun '(field_name, _) => contains "revenue" (lower field_name)) fs)
    as [[f6 t6]|] eqn:E6.
  { exact (Step ["amount"; "total"; "price"; "cost"; "value"] "revenue" _ eq_refl H5 _ E6). }
  pose proof (Grow _ _ H5 E6) as H6. cbn [app] in H6.
  destruct (find (fun '(field_name, _) => contains "sales" (lower field_name)) fs)
    as [[f7 t7]|] eqn:E7.
  { exact (Step ["amount"; "total"; "price"; "cost"; "value"; "revenue"] "sales" _
                eq_refl H6 _ E7). }
  exact (Grow _ _ H6 E7).
Qed.

Lemma amount_field_priority_witness :
  match _find_amount_field shop_metadata "products" with
  | Some amount_field =>
      exists earlier candidate later fs1 type fs2,
        amount_candidates = (earlier ++ candidate :: later)%list
        /\ (forall c f, In c earlier ->
                        In f (map fst [("name", "str"); ("price", "float")]) ->
                        contains c (lower f) = false)
        /\ [("name", "str"); ("price", "float")]
           = (fs1 ++ (amount_field, type) :: fs2)%list
        /\ contains candidate (lower amount_field) = true
        /\ forall f, In f (map fst fs1) -> contains candidate (lower f) = false
  | None =>
      forall c f, In c amount_candidates ->
                  In f (map fst [("name", "str"); ("price", "float")]) ->
                  contains c (lower f) = false
  end.
Proof.
  apply (amount_field_priority shop_metadata "products"
           [("name", "str"); ("price", "float")]).
  reflexivity.
Defined.

End AmountMore.

(* ================================================================== *)
(** * Further properties of the ranking *)
(* ================================================================== *)

Section RankingFacts.
Import Text Py Agent Props Schema More.

Lemma Qltb_false (a b : Q) : Qltb a b = false <-> (b <= a)%Q.
Proof.
  unfold Qltb. rewrite negb_false_iff. apply Qle_bool_iff.
Qed.

Lemma Qltb_true (a b : Q) : Qltb a b = true <-> (a < b)%Q.
Proof.
  unfold Qltb. rewrite negb_true_iff. split.
  - intros H. apply Qnot_le_lt. intros L. apply Qle_bool_iff in L. congruence.
  - intros H. destruct (Qle_bool b a) eqn:E; [|reflexivity].
    apply Qle_bool_iff in E. exfalso. exact (Qlt_not_le _ _ H E).
Qed.

Lemma insert_desc_sorted (x : string * Q) (l : list (string * Q)) :
  StronglySorted not_above l -> StronglySorted not_above (insert_desc x l).
Proof.
  induction 1 as [|y r Hr IH Hy]; simpl.
  - constructor; constructor.
  - destruct (Qltb (snd x) (snd y)) eqn:E.
    + constructor; [exact IH|].
      apply Forall_forall. intros z Hz. apply insert_desc_In in Hz.
      destruct Hz as [->|Hz].
      * apply Qltb_true in E. unfold not_above. apply Qlt_le_weak; exact E.
      * rewrite Forall_forall in Hy. apply Hy; exact Hz.
    + apply Qltb_false in E.
      constructor; [constructor; assumption|].
      constructor; [exact E|].
      eapply Forall_impl; [|exact Hy]. intros z Hz. unfold not_above in *.
      eapply Qle_trans; eassumption.
Qed.

Lemma sorted_desc_sorted (l : list (string * Q)) :
  StronglySorted not_above (sorted_desc l).
Proof.
  induction l as [|x l IH]; simpl; [constructor|].
  apply insert_desc_sorted; exact IH.
Qed.

Lemma insert_desc_perm (x : string * Q) (l : list (string * Q)) :
  Permutation (insert_desc x l) (x :: l).
Proof.
  induction l as [|y r IH]; simpl; [reflexivity|].
  destruct (Qltb (snd x) (snd y)); [|reflexivity].
  rewrite IH. apply perm_swap.
Qed.

Lemma sorted_desc_perm (l : list (string * Q)) : Permutation (sorted_desc l) l.
Proof.
  induction l as [|x l IH]; simpl; [reflexivity|].
  rewrite insert_desc_perm. constructor; exact IH.
Qed.

Lemma insert_desc_stable (s : Q) (x : string * Q) (l : list (string * Q)) :
  filter (same_score s) (insert_desc x l) = filter (same_score s) (x :: l).
Proof.
  induction l as [|y r IH]; [reflexivity|].
  cbn [insert_desc]. destruct (Qltb (snd x) (snd y)) eqn:E; [|reflexivity].
  cbn [filter] in *. rewrite IH.
  destruct (same_score s x) eqn:Ex; [|reflexivity].
  destruct (same_score s y) eqn:Ey; [|reflexivity].
  exfalso. unfold same_score in *. apply Qeq_bool_iff in Ex, Ey.
  apply Qltb_true in E. rewrite Ex, Ey in E. exact (Qlt_irrefl _ E).
Qed.

Lemma sorted_desc_stable (s : Q) (l : list (string * Q)) :
  filter (same_score s) (sorted_desc l) = filter (same_score s) l.
Proof.
  induction l as [|x l IH]; [reflexivity|].
  cbn [sorted_desc fold_right]. fold (sorted_desc l).
  rewrite insert_desc_stable. cbn [filter]. rewrite IH. reflexivity.
Qed.

Lemma sorted_firstn (n : nat) (l : list (string * Q)) :
  StronglySorted not_above l -> StronglySorted not_above (firstn n l).
Proof.
  intros H; revert n; induction H as [|x r Hr IH Hx]; intros [|n]; simpl;
    try constructor.
  - apply IH.
  - apply Forall_forall. intros z Hz. apply In_firstn in Hz.
    rewrite Forall_forall in Hx; auto.
Qed.

Lemma kept_prefix (l : list (string * Q)) :
  StronglySorted not_above l ->
  exists n, (n <= List.length l)%nat /\ kept l = firstn n l.
Proof.
  induction 1 as [|[c s] r Hr [n [Hn IH]] Hx]; [exists 0%nat; auto|].
  unfold kept in *. cbn [filter].
  destruct (Qltb s (2 # 10)) eqn:E; cbn [negb].
  - exists 0%nat; split; [lia|]. cbn [firstn].
    apply Qltb_true in E.
    assert (F : Forall (fun z => Qltb (snd z) (2 # 10) = true) r).
    { eapply Forall_impl; [|exact Hx]. intros [c' s'] Hc'.
      unfold not_above in Hc'; cbn [snd] in *.
      apply Qltb_true. eapply Qle_lt_trans; eassumption. }
    clear - F. induction F as [|[c' s'] r' Hc' _ IHr]; [reflexivity|].
    cbn [filter]. cbn [snd] in Hc'. rewrite Hc'. exact IHr.
  - exists (S n); split; [simpl; lia|]. cbn [firstn]. rewrite IH. reflexivity.
Qed.

End RankingFacts.

Section RankingMore.
Import Text Py Agent Props Schema More.

(** X9. [search_collections] returns the first [top_k] entries of the
    stable descending sort of all the scores: together with the entries
    it cuts off, its result is a permutation of the scores of the
    collections of [embeddings_db], no entry is followed by a higher
    score, and entries of equal score keep the order of [embeddings_db]. *)
Theorem search_collections_ranking (w : world) (user_question : string) (top_k : nat) :
  exists cut_off,
    Permutation (search_collections w user_question top_k ++ cut_off)
                (similarities w user_question)
    /\ StronglySorted not_above (search_collections w user_question top_k ++ cut_off)
    /\ (forall s, filter (same_score s) (search_collections w user_question top_k ++ cut_off)
                  = filter (same_score s) (similarities w user_question))
    /\ List.length (search_collections w user_question top_k)
       = Nat.min top_k (List.length (embeddings_db w)).
Proof.
  unfold search_collections. fold (similarities w user_question).
  exists (skipn top_k (sorted_desc (similarities w user_question))).
  rewrite firstn_skipn. repeat split.
  - apply sorted_desc_perm.
  - apply sorted_desc_sorted.
  - intros s; apply sorted_desc_stable.
  - rewrite length_firstn.
    rewrite (Permutation_length (sorted_desc_perm _)).
    unfold similarities. rewrite length_map. reflexivity.
Qed.

(** X10. With a positive [top_k], the ranking signals that no collection
    is relevant exactly when every collection of [embeddings_db] has a
    similarity below 0.3: one collection at 0.3 or above is enough for a
    context to be built. *)
Theorem no_relevant_iff_all_below (w : world) (user_question : string) (top_k : nat) :
  (0 < top_k)%nat ->
  no_relevant (search_collections w user_question top_k) = true
  <-> forall c d, In (c, d) (embeddings_db w) ->
                  (similarity w user_question c < 3 # 10)%Q.
Proof.
  intros Hk. unfold search_collections. fold (similarities w user_question).
  pose proof (sorted_desc_sorted (similarities w user_question)) as Hs.
  pose proof (sorted_desc_In) as Hin.
  assert (Hsim : forall c s, In (c, s) (similarities w user_question)
                   <-> s = similarity w user_question c
                       /\ exists d, In (c, d) (embeddings_db w)).
  { intros c s. unfold similarities. rewrite in_map_iff. split.
    - intros [[c' d] [E H]]. inversion E; subst. split; [reflexivity|eauto].
    - intros [-> [d H]]. exists (c, d); auto. }
  destruct top_k as [|k]; [lia|].
  destruct (sorted_desc (similarities w user_question)) as [|[c0 s0] r] eqn:Es.
  - cbn. split; [|reflexivity]. intros _ c d Hd. exfalso.
    assert (In (c, similarity w user_question c) []) as [].
    { rewrite <- Es. apply Hin. apply Hsim. eauto. }
  - cbn [firstn no_relevant]. rewrite Qltb_true. split.
    + intros H0 c d Hd.
      assert (In (c, similarity w user_question c) ((c0, s0) :: r)) as Hc.
      { rewrite <- Es. apply Hin. apply Hsim. eauto. }
      destruct Hc as [E|Hc]; [inversion E; subst; exact H0|].
      inversion Hs as [|? ? _ Hall]; subst. rewrite Forall_forall in Hall.
      apply Hall in Hc. unfold not_above in Hc; cbn [snd] in Hc.
      eapply Qle_lt_trans; eassumption.
    + intros H.
      assert (In (c0, s0) (similarities w user_question)) as Hc.
      { apply Hin. rewrite Es. left; reflexivity. }
      apply Hsim in Hc. destruct Hc as [-> [d Hd]]. eapply H; exact Hd.
Qed.

Lemma no_relevant_iff_all_below_witness :
  no_relevant (search_collections (a_world "" (1 # 10)) "hello" 3) = true
  <-> forall c d, In (c, d) (embeddings_db (a_world "" (1 # 10))) ->
                  (similarity (a_world "" (1 # 10)) "hello" c < 3 # 10)%Q.
Proof.
  apply (no_relevant_iff_all_below (a_world "" (1 # 10)) "hello" 3). lia.
Defined.

(** X11. When a collection is relevant, the context is built from a
    non-empty prefix of the ranking: the collections whose score is at
    least 0.2 are exactly the first [n] of the ranking, with [n] between
    1 and [top_k], and one sample document is fetched for each of them,
    in the order of the ranking. *)
Theorem context_is_built_from_a_prefix (w : world) (user_question : string) (top_k : nat) :
  no_relevant (search_collections w user_question top_k) = false ->
  exists n text,
    (1 <= n <= top_k)%nat
    /\ kept (search_collections w user_question top_k)
       = firstn n (search_collections w user_question top_k)
    /\ build_context w user_question top_k
       = (Some (context_header ++ text),
          map (fun '(c, _) => Ev_find_one c)
              (firstn n (search_collections w user_question top_k))).
Proof.
  intros Hr.
  destruct (context_fetches_kept w user_question top_k Hr) as [text Hb].
  assert (Hs : StronglySorted not_above (search_collections w user_question top_k)).
  { unfold search_collections. apply sorted_firstn, sorted_desc_sorted. }
  destruct (kept_prefix _ Hs) as [n [Hn Hk]].
  assert (Hlen : (List.length (search_collections w user_question top_k) <= top_k)%nat).
  { unfold search_collections. rewrite length_firstn. lia. }
  exists n, text. rewrite <- Hk. split; [|split; [reflexivity|exact Hb]].
  split; [|lia].
  destruct (search_collections w user_question top_k) as [|[c0 s0] r]; [discriminate|].
  cbn [no_relevant] in Hr. apply Qltb_false in Hr.
  destruct n as [|n]; [|lia]. exfalso.
  unfold kept in Hk. cbn [filter firstn] in Hk.
  assert (Qltb s0 (2 # 10) = false) as E.
  { apply Qltb_false. eapply Qle_trans; [|exact Hr]. discriminate. }
  rewrite E in Hk. discriminate.
Qed.

Lemma context_is_built_from_a_prefix_witness :
  exists n text,
    (1 <= n <= 3)%nat
    /\ kept (search_collections (a_world "" (1 # 2)) "orders" 3)
       = firstn n (search_collections (a_world "" (1 # 2)) "orders" 3)
    /\ build_context (a_world "" (1 # 2)) "orders" 3
       = (Some (context_header ++ text),
          map (fun '(c, _) => Ev_find_one c)
              (firstn n (search_collections (a_world "" (1 # 2)) "orders" 3))).
Proof.
  apply (context_is_built_from_a_prefix (a_world "" (1 # 2)) "orders" 3). reflexivity.
Defined.

(** X12. [search_fields] answers the empty list for a collection that
    [embeddings_db] does not know; otherwise it returns at most [top_k]
    fields of that collection, each with its own similarity, and no
    field is followed by a higher score. *)
Theorem search_fields_ranking (w : world) (field_similarity : string -> string -> string -> Q)
        (user_question collection_name : string) (top_k : nat) :
  (lookup_data collection_name (embeddings_db w) = None ->
   search_fields w field_similarity user_question collection_name top_k = [])
  /\ StronglySorted not_above
       (search_fields w field_similarity user_question collection_name top_k)
  /\ (List.length (search_fields w field_similarity user_question collection_name top_k)
      <= top_k)%nat
  /\ forall f s,
       In (f, s) (search_fields w field_similarity user_question collection_name top_k) ->
       s = field_similarity user_question collection_name f
       /\ exists d desc, lookup_data collection_name (embeddings_db w) = Some d
                         /\ In (f, desc) (static_fields d).
Proof.
  unfold search_fields.
  destruct (lookup_data collection_name (embeddings_db w)) as [d|].
  - split; [discriminate|]. split; [apply sorted_firstn, sorted_desc_sorted|].
    split; [rewrite length_firstn; lia|].
    intros f s H. apply In_firstn in H. apply (proj1 (sorted_desc_In _ _)) in H.
    apply in_map_iff in H. destruct H as [[f' desc] [E H]]. inversion E; subst.
    split; [reflexivity|]. exists d, desc; auto.
  - split; [reflexivity|]. split; [constructor|]. split; [simpl; lia|].
    intros f s [].
Qed.

End RankingMore.

(* ================================================================== *)
(** * Further properties of the dispatcher and of the agent *)
(* ================================================================== *)

Section AgentMoreFacts.
Import Text Py Agent Props More.


Lemma execute_query_trace (w : world) (collection_name : string) (query : value) :
  snd (execute_query w collection_name query) = []
  \/ snd (execute_query w collection_name query) = [Ev_find collection_name query 10].
Proof.
  unfold execute_query.
  destruct (existsb _ prohibited_operators); [left; reflexivity|right].
  unfold bind, call, ret. destruct (store_find w collection_name query); reflexivity.
Qed.

(** The recovered command makes at most one call, to the store. *)
Lemma dispatch_trace (w : world) (query_code collection_name : string)
      (op : operation) (argument : value) :
  snd (dispatch w query_code collection_name op argument) = []
  \/ exists e, snd (dispatch w query_code collection_name op argument) = [e]
               /\ is_store_call e = true.
Proof.
  destruct op; unfold dispatch, bind, call, ret.
  - destruct (execute_query_trace w collection_name argument) as [H|H];
      destruct (execute_query w collection_name argument) as [r t]; cbn [snd] in *;
      subst t; [left; reflexivity | right; eexists; split; reflexivity].
  - right. destruct (store_aggregate w collection_name argument);
      eexists; split; reflexivity.
  - right. destruct (store_count_documents w collection_name argument);
      eexists; split; reflexivity.
  - right. destruct (store_count_documents w collection_name argument);
      eexists; split; reflexivity.
Qed.

Lemma after_model_trace (w : world) (query_code : string) :
  snd (after_model w query_code) = []
  \/ exists e, snd (after_model w query_code) = [e] /\ is_store_call e = true.
Proof.
  unfold after_model.
  repeat match goal with
         | |- context [if ?b then _ else _] => destruct b; [left; reflexivity|]
         end.
  unfold run_query_code. destruct (recover w (strip query_code));
    [apply dispatch_trace | left; reflexivity | left; reflexivity].
Qed.

Lemma after_model_marked (w : world) (query_code : string) :
  any_in ["ERROR:"; "UNABLE_TO_QUERY"; "MODIFICATION_NOT_ALLOWED"; "OUT_OF_SCOPE"]
         query_code = true ->
  snd (after_model w query_code) = [].
Proof.
  unfold after_model; cbn [any_in existsb].
  repeat match goal with
         | |- context [if ?b then _ else _] => destruct b; [reflexivity|]
         end.
  discriminate.
Qed.

(** What [ask_model] does, by the signal of the ranking *)
Lemma ask_model_relevant (w : world) (user_question : string) :
  no_relevant (search_collections w user_question 3) = false ->
  ask_model w user_question
  = (Declined_before_model,
     map (fun '(c, _) => Ev_find_one c) (kept (search_collections w user_question 3))).
Proof.
  intros Hn.
  unfold ask_model, get_reliable_prompt, build_context. rewrite Hn.
  destruct (build_sections_runs w (kept (search_collections w user_question 3))
                                context_header) as (text & ->).
  { intros c score H. apply kept_drops_low_scores in H. destruct H as [H _].
    eapply search_collections_known; eauto. }
  unfold bind, ret.
  change (context_header ++ text)
    with (String "#" (String "#" EmptyString ++
            (" Available MongoDB Collections" ++ NL ++ NL ++
             "⚠️ IMPORTANT: Use ONLY the field names shown below. Do NOT invent field names."
             ++ NL ++ NL) ++ text)).
  cbn [String.eqb NO_RELEVANT_COLLECTION Ascii.eqb Bool.eqb].
  change (contains "OUT_OF_SCOPE" expert_system_prompt) with true.
  cbn [orb]. rewrite app_nil_r. rewrite app_nil_r. reflexivity.
Qed.

Lemma ask_model_irrelevant (w : world) (user_question : string) :
  no_relevant (search_collections w user_question 3) = true ->
  snd (ask_model w user_question) = []
  \/ snd (ask_model w user_question)
     = Ev_generate decline_system_prompt (decline_user_prompt user_question)
       :: snd (after_model w (llm_generate w decline_system_prompt
                                           (decline_user_prompt user_question))).
Proof.
  intros Hn.
  assert (E : ask_model w user_question
              = if contains "OUT_OF_SCOPE" (decline_user_prompt user_question)
                then (Declined_before_model, [])
                else (fst (after_model w (llm_generate w decline_system_prompt
                                            (decline_user_prompt user_question))),
                      Ev_generate decline_system_prompt (decline_user_prompt user_question)
                      :: snd (after_model w (llm_generate w decline_system_prompt
                                               (decline_user_prompt user_question))))).
  { unfold ask_model.
    rewrite (decline_prompts_when_no_relevant w user_question Hn).
    unfold bind, ret, call.
    change (contains "OUT_OF_SCOPE" decline_system_prompt) with false.
    destruct (contains "OUT_OF_SCOPE" (decline_user_prompt user_question));
      cbn [orb]; [reflexivity|].
    destruct (after_model w _) as [r t]. reflexivity. }
  rewrite E.
  destruct (contains "OUT_OF_SCOPE" (decline_user_prompt user_question));
    [left | right]; reflexivity.
Qed.

(** The calls of [process_query]: the join, when it is tried, then the
    samples of the context or the model and what its answer runs. *)
Lemma process_query_trace (w : world) (user_question : string) :
  exists join rest,
    snd (process_query w user_question) = (join ++ rest)%list
    /\ (join = [] \/ join = [Ev_aggregate "orders" (join_pipeline (lower user_question))])
    /\ (rest = []
        \/ rest = map (fun '(c, _) => Ev_find_one c)
                      (kept (search_collections w user_question 3))
        \/ (no_relevant (search_collections w user_question 3) = true
            /\ rest = Ev_generate decline_system_prompt (decline_user_prompt user_question)
                      :: snd (after_model w (llm_generate w decline_system_prompt
                                              (decline_user_prompt user_question))))).
Proof.
  assert (A : snd (ask_model w user_question) = []
              \/ snd (ask_model w user_question)
                 = map (fun '(c, _) => Ev_find_one c)
                      (kept (search_collections w user_question 3))
              \/ (no_relevant (search_collections w user_question 3) = true
                  /\ snd (ask_model w user_question)
                     = Ev_generate decline_system_prompt (decline_user_prompt user_question)
                       :: snd (after_model w (llm_generate w decline_system_prompt
                                              (decline_user_prompt user_question))))).
  { destruct (no_relevant (search_collections w user_question 3)) eqn:Hn.
    - destruct (ask_model_irrelevant w user_question Hn) as [H|H]; auto.
    - rewrite (ask_model_relevant w user_question Hn). auto. }
  unfold process_query.
  destruct (any_in prohibited_words (lower user_question)).
  { exists [], []. cbn; auto. }
  destruct (wants_join (lower user_question)).
  - unfold bind, call.
    destruct (store_aggregate w "orders" (join_pipeline (lower user_question))).
    + destruct (ask_model w user_question) as [r t]; cbn [snd] in *.
      exists [Ev_aggregate "orders" (join_pipeline (lower user_question))], t; auto.
    + exists [Ev_aggregate "orders" (join_pipeline (lower user_question))], [].
      cbn; auto.
  - exists [], (snd (ask_model w user_question)). auto.
Qed.

Lemma last_of_trace {A : Type} (l pre post : list A) (a b : A) :
  (l ++ [a] = pre ++ b :: post)%list -> ~ In b l -> post = [].
Proof.
  revert pre; induction l as [|x l IH]; intros pre H Hn.
  - destruct pre as [|y pre]; cbn in H.
    + inversion H; reflexivity.
    + inversion H. destruct pre; discriminate.
  - destruct pre as [|y pre]; cbn in H.
    + inversion H; subst. exfalso; apply Hn; left; reflexivity.
    + inversion H; subst. eapply IH; [eassumption|].
      intros Hb; apply Hn; right; exact Hb.
Qed.

Lemma find_one_is_store_call (l : list (string * Q)) :
  Forall (fun e => is_store_call e = true) (map (fun '(c, _) => Ev_find_one c) l).
Proof. induction l as [|[c s] l IH]; simpl; constructor; auto. Qed.

Lemma find_one_counts (l : list (string * Q)) :
  List.length (filter is_model_call (map (fun '(c, _) => Ev_find_one c) l)) = 0%nat
  /\ List.length (filter is_store_call (map (fun '(c, _) => Ev_find_one c) l))
     = List.length l.
Proof.
  induction l as [|[c s] l [IH1 IH2]]; [split; reflexivity|].
  cbn [map filter is_model_call is_store_call List.length].
  rewrite IH1, IH2. split; reflexivity.
Qed.

Lemma kept_at_most (w : world) (user_question : string) (k : nat) :
  (List.length (kept (search_collections w user_question k)) <= k)%nat.
Proof.
  unfold kept.
  etransitivity; [apply filter_length_le|].
  unfold search_collections. rewrite length_firstn. lia.
Qed.

End AgentMoreFacts.

Section AgentMore.
Import Text Py Agent Props More.


(** X14. Whatever the question and the world, the only prompts that
    [process_query] ever sends to the model are the two prompts that ask
    it to decline, and it sends them only when the ranking signals that
    no collection is relevant: the expert prompt and the context never
    reach the model. *)
Theorem model_sees_only_decline_prompts (w : world)
        (user_question system_prompt user_prompt : string) :
  In (Ev_generate system_prompt user_prompt) (snd (process_query w user_question)) ->
  system_prompt = decline_system_prompt
  /\ user_prompt = decline_user_prompt user_question
  /\ system_prompt <> expert_system_prompt
  /\ no_relevant (search_collections w user_question 3) = true.
Proof.
  intros H.
  destruct (process_query_trace w user_question) as [join [rest [E [Hj Hr]]]].
  rewrite E in H. apply in_app_or in H. destruct H as [H|H].
  - exfalso. destruct Hj as [-> | ->]; [destruct H|].
    destruct H as [H|[]]; discriminate.
  - destruct Hr as [E1|[E1|[Hn E1]]]; subst rest.
    + destruct H.
    + exfalso. pose proof (find_one_is_store_call
                             (kept (search_collections w user_question 3))) as F.
      rewrite Forall_forall in F. apply F in H. discriminate.
    + destruct H as [H|H].
      * inversion H; subst. repeat split; auto. discriminate.
      * exfalso. destruct (after_model_trace w (llm_generate w decline_system_prompt
                                                 (decline_user_prompt user_question)))
          as [T|[e [T Hs]]]; rewrite T in H; [destruct H|].
        destruct H as [H|[]]. subst e. discriminate.
Qed.

Lemma model_sees_only_decline_prompts_witness :
  decline_system_prompt = decline_system_prompt
  /\ decline_user_prompt "hello" = decline_user_prompt "hello"
  /\ decline_system_prompt <> expert_system_prompt
  /\ no_relevant (search_collections (a_world "none" (1 # 10)) "hello" 3) = true.
Proof.
  apply (model_sees_only_decline_prompts (a_world "none" (1 # 10)) "hello").
  vm_compute. left; reflexivity.
Defined.

(** X15. One question costs at most one call to the model and at most
    four calls to the store: the join it may try, then either one sample
    for each of at most three collections of the context, or what the
    answer of the model runs, which is at most one store call. *)
Theorem process_query_call_bounds (w : world) (user_question : string) :
  (List.length (model_calls (snd (process_query w user_question))) <= 1)%nat
  /\ (List.length (store_calls (snd (process_query w user_question))) <= 4)%nat.
Proof.
  destruct (process_query_trace w user_question) as [join [rest [E [Hj Hr]]]].
  rewrite E. unfold model_calls, store_calls. rewrite !filter_app, !length_app.
  assert (J : (List.length (filter is_model_call join) = 0
               /\ List.length (filter is_store_call join) <= 1)%nat).
  { destruct Hj as [-> | ->]; cbn; lia. }
  assert (R : (List.length (filter is_model_call rest) <= 1
               /\ List.length (filter is_store_call rest) <= 3)%nat).
  { destruct Hr as [E1|[E1|[_ E1]]]; subst rest.
    - cbn; lia.
    - pose proof (kept_at_most w user_question 3) as K.
      rewrite (proj1 (find_one_counts _)), (proj2 (find_one_counts _)). lia.
    - destruct (after_model_trace w (llm_generate w decline_system_prompt
                                       (decline_user_prompt user_question)))
        as [T|[e [T Hs]]]; rewrite T; cbn; [lia|].
      rewrite Hs. destruct e; try discriminate; cbn; lia. }
  lia.
Qed.

(** X16. When the answer of the model contains one of the markers
    [ERROR:], [UNABLE_TO_QUERY], [MODIFICATION_NOT_ALLOWED],
    [OUT_OF_SCOPE], nothing is run: no call follows the call to the
    model, even when the answer also holds a command. *)
Theorem refusal_markers_stop_execution (w : world) (user_question : string) :
  any_in ["ERROR:"; "UNABLE_TO_QUERY"; "MODIFICATION_NOT_ALLOWED"; "OUT_OF_SCOPE"]
         (llm_generate w decline_system_prompt (decline_user_prompt user_question))
  = true ->
  forall before system_prompt user_prompt after,
    snd (process_query w user_question)
    = (before ++ Ev_generate system_prompt user_prompt :: after)%list ->
    after = [].
Proof.
  intros Hm before sp up after H.
  destruct (process_query_trace w user_question) as [join [rest [E [Hj Hr]]]].
  rewrite E in H.
  assert (G : In (Ev_generate sp up) (join ++ rest)%list).
  { rewrite H. apply in_or_app; right; left; reflexivity. }
  assert (Nj : ~ In (Ev_generate sp up) join).
  { destruct Hj as [-> | ->]; [intros []|]. intros [X|[]]; discriminate. }
  destruct Hr as [E1|[E1|[_ E1]]]; subst rest.
  - rewrite app_nil_r in G. contradiction.
  - exfalso. apply in_app_or in G. destruct G as [G|G]; [contradiction|].
    pose proof (find_one_is_store_call
                  (kept (search_collections w user_question 3))) as F.
    rewrite Forall_forall in F. apply F in G. discriminate.
  - rewrite (after_model_marked w _ Hm) in H.
    eapply last_of_trace; eassumption.
Qed.

Lemma refusal_markers_stop_execution_witness :
  snd (process_query
         (a_world (bq "UNABLE_TO_QUERY db.orders.find({})") (1 # 10)) "hello")
  = ([] ++ Ev_generate decline_system_prompt (decline_user_prompt "hello") :: [])%list
  /\ @nil event = [].
Proof.
  split; [reflexivity|].
  apply (refusal_markers_stop_execution
           (a_world (bq "UNABLE_TO_QUERY db.orders.find({})") (1 # 10)) "hello"
           eq_refl [] decline_system_prompt (decline_user_prompt "hello") []).
  reflexivity.
Defined.

End AgentMore.

(* ================================================================== *)
(** * Further properties of the recovery parser *)
(* ================================================================== *)

Section ParserMoreFacts.
Import Text Py Json Agent Props More.

Lemma after_prefix_split (L s r : string) :
  after_prefix L s = Some r -> s = L ++ r.
Proof.
  revert s; induction L as [|a L IH]; intros s; cbn [after_prefix].
  - intros H; inversion H; reflexivity.
  - destruct s as [|b s]; [discriminate|].
    destruct (Ascii.eqb a b) eqn:E; [|discriminate].
    apply Ascii.eqb_eq in E; subst b. intros H. cbn. f_equal. apply IH; exact H.
Qed.

Lemma after_prefix_app (L r : string) : after_prefix L (L ++ r) = Some r.
Proof.
  induction L as [|a L IH]; cbn; [reflexivity|].
  rewrite Ascii.eqb_refl. exact IH.
Qed.

Lemma span_app (p : ascii -> bool) (a b : string) :
  all_chars p a = true ->
  match b with String c _ => p c = false | EmptyString => True end ->
  span p (a ++ b) = (a, b).
Proof.
  intros Ha Hb. induction a as [|x a IH]; cbn.
  - destruct b as [|c b]; [reflexivity|]. cbn. rewrite Hb. reflexivity.
  - cbn in Ha. apply andb_true_iff in Ha. destruct Ha as [Hx Ha].
    rewrite Hx, (IH Ha). reflexivity.
Qed.

Lemma match_command_at_sound (s c rest : string) (op : operation) :
  match_command_at s = Some (c, op, rest) ->
  s = "db." ++ c ++ "." ++ operation_name op ++ "(" ++ rest
  /\ c <> "" /\ all_chars is_word c = true.
Proof.
  unfold match_command_at.
  destruct (after_prefix "db." s) as [r|] eqn:E0; [|discriminate].
  apply after_prefix_split in E0. subst s.
  pose proof (span_split is_word r) as [Hs Hw].
  destruct (span is_word r) as [name tail]. cbn [fst snd] in *.
  destruct name as [|n0 name]; [discriminate|].
  destruct tail as [|d r1]; [discriminate|].
  destruct d as [[] [] [] [] [] [] [] []]; try discriminate.
  assert (F : forall L, after_prefix L r1 = Some rest ->
                        "db." ++ r = "db." ++ String n0 name ++ "." ++ L ++ rest).
  { intros L H. apply after_prefix_split in H. subst r1. rewrite Hs. reflexivity. }
  destruct (after_prefix "find(" r1) as [x|] eqn:E1.
  { intros H; inversion H; subst. split; [exact (F _ E1)|]. split; [discriminate|exact Hw]. }
  destruct (after_prefix "aggregate(" r1) as [x|] eqn:E2.
  { intros H; inversion H; subst. split; [exact (F _ E2)|]. split; [discriminate|exact Hw]. }
  destruct (after_prefix "countDocuments(" r1) as [x|] eqn:E3.
  { intros H; inversion H; subst. split; [exact (F _ E3)|]. split; [discriminate|exact Hw]. }
  destruct (after_prefix "count(" r1) as [x|] eqn:E4; [|discriminate].
  intros H; inversion H; subst. split; [exact (F _ E4)|]. split; [discriminate|exact Hw].
Qed.

Lemma match_command_at_complete (c rest : string) (op : operation) :
  c <> "" -> all_chars is_word c = true ->
  match_command_at ("db." ++ c ++ "." ++ operation_name op ++ "(" ++ rest)
  = Some (c, op, rest).
Proof.
  intros Hc Hw. unfold match_command_at.
  rewrite after_prefix_app.
  rewrite (span_app is_word c ("." ++ operation_name op ++ "(" ++ rest) Hw);
    [|reflexivity].
  destruct c as [|c0 c]; [congruence|].
  destruct op; reflexivity.
Qed.

(** The stack only counts: what is pushed is always the opening bracket. *)
Lemma count_brackets_closed (o c : ascii) (s : string) :
  o <> c ->
  forall (stack : list ascii) (i e : nat),
    stack <> [] ->
    count_brackets o c s stack i = Closed e ->
    exists p q,
      s = p ++ String c q
      /\ e = (i + String.length p + 1)%nat
      /\ (occurrences c p + 1 = List.length stack + occurrences o p)%nat
      /\ forall p1 p2, p = p1 ++ p2 ->
                       (occurrences c p1 < List.length stack + occurrences o p1)%nat.
Proof.
  intros Hoc. induction s as [|d r IH]; intros stack i e Hs H; [discriminate|].
  assert (Hlen : (0 < List.length stack)%nat).
  { destruct stack; [congruence|simpl; lia]. }
  assert (Eco : Ascii.eqb c o = false).
  { apply Ascii.eqb_neq. congruence. }
  cbn [count_brackets] in H.
  destruct (Ascii.eqb d o) eqn:Edo.
  - apply Ascii.eqb_eq in Edo; subst d.
    apply IH in H; [|destruct stack; discriminate].
    destruct H as [p [q [-> [-> [Hb Hp]]]]].
    rewrite length_app in Hb. cbn [List.length] in Hb.
    exists (String o p), q. split; [reflexivity|].
    split; [cbn; lia|].
    split.
    { cbn [occurrences]. rewrite Eco, Ascii.eqb_refl. lia. }
    intros p1 p2 E. destruct p1 as [|x p1]; [cbn; lia|].
    cbn in E. inversion E; subst. cbn [occurrences]. rewrite Eco, Ascii.eqb_refl.
    specialize (Hp p1 p2 eq_refl). rewrite length_app in Hp. cbn [List.length] in Hp. lia.
  - destruct (Ascii.eqb d c) eqn:Edc.
    + apply Ascii.eqb_eq in Edc; subst d.
      assert (Eoc : Ascii.eqb o c = false) by (apply Ascii.eqb_neq; exact Hoc).
      destruct (rev stack) as [|x popped] eqn:Er.
      { discriminate. }
      assert (Hl : List.length stack = S (List.length popped)).
      { rewrite <- (length_rev stack), Er. reflexivity. }
      destruct popped as [|y popped].
      * inversion H; subst. exists "", r. split; [reflexivity|].
        split; [cbn; lia|]. split; [cbn in *; lia|].
        intros p1 p2 E. destruct p1; [cbn; lia|discriminate].
      * apply IH in H.
        2:{ intros E. apply (f_equal (@List.length ascii)) in E.
            rewrite length_rev in E. discriminate. }
        destruct H as [p [q [-> [-> [Hb Hp]]]]].
        rewrite length_rev in Hb.
        exists (String c p), q. split; [reflexivity|].
        split; [cbn; lia|].
        split.
        { cbn [occurrences]. rewrite Eoc, Ascii.eqb_refl. lia. }
        intros p1 p2 E. destruct p1 as [|z p1]; [cbn; lia|].
        cbn in E. inversion E; subst. cbn [occurrences]. rewrite Eoc, Ascii.eqb_refl.
        specialize (Hp p1 p2 eq_refl). rewrite length_rev in Hp. lia.
    + apply IH in H; [|exact Hs].
      destruct H as [p [q [-> [-> [Hb Hp]]]]].
      assert (E1 : Ascii.eqb c d = false).
      { rewrite Ascii.eqb_sym. exact Edc. }
      assert (E2 : Ascii.eqb o d = false).
      { rewrite Ascii.eqb_sym. exact Edo. }
      exists (String d p), q. split; [reflexivity|].
      split; [cbn; lia|].
      split.
      { cbn [occurrences]. rewrite E1, E2. lia. }
      intros p1 p2 E. destruct p1 as [|z p1]; [cbn; lia|].
      cbn in E. inversion E; subst. cbn [occurrences]. rewrite E1, E2.
      specialize (Hp p1 p2 eq_refl). lia.
Qed.

Lemma take_app (a b : string) : take (String.length a) (a ++ b) = a.
Proof. induction a as [|x a IH]; cbn; [destruct b; reflexivity | rewrite IH; reflexivity]. Qed.

Lemma occurrences_app (c : ascii) (a b : string) :
  occurrences c (a ++ b) = (occurrences c a + occurrences c b)%nat.
Proof. induction a as [|x a IH]; cbn; [reflexivity | rewrite IH; lia]. Qed.

Lemma proper_prefix (a b p : string) (c : ascii) :
  a ++ b = p ++ String c "" -> b <> "" -> exists b', p = a ++ b'.
Proof.
  revert p; induction a as [|x a IH]; intros p H Hb; [exists p; reflexivity|].
  destruct p as [|y p]; cbn in H.
  - inversion H. destruct a; [cbn in *; congruence | discriminate].
  - inversion H; subst. destruct (IH p H2 Hb) as [b' ->]. exists b'. reflexivity.
Qed.

(** What the decoder makes of a text that begins with a bracket *)
Lemma scan_members_dict (n : nat) :
  forall d s acc v r, scan_members n d s acc = Ok (v, r) -> exists d, v = VDict d.
Proof.
  induction n as [|n IH]; intros d s acc v r H; [discriminate|].
  cbn [scan_members] in H.
  destruct (after_prefix DQ s); [|discriminate].
  destruct (scanstring s0) as [[k r1]|]; [|discriminate].
  destruct (after_prefix ":" (skip_ws r1)); [|discriminate].
  destruct (scan_once n d (skip_ws s1)) as [[v0 r3]|]; [|discriminate].
  destruct (after_prefix "}" (skip_ws r3)).
  - inversion H; eauto.
  - destruct (after_prefix "," (skip_ws r3)); [|discriminate].
    eapply IH; exact H.
Qed.

Lemma scan_elements_list (n : nat) :
  forall d s acc v r, scan_elements n d s acc = Ok (v, r) -> exists l, v = VList l.
Proof.
  induction n as [|n IH]; intros d s acc v r H; [discriminate|].
  cbn [scan_elements] in H.
  destruct (scan_once n d s) as [[v0 r1]|]; [|discriminate].
  destruct (after_prefix "]" (skip_ws r1)).
  - inversion H; eauto.
  - destruct (after_prefix "," (skip_ws r1)); [|discriminate].
    eapply IH; exact H.
Qed.

Lemma scan_once_brace (m d : nat) (r : string) :
  scan_once (S m) (S d) (String "{" r)
  = match after_prefix "}" (skip_ws r) with
    | Some rest => Ok (VDict [], rest)
    | None => scan_members m d (skip_ws r) []
    end.
Proof. reflexivity. Qed.

Lemma scan_once_bracket (m d : nat) (r : string) :
  scan_once (S m) (S d) (String "[" r)
  = match after_prefix "]" (skip_ws r) with
    | Some rest => Ok (VList [], rest)
    | None => scan_elements m d (skip_ws r) []
    end.
Proof. reflexivity. Qed.

Lemma scan_once_brace_deep (m : nat) (r : string) :
  scan_once (S m) 0 (String "{" r) = Raise Recursion_error.
Proof. reflexivity. Qed.

Lemma scan_once_bracket_deep (m : nat) (r : string) :
  scan_once (S m) 0 (String "[" r) = Raise Recursion_error.
Proof. reflexivity. Qed.

Lemma loads_brace (depth : nat) (r : string) (v : value) :
  loads depth (String "{" r) = Ok v -> exists d, v = VDict d.
Proof.
  unfold loads.
  replace (2 * String.length (String "{" r) + 2)%nat
    with (S (2 * String.length (String "{" r) + 1)) by lia.
  change (skip_ws (String "{" r)) with (String "{" r).
  destruct depth as [|depth]; [rewrite scan_once_brace_deep; discriminate|].
  rewrite scan_once_brace.
  destruct (after_prefix "}" (skip_ws r)) as [rest|].
  - destruct (skip_ws rest); intros H; inversion H; eauto.
  - destruct (scan_members _ _ (skip_ws r) []) as [[v0 r0]|] eqn:E; [|discriminate].
    apply scan_members_dict in E. destruct E as [d ->].
    destruct (skip_ws r0); intros H; inversion H; eauto.
Qed.

Lemma loads_bracket (depth : nat) (r : string) (v : value) :
  loads depth (String "[" r) = Ok v -> exists l, v = VList l.
Proof.
  unfold loads.
  replace (2 * String.length (String "[" r) + 2)%nat
    with (S (2 * String.length (String "[" r) + 1)) by lia.
  change (skip_ws (String "[" r)) with (String "[" r).
  destruct depth as [|depth]; [rewrite scan_once_bracket_deep; discriminate|].
  rewrite scan_once_bracket.
  destruct (after_prefix "]" (skip_ws r)) as [rest|].
  - destruct (skip_ws rest); intros H; inversion H; eauto.
  - destruct (scan_elements _ _ (skip_ws r) []) as [[v0 r0]|] eqn:E; [|discriminate].
    apply scan_elements_list in E. destruct E as [d ->].
    destruct (skip_ws r0); intros H; inversion H; eauto.
Qed.

Lemma loads_fits (op : operation) (depth : nat) (t : string) (v : value) :
  t = "" \/ (exists r, t = String (opening_of op) r) ->
  loads depth t = Ok v -> fits op v = true.
Proof.
  intros [->|[r ->]]; [discriminate|].
  destruct op; cbn [opening_of]; intros H.
  - apply loads_brace in H. destruct H as [d ->]. reflexivity.
  - apply loads_bracket in H. destruct H as [d ->]. reflexivity.
  - apply loads_brace in H. destruct H as [d ->]. reflexivity.
  - apply loads_brace in H. destruct H as [d ->]. reflexivity.
Qed.

Lemma quote_keys_head (t : string) (o : ascii) :
  t = "" \/ (exists r, t = String o r) ->
  quote_keys t = "" \/ exists r, quote_keys t = String o r.
Proof.
  intros [->|[r ->]]; [left; reflexivity|right].
  unfold quote_keys. cbn [String.length quote_keys_from].
  destruct (match_key_at (String o r)) as [[[lead id] rest]|] eqn:E.
  - apply match_key_at_shape in E. destruct E as [c [id' [sp [_ [E _]]]]].
    inversion E; subst. eexists; reflexivity.
  - eexists; reflexivity.
Qed.

Lemma slice_head (start e : nat) (content rest : string) (o : ascii) :
  drop start content = String o rest ->
  slice start e content = "" \/ exists r, slice start e content = String o r.
Proof.
  intros H. unfold slice. rewrite H.
  destruct (e - start)%nat; [left; reflexivity | right; eexists; reflexivity].
Qed.

Lemma erase_app (a b : string) : erase (a ++ b) = erase a ++ erase b.
Proof.
  induction a as [|x a IH]; cbn [erase append]; [reflexivity|].
  destruct (Ascii.eqb x dquote || is_space x); rewrite IH; reflexivity.
Qed.

Lemma erase_spaces (sp : string) : all_chars is_space sp = true -> erase sp = "".
Proof.
  induction sp as [|x sp IH]; cbn; [reflexivity|].
  intros H. apply andb_true_iff in H. destruct H as [Hx Hs].
  rewrite Hx, orb_true_r. apply IH; exact Hs.
Qed.

End ParserMoreFacts.

Section ParserMore.
Import Text Py Json Agent Props More.

(** X17. What the command pattern finds is written in the text: the text
    is some lead, then [db.], the collection, a dot, the operation and an
    opening parenthesis, then the content that is returned; the
    collection is a non-empty run of letters, digits and underscores; and
    no command begins earlier in the text (the match is the leftmost). *)
Theorem search_command_sound (s c rest : string) (op : operation) :
  search_command s = Some (c, op, rest) ->
  exists before,
    s = before ++ "db." ++ c ++ "." ++ operation_name op ++ "(" ++ rest
    /\ c <> "" /\ all_chars is_word c = true
    /\ forall k, (k < String.length before)%nat -> match_command_at (drop k s) = None.
Proof.
  induction s as [|x s IH]; cbn [search_command].
  - destruct (match_command_at "") as [m|] eqn:E; [|discriminate].
    intros H; inversion H; subst. exists "".
    destruct (match_command_at_sound _ _ _ _ E) as [H1 [H2 H3]].
    repeat split; auto. cbn; intros; lia.
  - destruct (match_command_at (String x s)) as [m|] eqn:E.
    + intros H; inversion H; subst. exists "".
      destruct (match_command_at_sound _ _ _ _ E) as [H1 [H2 H3]].
      repeat split; auto. cbn; intros; lia.
    + intros H. destruct (IH H) as [before [-> [H2 [H3 H4]]]].
      exists (String x before). repeat split; auto.
      intros [|k] Hk; [exact E|]. cbn [drop]. apply H4. cbn in Hk; lia.
Qed.

Lemma search_command_sound_witness :
  exists before,
    "run db.orders.count({})"
    = before ++ "db." ++ "orders" ++ "." ++ operation_name Op_count ++ "(" ++ "{})"
    /\ "orders" <> "" /\ all_chars is_word "orders" = true
    /\ forall k, (k < String.length before)%nat ->
                 match_command_at (drop k "run db.orders.count({})") = None.
Proof.
  apply (search_command_sound "run db.orders.count({})" "orders" "{})" Op_count).
  reflexivity.
Defined.

(** X18. Every command that is written in the text is found: when the
    text holds [db.], a non-empty collection name of letters, digits and
    underscores, a dot, one of the four operations and an opening
    parenthesis, the pattern matches, whatever surrounds the command;
    and when no command begins before it, it is this command that is
    returned, with the text after the parenthesis. *)
Theorem search_command_complete (before c rest : string) (op : operation) :
  c <> "" -> all_chars is_word c = true ->
  (exists c' op' rest',
     search_command (before ++ "db." ++ c ++ "." ++ operation_name op ++ "(" ++ rest)
     = Some (c', op', rest'))
  /\ ((forall k, (k < String.length before)%nat ->
         match_command_at
           (drop k (before ++ "db." ++ c ++ "." ++ operation_name op ++ "(" ++ rest))
         = None) ->
      search_command (before ++ "db." ++ c ++ "." ++ operation_name op ++ "(" ++ rest)
      = Some (c, op, rest)).
Proof.
  intros Hc Hw.
  pose proof (match_command_at_complete c rest op Hc Hw) as M.
  assert (S0 : search_command ("db." ++ c ++ "." ++ operation_name op ++ "(" ++ rest)
               = Some (c, op, rest)).
  { destruct ("db." ++ c ++ "." ++ operation_name op ++ "(" ++ rest);
      cbn [search_command]; rewrite M; reflexivity. }
  clear M. remember ("db." ++ c ++ "." ++ operation_name op ++ "(" ++ rest) as cmd.
  clear Heqcmd.
  induction before as [|x before [IH1 IH2]].
  - cbn [append]. split; [eauto|]. intros _. exact S0.
  - cbn [append search_command]. split.
    + destruct (match_command_at (String x (before ++ cmd))) as [[[c' op'] rest']|];
        [eauto|exact IH1].
    + intros H. pose proof (H 0%nat) as H0. cbn [drop append] in H0.
      rewrite H0 by (cbn; lia). apply IH2.
      intros k Hk. apply (H (S k)). cbn; lia.
Qed.

Lemma search_command_complete_witness :
  (exists c' op' rest',
     search_command ("Use " ++ "db." ++ "orders" ++ "." ++ operation_name Op_find
                     ++ "(" ++ "{})")
     = Some (c', op', rest'))
  /\ ((forall k, (k < String.length "Use ")%nat ->
         match_command_at
           (drop k ("Use " ++ "db." ++ "orders" ++ "." ++ operation_name Op_find
                    ++ "(" ++ "{})"))
         = None) ->
      search_command ("Use " ++ "db." ++ "orders" ++ "." ++ operation_name Op_find
                      ++ "(" ++ "{})")
      = Some ("orders", Op_find, "{})")).
Proof.
  apply (search_command_complete "Use " "orders" "{})" Op_find);
    [discriminate | reflexivity].
Defined.

(** X19. The span that the bracket counter closes starts at the first
    opening bracket, ends with a closing bracket, holds as many opening
    as closing brackets, and is the shortest such text: every shorter
    non-empty prefix of it has more opening than closing brackets. *)
Theorem closed_span_is_balanced (o c : ascii) (content : string) (start e : nat) :
  o <> c ->
  find_char o content = Some start ->
  count_brackets o c (drop start content) [] 0 = Closed e ->
  exists body,
    slice start (start + e) content = String o (body ++ String c "")
    /\ occurrences o (slice start (start + e) content)
       = occurrences c (slice start (start + e) content)
    /\ forall p1 p2,
         slice start (start + e) content = p1 ++ p2 -> p1 <> "" -> p2 <> "" ->
         (occurrences c p1 < occurrences o p1)%nat.
Proof.
  intros Hoc Hf Hc.
  destruct (find_char_drop _ _ _ Hf) as [rest Hd].
  unfold slice. rewrite Hd in *. replace (start + e - start)%nat with e by lia.
  cbn [count_brackets] in Hc. rewrite Ascii.eqb_refl in Hc. cbn [app] in Hc.
  apply (count_brackets_closed o c rest Hoc) in Hc; [|discriminate].
  destruct Hc as [p [q [-> [-> [Hb Hp]]]]]. cbn [List.length] in *.
  assert (Eoc : Ascii.eqb o c = false) by (apply Ascii.eqb_neq; exact Hoc).
  assert (Eco : Ascii.eqb c o = false) by (apply Ascii.eqb_neq; congruence).
  assert (Et : take (1 + String.length p + 1) (String o (p ++ String c q))
               = String o (p ++ String c "")).
  { cbn [Nat.add take]. f_equal.
    replace (String.length p + 1)%nat with (String.length (p ++ String c "")).
    - change (String c q) with (String c "" ++ q).
      rewrite <- append_assoc. apply take_app.
    - rewrite length_append. reflexivity. }
  rewrite Et. exists p. split; [reflexivity|]. split.
  - cbn [occurrences]. rewrite !occurrences_app. cbn [occurrences].
    rewrite Eoc, Eco, !Ascii.eqb_refl. lia.
  - intros p1 p2 E H1 H2. destruct p1 as [|x p1]; [congruence|].
    cbn in E. inversion E; subst x.
    destruct (proper_prefix _ _ _ _ (eq_sym H3) H2) as [b' Hb'].
    specialize (Hp p1 b' Hb'). cbn [occurrences].
    rewrite Eco, Ascii.eqb_refl. lia.
Qed.

Lemma closed_span_is_balanced_witness :
  exists body,
    slice 1 (1 + 6) "({a{b}})" = String "{" (body ++ String "}" "")
    /\ occurrences "{" (slice 1 (1 + 6) "({a{b}})")
       = occurrences "}" (slice 1 (1 + 6) "({a{b}})")
    /\ forall p1 p2,
         slice 1 (1 + 6) "({a{b}})" = p1 ++ p2 -> p1 <> "" -> p2 <> "" ->
         (occurrences "}" p1 < occurrences "{" p1)%nat.
Proof.
  apply (closed_span_is_balanced "{" "}" "({a{b}})" 1 6);
    [discriminate | reflexivity | reflexivity].
Defined.

(** X20. The argument that the parser hands to the store has the kind
    that the operation takes, a dict for [find], [count] and
    [countDocuments] and a list for [aggregate], whenever it comes from
    the JSON decoder or from the default; only a value that
    [ast.literal_eval] returned can be of another kind. *)
Theorem recovered_argument_fits (w : world) (query_code collection_name : string)
        (op : operation) (argument : value) (attempts : list attempt) :
  recover w query_code = Command collection_name op argument attempts ->
  fits op argument = true
  \/ exists query_str, In (Literal_eval query_str) attempts
                       /\ literal_eval w query_str = Some argument.
Proof.
  unfold recover.
  destruct (search_command query_code) as [[[name op'] content]|]; [|discriminate].
  destruct (extract_argument w (opening_of op') (closing_of op') (default_of op') content)
    as [x|[a t]] eqn:E; [discriminate|].
  intros H; inversion H; subst; clear H.
  assert (D : fits op (default_of op) = true) by (destruct op; reflexivity).
  unfold extract_argument in E.
  destruct (find_char (opening_of op) content) as [start|] eqn:Ef.
  2:{ inversion E; subst. left; exact D. }
  destruct (find_char_drop _ _ _ Ef) as [rest Hd].
  destruct (count_brackets (opening_of op) (closing_of op) (drop start content) [] 0)
    as [e| |]; [| |discriminate].
  - pose proof (slice_head start (start + e) content rest _ Hd) as Hs.
    pose proof (quote_keys_head _ _ Hs) as Hq.
    revert E. cbv zeta. unfold decode_closed.
    destruct (loads _ (quote_keys (slice start (start + e) content))) as [v|x] eqn:E1.
    { intros E; inversion E; subst. left. exact (loads_fits op _ _ _ Hq E1). }
    destruct (loads _ (slice start (start + e) content)) as [v|[|]] eqn:E2.
    { intros E; inversion E; subst. left. exact (loads_fits op _ _ _ Hs E2). }
    2:{ discriminate. }
    destruct (literal_eval w (slice start (start + e) content)) as [v|] eqn:E3;
      intros E; inversion E; subst.
    + right. eexists; split; [|exact E3]. simpl; tauto.
    + left; exact D.
  - match type of E with
    | inr (decode_unclosed _ _ (slice start ?n content)) = _ =>
        pose proof (slice_head start n content rest _ Hd) as Hs;
        pose proof (quote_keys_head _ _ Hs) as Hq;
        revert E; unfold decode_unclosed;
        destruct (loads _ (quote_keys (slice start n content))) as [v|x] eqn:E1
    end.
    + intros E; inversion E; subst. left. exact (loads_fits op _ _ _ Hq E1).
    + intros E; inversion E; subst. left; exact D.
Qed.

Lemma recovered_argument_fits_witness :
  fits Op_find (VDict [("status", VStr "pending")]) = true
  \/ exists query_str,
       In (Literal_eval query_str) [Loads_clean (bq "{`status`:`pending`}")]
       /\ literal_eval (a_world "" 0) query_str = Some (VDict [("status", VStr "pending")]).
Proof.
  apply (recovered_argument_fits (a_world "" 0) (bq "db.orders.find({status:`pending`})")
           "orders").
  reflexivity.
Defined.

(** X21. The substitution that quotes bare keys only inserts double
    quotes and removes white space: once the double quotes and the white
    space are taken away, the rewritten text and the original are the
    same text. *)
Theorem quote_keys_only_adds_quotes (s : string) :
  erase (quote_keys s) = erase s.
Proof.
  unfold quote_keys. generalize (String.length s) as n. intros n. revert s.
  induction n as [|n IH]; intros s; [reflexivity|].
  cbn [quote_keys_from].
  destruct (match_key_at s) as [[[lead id] rest]|] eqn:E.
  - apply match_key_at_shape in E.
    destruct E as [c [id' [sp [-> [-> [_ [_ [_ Hsp]]]]]]]].
    change (String lead (DQ ++ String c id' ++ DQ ++ ":"))
      with (String lead "" ++ DQ ++ String c id' ++ DQ ++ ":").
    change (String lead (String c id' ++ sp ++ ":" ++ rest))
      with (String lead "" ++ String c id' ++ sp ++ ":" ++ rest).
    rewrite !erase_app, IH, (erase_spaces sp Hsp).
    change (erase DQ) with "". change (erase ":") with ":".
    cbn [append]. rewrite !append_assoc. reflexivity.
  - destruct s as [|x s]; [reflexivity|].
    cbn [erase]. rewrite IH. reflexivity.
Qed.

End ParserMore.

(* ================================================================== *)
(** * The schema *)
(* ================================================================== *)

Section SchemaFacts.
Import Text Py Agent Props Schema More.

Lemma schema_get_set_same (c : string) (e : entry) (s : schema) :
  schema_get c (schema_set c e s) = Some e.
Proof.
  induction s as [|[c' e'] s IH]; cbn [schema_set schema_get].
  - rewrite String.eqb_refl. reflexivity.
  - destruct (String.eqb c c') eqn:E; cbn [schema_get]; rewrite E; [reflexivity|exact IH].
Qed.

Lemma schema_get_set_other (c c' : string) (e : entry) (s : schema) :
  c <> c' -> schema_get c' (schema_set c e s) = schema_get c' s.
Proof.
  intros Hn. induction s as [|[c0 e0] s IH]; cbn [schema_set schema_get].
  - destruct (String.eqb c' c) eqn:E; [|reflexivity].
    apply String.eqb_eq in E. congruence.
  - destruct (String.eqb c c0) eqn:E; cbn [schema_get].
    + apply String.eqb_eq in E; subst c0.
      destruct (String.eqb c' c) eqn:E'; [|reflexivity].
      apply String.eqb_eq in E'. congruence.
    + rewrite IH. reflexivity.
Qed.

Lemma schema_set_fresh (c : string) (e : entry) (s : schema) :
  ~ In c (map fst s) -> schema_set c e s = (s ++ [(c, e)])%list.
Proof.
  induction s as [|[c' e'] s IH]; cbn [schema_set map fst app]; [reflexivity|].
  intros Hn. destruct (String.eqb c c') eqn:E.
  - apply String.eqb_eq in E. subst. exfalso; apply Hn; left; reflexivity.
  - rewrite IH; [reflexivity|]. intros H; apply Hn; right; exact H.
Qed.

(** The entry of a collection after the loop over [names] *)
Lemma extract_from_get (w : world) (cat : catalogue) (c : string) (names : list string) :
  forall acc,
    schema_get c (extract_from w cat names acc)
    = match (if existsb (String.eqb c) names && negb (starts_with "system." c)
             then describe w cat c else None) with
      | Some e => Some e
      | None => schema_get c acc
      end.
Proof.
  induction names as [|n names IH]; intros acc; [reflexivity|].
  cbn [extract_from existsb].
  destruct (String.eqb c n) eqn:E.
  - apply String.eqb_eq in E; subst n. cbn [orb].
    destruct (starts_with "system." c) eqn:Es; cbn [negb andb].
    + rewrite IH. cbn [negb]. rewrite andb_false_r. reflexivity.
    + destruct (describe w cat c) as [e|] eqn:Ed.
      * rewrite IH. cbn [negb]. rewrite andb_true_r.
        destruct (existsb (String.eqb c) names); [reflexivity|].
        apply schema_get_set_same.
      * rewrite IH. cbn [negb]. rewrite andb_true_r.
        destruct (existsb (String.eqb c) names); reflexivity.
  - cbn [orb].
    assert (Hn : n <> c).
    { intros ->. rewrite String.eqb_refl in E. discriminate. }
    destruct (starts_with "system." n); [apply IH|].
    destruct (describe w cat n) as [e|]; [|apply IH].
    rewrite IH. rewrite (schema_get_set_other n c e acc Hn). reflexivity.
Qed.

Lemma extract_from_keys (w : world) (cat : catalogue) (names : list string) :
  NoDup names ->
  forall acc,
    (forall c, In c names -> ~ In c (map fst acc)) ->
    map fst (extract_from w cat names acc)
    = (map fst acc
       ++ filter (fun c => negb (starts_with "system." c)
                           && match describe w cat c with
                              | Some _ => true
                              | None => false
                              end) names)%list.
Proof.
  induction 1 as [|n names Hn Hd IH]; intros acc Hacc; cbn [extract_from filter].
  - rewrite app_nil_r. reflexivity.
  - assert (Hrest : forall c, In c names -> ~ In c (map fst acc)).
    { intros c Hc. apply Hacc. right; exact Hc. }
    destruct (starts_with "system." n); cbn [negb andb]; [apply IH; exact Hrest|].
    destruct (describe w cat n) as [e|]; [|apply IH; exact Hrest].
    rewrite IH.
    + rewrite schema_set_fresh by (apply Hacc; left; reflexivity).
      rewrite map_app. cbn [map fst]. rewrite <- app_assoc. reflexivity.
    + intros c Hc. rewrite schema_set_fresh by (apply Hacc; left; reflexivity).
      rewrite map_app. cbn [map fst]. intros H. apply in_app_or in H.
      destruct H as [H|[H|[]]]; [exact (Hrest c Hc H)|].
      subst c. exact (Hn Hc).
Qed.

End SchemaFacts.

Section SchemaMore.
Import Text Py Agent Props Schema More.

(** X22. [extract_schema] describes a collection exactly when the store
    lists it, its name does not begin with [system.], and neither the
    count nor the sample raises.  The entry then holds that count, the
    type name of every field of the sample (no field when there is no
    sample), and the names of the indexes, or no index when
    [list_indexes] raises: a failure of the indexes does not drop the
    collection, and a failure of one collection does not touch the
    others. *)
Theorem extract_schema_entries (w : world) (cat : catalogue) (c : string) (e : entry) :
  schema_get c (extract_schema w cat) = Some e
  <-> In c (list_collection_names cat)
      /\ starts_with "system." c = false
      /\ exists count sample,
           store_count_documents w c (VDict []) = inr count
           /\ store_find_one w c = inr sample
           /\ entry_doc_count e = count
           /\ fields e = match sample with
                         | Some doc => map (fun '(key, v) => (key, type_name v)) doc
                         | None => []
                         end
           /\ indexed_fields e = match list_indexes cat c with
                                 | inr names => names
                                 | inl _ => []
                                 end
           /\ description e
              = "Collection with " ++ of_nat (List.length (fields e))
                ++ " fields and " ++ of_Z count ++ " documents".
Proof.
  unfold extract_schema. rewrite extract_from_get. cbn [schema_get].
  destruct (existsb (String.eqb c) (list_collection_names cat)) eqn:Ein.
  - assert (Hin : In c (list_collection_names cat)).
    { apply existsb_exists in Ein. destruct Ein as [x [Hx E]].
      apply String.eqb_eq in E. subst; exact Hx. }
    destruct (starts_with "system." c); cbn [negb andb].
    + split; [discriminate|]. intros [_ [H _]]; discriminate.
    + unfold describe.
      destruct (store_count_documents w c (VDict [])) as [err|count].
      { split; [discriminate|]. intros [_ [_ [n [s [H _]]]]]; discriminate. }
      destruct (store_find_one w c) as [err|sample].
      { split; [discriminate|]. intros [_ [_ [n [s [_ [H _]]]]]]; discriminate. }
      split.
      * intros H. inversion H; subst e; clear H. cbn [entry_doc_count fields
          indexed_fields description].
        split; [exact Hin|]. split; [reflexivity|].
        exists count, sample. repeat split; reflexivity.
      * intros [_ [_ [n [s [Hc [Hs [H1 [H2 [H3 H4]]]]]]]]].
        inversion Hc; inversion Hs; subst n s.
        destruct e as [d f k i]. cbn [entry_doc_count fields indexed_fields description] in *.
        subst. reflexivity.
  - cbn [andb]. split; [discriminate|]. intros [Hin _]. exfalso.
    assert (existsb (String.eqb c) (list_collection_names cat) = true) as X.
    { apply existsb_exists. exists c. split; [exact Hin|apply String.eqb_refl]. }
    congruence.
Qed.

(** X23. When the store lists every collection once, the keys of the
    schema are the listed names, in the order of the store, without the
    system collections and without the collections whose count or
    sample raises: an exception stops neither the loop nor the
    description of the collections that follow. *)
Theorem extract_schema_keys (w : world) (cat : catalogue) :
  NoDup (list_collection_names cat) ->
  map fst (extract_schema w cat)
  = filter (fun c => negb (starts_with "system." c)
                     && match store_count_documents w c (VDict []), store_find_one w c with
                        | inr _, inr _ => true
                        | _, _ => false
                        end)
           (list_collection_names cat).
Proof.
  intros Hd. unfold extract_schema.
  rewrite (extract_from_keys w cat _ Hd []) by (intros c _ []).
  cbn [map app]. apply filter_ext. intros c. f_equal.
  unfold describe.
  destruct (store_count_documents w c (VDict [])); [reflexivity|].
  destruct (store_find_one w c); reflexivity.
Qed.

Lemma extract_schema_keys_witness :
  map fst (extract_schema a_failing_world a_catalogue)
  = filter (fun c => negb (starts_with "system." c)
                     && match store_count_documents a_failing_world c (VDict []),
                              store_find_one a_failing_world c with
                        | inr _, inr _ => true
                        | _, _ => false
                        end)
           (list_collection_names a_catalogue).
Proof.
  apply (extract_schema_keys a_failing_world a_catalogue).
  repeat constructor; simpl; intuition discriminate.
Defined.

End SchemaMore.

(* ================================================================== *)
(** * Decimal numerals *)
(* ================================================================== *)

Section NumeralFacts.
Import Text Py Json.

(** The digits that [str] writes *)
Lemma string_of_uint_digits (d : Decimal.uint) :
  all_chars is_digit (NilEmpty.string_of_uint d) = true.
Proof. induction d; cbn [NilEmpty.string_of_uint all_chars]; auto. Qed.

Lemma int_acc_of_uint_acc (d : Decimal.uint) :
  forall acc : positive,
    int_acc (Z.pos acc) (NilEmpty.string_of_uint d) = Some (Z.pos (Pos.of_uint_acc d acc)).
Proof.
  induction d; intros acc; cbn [NilEmpty.string_of_uint Pos.of_uint_acc];
    [reflexivity|..];
    match goal with
    | |- int_acc ?a (String ?c ?s) = Some (Z.pos (Pos.of_uint_acc _ ?p)) =>
        change (int_acc a (String c s)) with (int_acc (10 * a + digit_val c) s);
        replace (10 * a + digit_val c)%Z with (Z.pos p)
          by (change (digit_val c) with (Z.of_nat (code c - 48));
              vm_compute (Z.of_nat _); lia)
    end; apply IHd.
Qed.

Lemma int_acc_of_uint (d : Decimal.uint) :
  int_acc 0 (NilEmpty.string_of_uint d) = Some (Z.of_N (Pos.of_uint d)).
Proof.
  induction d; cbn [NilEmpty.string_of_uint Pos.of_uint];
    [reflexivity|exact IHd|..];
    match goal with
    | |- int_acc 0 (String ?c ?s) = Some (Z.of_N (N.pos (Pos.of_uint_acc _ ?p))) =>
        change (int_acc 0 (String c s)) with (int_acc (Z.pos p) s)
    end; apply int_acc_of_uint_acc.
Qed.

(** The numeral of a positive number: digits, the first of which is
    not 0, that [int] reads back *)
Lemma numeral_of_positive (p : positive) :
  exists c ds,
    NilZero.string_of_uint (Pos.to_uint p) = String c ds
    /\ is_digit c = true /\ Ascii.eqb "0" c = false
    /\ all_chars is_digit ds = true
    /\ int_of (String c ds) = Some (Z.pos p).
Proof.
  pose proof (DecimalPos.Unsigned.to_uint_nonnil p) as Hnil.
  pose proof (DecimalPos.Unsigned.to_uint_nonzero p) as Hzero.
  pose proof (DecimalPos.Unsigned.of_to p) as Hof.
  pose proof (DecimalPos.Unsigned.to_of (Pos.to_uint p)) as Hto.
  rewrite Hof in Hto. change (N.to_uint (N.pos p)) with (Pos.to_uint p) in Hto.
  pose proof (int_acc_of_uint (Pos.to_uint p)) as Hint. rewrite Hof in Hint.
  pose proof (string_of_uint_digits (Pos.to_uint p)) as Hd.
  assert (Hz : forall u, Pos.to_uint p = Decimal.D0 u -> False).
  { intros u E. rewrite E in Hto. unfold Decimal.unorm in Hto.
    rewrite DecimalFacts.nzhead_D0 in Hto.
    destruct (Decimal.nzhead u) eqn:En; try discriminate Hto.
    - injection Hto as Hu. subst u. apply Hzero. exact E.
    - exact (DecimalFacts.nzhead_nonzero u _ En). }
  destruct (Pos.to_uint p) as [|u|u|u|u|u|u|u|u|u|u] eqn:E;
    [contradiction|exfalso; exact (Hz u eq_refl)|..];
    cbn [NilZero.string_of_uint NilEmpty.string_of_uint all_chars] in *;
    eexists _, _; (split; [reflexivity|]);
    (split; [reflexivity|]); (split; [reflexivity|]);
    (split; [exact Hd|exact Hint]).
Qed.

(** The numeral that [str] writes for an integer *)
Lemma of_Z_shape (z : Z) :
  exists sign c ds,
    of_Z z = sign ++ String c ds
    /\ (sign = "" \/ sign = "-")
    /\ is_digit c = true /\ all_chars is_digit ds = true
    /\ (Ascii.eqb "0" c = true -> ds = "")
    /\ int_value (of_Z z) = z
    /\ digits (of_Z z) = String.length (String c ds).
Proof.
  destruct z as [|p|p].
  - exists "", "0"%char, "". repeat split; auto.
  - destruct (numeral_of_positive p) as (c & ds & E & Hc & H0 & Hds & Hv).
    exists "", c, ds. unfold of_Z. cbn [Z.to_int NilZero.string_of_int]. rewrite E.
    assert (Hm : after_prefix "-" (String c ds) = None).
    { cbn [after_prefix]. destruct (Ascii.eqb "-" c) eqn:Em; [|reflexivity].
      apply Ascii.eqb_eq in Em. subst c. discriminate. }
    repeat split; auto.
    + rewrite H0. discriminate.
    + unfold int_value. cbn [append]. rewrite Hm, Hv. reflexivity.
    + unfold digits. cbn [append]. rewrite Hm. reflexivity.
  - destruct (numeral_of_positive p) as (c & ds & E & Hc & H0 & Hds & Hv).
    exists "-", c, ds. unfold of_Z. cbn [Z.to_int NilZero.string_of_int]. rewrite E.
    repeat split; auto.
    + rewrite H0. discriminate.
    + unfold int_value. cbn [append after_prefix]. rewrite Ascii.eqb_refl, Hv. reflexivity.
Qed.

End NumeralFacts.

(* ================================================================== *)
(** * The compiled text is read back *)
(* ================================================================== *)


Section RoundTripFacts.
Import Text Py Json Generator Props More.

(** One character of an ASCII string, written by the encoder and read
    back by the decoder *)
Lemma char_round_trip (c : ascii) :
  (code c <? 128)%nat = true ->
  exists u,
    (forall r acc, scan_units (dumps_char c ++ r) acc = scan_units r (u :: acc))
    /\ (forall us, text_of_units (u :: us) = String c (text_of_units us)).
Proof.
  destruct c as [[] [] [] [] [] [] [] []]; intros H; try discriminate H;
    eexists; (split; [intros r acc; reflexivity|]);
    intros us; try reflexivity; destruct us as [|[x|x] us]; reflexivity.
Qed.

Lemma scan_units_round_trip (s rest : string) :
  ascii_text s = true ->
  forall acc,
    exists us,
      scan_units (dumps_chars s ++ String dquote rest) acc = Some ((rev acc ++ us)%list, rest)
      /\ forall tail, text_of_units (us ++ tail) = s ++ text_of_units tail.
Proof.
  induction s as [|c s IH]; intros Ha acc.
  - exists []. split; [cbn; rewrite app_nil_r; reflexivity|]. intros; reflexivity.
  - cbn [ascii_text all_chars] in Ha. apply andb_true_iff in Ha. destruct Ha as [Hc Hs].
    destruct (char_round_trip c Hc) as [u [Hu Ht]].
    destruct (IH Hs (u :: acc)) as [us [E T]].
    exists (u :: us). split.
    + cbn [dumps_chars]. rewrite append_assoc, Hu, E. cbn [rev].
      rewrite <- app_assoc. reflexivity.
    + intros tail. cbn [app]. rewrite Ht, T. reflexivity.
Qed.

Lemma scanstring_round_trip (s rest : string) :
  ascii_text s = true ->
  scanstring (dumps_chars s ++ String dquote rest) = Some (s, rest).
Proof.
  intros Ha. unfold scanstring.
  destruct (scan_units_round_trip s rest Ha []) as [us [E T]].
  rewrite E. cbn [rev app]. specialize (T []). rewrite app_nil_r in T.
  rewrite T. cbn [text_of_units]. rewrite append_empty. reflexivity.
Qed.


Lemma dumps_str_app (k X : string) :
  dumps_str k ++ X = String dquote (dumps_chars k ++ String dquote X).
Proof.
  unfold dumps_str, DQ. cbn [append]. rewrite append_assoc. reflexivity.
Qed.

Lemma follows_delimited (v : value) (rest : string) : delimited rest -> follows v rest.
Proof. destruct v; cbn; auto. Qed.

Lemma skip_ws_head (text R : string) : head_ok text -> skip_ws (text ++ R) = text ++ R.
Proof.
  intros [c [t [-> [H _]]]]. cbn. rewrite H. reflexivity.
Qed.

Lemma head_ok_app (text R : string) : head_ok text -> head_ok (text ++ R).
Proof.
  intros [c [t [-> H]]]. exists c, (t ++ R). split; [reflexivity|exact H].
Qed.

Lemma not_closing (text R : string) :
  head_ok text ->
  after_prefix "]" (text ++ R) = None /\ after_prefix "}" (text ++ R) = None.
Proof.
  intros [c [t [-> [_ [H1 H2]]]]]. cbn [append after_prefix]. rewrite H1, H2. auto.
Qed.

Lemma distinct_NoDup (l : list string) : distinct l = true -> NoDup l.
Proof.
  induction l as [|x l IH]; cbn [distinct]; [constructor|].
  intros H. apply andb_true_iff in H. destruct H as [Hx Hl].
  constructor; [|apply IH; exact Hl].
  intros Hin. apply negb_true_iff in Hx.
  assert (mem x l = true) as X.
  { unfold mem. apply existsb_exists. exists x. split; [exact Hin|apply String.eqb_refl]. }
  congruence.
Qed.

Lemma dict_set_fresh (k : string) (v : value) (d : dict) :
  ~ In k (map fst d) -> dict_set k v d = (d ++ [(k, v)])%list.
Proof.
  induction d as [|[k' v'] d IH]; cbn [dict_set map fst app]; [reflexivity|].
  intros Hn. destruct (String.eqb k k') eqn:E.
  - apply String.eqb_eq in E. subst. exfalso; apply Hn; left; reflexivity.
  - rewrite IH; [reflexivity|]. intros H; apply Hn; right; exact H.
Qed.

Lemma dict_of_pairs_distinct (l : dict) :
  forall acc, NoDup (map fst (acc ++ l)) ->
              fold_left (fun d kv => dict_set (fst kv) (snd kv) d) l acc = (acc ++ l)%list.
Proof.
  induction l as [|[k v] l IH]; intros acc H; cbn [fold_left fst snd].
  - rewrite app_nil_r. reflexivity.
  - assert (Hk : ~ In k (map fst acc)).
    { rewrite map_app in H. cbn [map fst] in H. apply NoDup_remove_2 in H.
      intros X. apply H. apply in_or_app; left; exact X. }
    rewrite (dict_set_fresh k v acc Hk). rewrite IH.
    + rewrite <- app_assoc. reflexivity.
    + rewrite <- app_assoc. exact H.
Qed.

Lemma scan_elements_eq (m d : nat) (s : string) (acc : list value) :
  scan_elements (S m) d s acc
  = match scan_once m d s with
    | Raise e => Raise e
    | Ok (v, r1) =>
        match after_prefix "]" (skip_ws r1) with
        | Some rest => Ok (VList (rev (v :: acc)), rest)
        | None =>
            match after_prefix "," (skip_ws r1) with
            | Some r2 => scan_elements m d (skip_ws r2) (v :: acc)
            | None => Raise Value_error
            end
        end
    end.
Proof. reflexivity. Qed.

Lemma scan_members_eq (m d : nat) (s : string) (acc : list (string * value)) :
  scan_members (S m) d s acc
  = match after_prefix DQ s with
    | None => Raise Value_error
    | Some r =>
        match scanstring r with
        | None => Raise Value_error
        | Some (k, r1) =>
            match after_prefix ":" (skip_ws r1) with
            | None => Raise Value_error
            | Some r2 =>
                match scan_once m d (skip_ws r2) with
                | Raise e => Raise e
                | Ok (v, r3) =>
                    match after_prefix "}" (skip_ws r3) with
                    | Some rest =>
                        Ok (VDict (dict_of_pairs (rev ((k, v) :: acc))), rest)
                    | None =>
                        match after_prefix "," (skip_ws r3) with
                        | Some r4 => scan_members m d (skip_ws r4) ((k, v) :: acc)
                        | None => Raise Value_error
                        end
                    end
                end
            end
        end
    end.
Proof. reflexivity. Qed.

Lemma list_max_cons (a : nat) (l : list nat) :
  list_max (a :: l) = Nat.max a (list_max l).
Proof. reflexivity. Qed.

(** The separators that [json.dumps] writes, as the decoder reads them *)
Lemma close_bracket (rest : string) :
  after_prefix "]" (skip_ws ("]" ++ rest)) = Some rest.
Proof. reflexivity. Qed.

Lemma close_brace (rest : string) :
  after_prefix "}" (skip_ws ("}" ++ rest)) = Some rest.
Proof. reflexivity. Qed.

Lemma comma_space (R : string) :
  after_prefix "]" (skip_ws (", " ++ R)) = None
  /\ after_prefix "}" (skip_ws (", " ++ R)) = None
  /\ after_prefix "," (skip_ws (", " ++ R)) = Some (" " ++ R)
  /\ skip_ws (" " ++ R) = skip_ws R.
Proof. repeat split; reflexivity. Qed.

Lemma colon_space (R : string) :
  after_prefix ":" (skip_ws (": " ++ R)) = Some (" " ++ R).
Proof. reflexivity. Qed.

(** The elements of a list, from the first that is not read yet *)
Lemma elements_read_back (l : list value) :
  Forall reads_back l -> forallb plain l = true ->
  exists xs,
    all_some (map dumps l) = Some xs
    /\ List.length xs = List.length l
    /\ (l <> [] -> head_ok (join ", " xs))
    /\ forall acc rest m depth,
         l <> [] -> (2 * String.length (join ", " xs) + 2 <= m)%nat ->
         (list_max (map height l) <= depth)%nat ->
         scan_elements m depth (join ", " xs ++ "]" ++ rest) acc
         = Ok (VList (rev acc ++ l), rest).
Proof.
  induction 1 as [|x l Hx Hl IH]; intros Hp.
  - exists []. repeat split; try reflexivity; intros; congruence.
  - cbn [forallb] in Hp. apply andb_true_iff in Hp. destruct Hp as [Hpx Hpl].
    destruct (Hx Hpx) as [t [Ht [Hh Hr]]].
    destruct (IH Hpl) as [xs [Hxs [Hlen [Hhead Hscan]]]].
    exists (t :: xs). cbn [map all_some]. rewrite Ht, Hxs.
    split; [reflexivity|]. split; [cbn; congruence|].
    destruct l as [|y l].
    + destruct xs; [|discriminate]. cbn [join].
      split; [intros _; exact Hh|].
      intros acc rest m depth _ Hm Hd. destruct m as [|m]; [lia|].
      cbn [map] in Hd. rewrite list_max_cons in Hd.
      rewrite scan_elements_eq.
      rewrite (Hr ("]" ++ rest) m depth).
      2:{ apply follows_delimited. exists "]"%char, rest. auto. }
      2:{ lia. }
      2:{ lia. }
      rewrite close_bracket. reflexivity.
    + destruct xs as [|t' xs]; [discriminate|].
      assert (Hne : y :: l <> []) by discriminate.
      specialize (Hhead Hne).
      change (join ", " (t :: t' :: xs)) with (t ++ ", " ++ join ", " (t' :: xs)).
      split; [intros _; apply head_ok_app; exact Hh|].
      intros acc rest m depth _ Hm Hd. destruct m as [|m]; [lia|].
      cbn [map] in Hd. rewrite list_max_cons in Hd.
      rewrite !length_append in Hm. cbn [String.length] in Hm.
      rewrite scan_elements_eq. rewrite !append_assoc.
      rewrite (Hr (", " ++ join ", " (t' :: xs) ++ "]" ++ rest) m depth).
      2:{ apply follows_delimited. eexists ","%char, _. split; [reflexivity|auto]. }
      2:{ lia. }
      2:{ lia. }
      destruct (comma_space (join ", " (t' :: xs) ++ "]" ++ rest)) as [C1 [_ [C2 C3]]].
      rewrite C1, C2, C3.
      rewrite (skip_ws_head _ ("]" ++ rest) Hhead).
      rewrite (Hscan (x :: acc) rest m depth Hne) by (cbn [map]; lia).
      cbn [rev]. rewrite <- app_assoc. reflexivity.
Qed.

(** The members of a dict, from the first that is not read yet *)
Lemma members_read_back (d : dict) :
  Forall (fun kv => reads_back (snd kv)) d ->
  forallb (fun '(k, x) => ascii_text k && plain x) d = true ->
  exists xs,
    all_some (map (fun '(k, x) =>
                     option_map (fun t => dumps_str k ++ ": " ++ t) (dumps x)) d) = Some xs
    /\ List.length xs = List.length d
    /\ (d <> [] -> exists t, join ", " xs = String dquote t)
    /\ forall acc rest m depth,
         d <> [] -> (2 * String.length (join ", " xs) + 2 <= m)%nat ->
         (list_max (map (fun kv => height (snd kv)) d) <= depth)%nat ->
         scan_members m depth (join ", " xs ++ "}" ++ rest) acc
         = Ok (VDict (dict_of_pairs (rev acc ++ d)), rest).
Proof.
  induction 1 as [|[k x] d Hx Hd IH]; intros Hp.
  - exists []. repeat split; try reflexivity; intros; congruence.
  - cbn [forallb snd] in *. apply andb_true_iff in Hp. destruct Hp as [Hpx Hpd].
    apply andb_true_iff in Hpx. destruct Hpx as [Hk Hpx].
    destruct (Hx Hpx) as [t [Ht [Hh Hr]]].
    destruct (IH Hpd) as [xs [Hxs [Hlen [Hhead Hscan]]]].
    exists ((dumps_str k ++ ": " ++ t) :: xs). cbn [map all_some]. rewrite Ht, Hxs.
    cbn [option_map].
    split; [reflexivity|]. split; [cbn; congruence|].
    assert (Key : forall R m depth acc',
              (2 * String.length t + 1 <= m)%nat -> follows x R ->
              (height x <= depth)%nat ->
              scan_members (S m) depth ((dumps_str k ++ ": " ++ t) ++ R) acc'
              = match after_prefix "}" (skip_ws R) with
                | Some rest => Ok (VDict (dict_of_pairs (rev ((k, x) :: acc'))), rest)
                | None =>
                    match after_prefix "," (skip_ws R) with
                    | Some r4 => scan_members m depth (skip_ws r4) ((k, x) :: acc')
                    | None => Raise Value_error
                    end
                end).
    { intros R m depth acc' Hm Hf Hx'. rewrite scan_members_eq.
      rewrite !append_assoc, dumps_str_app.
      change (after_prefix DQ (String dquote ?a)) with (Some a).
      cbv beta iota.
      rewrite (scanstring_round_trip k _ Hk).
      rewrite colon_space.
      destruct (comma_space (t ++ R)) as [_ [_ [_ C3]]]. rewrite C3.
      rewrite (skip_ws_head _ R Hh).
      rewrite (Hr R m depth Hf Hm Hx'). reflexivity. }
    destruct d as [|[k' y] d].
    + destruct xs; [|discriminate]. cbn [join].
      split; [intros _; rewrite dumps_str_app; eexists; reflexivity|].
      intros acc rest m depth _ Hm Hdepth. destruct m as [|m]; [lia|].
      cbn [map snd] in Hdepth. rewrite list_max_cons in Hdepth.
      rewrite !length_append in Hm.
      rewrite Key; [| lia | apply follows_delimited; exists "}"%char, rest; auto | lia].
      rewrite close_brace. reflexivity.
    + destruct xs as [|t' xs]; [discriminate|].
      assert (Hne : (k', y) :: d <> []) by discriminate.
      destruct (Hhead Hne) as [t0 Et0].
      change (join ", " ((dumps_str k ++ ": " ++ t) :: t' :: xs))
        with ((dumps_str k ++ ": " ++ t) ++ ", " ++ join ", " (t' :: xs)).
      split; [intros _; rewrite append_assoc, dumps_str_app; eexists; reflexivity|].
      intros acc rest m depth _ Hm Hdepth. destruct m as [|m]; [lia|].
      cbn [map snd] in Hdepth. rewrite list_max_cons in Hdepth.
      rewrite !length_append in Hm. cbn [String.length] in Hm.
      rewrite (append_assoc (dumps_str k ++ ": " ++ t)).
      rewrite Key;
        [| lia | apply follows_delimited; eexists ","%char, _; split; [reflexivity|auto]
         | lia].
      rewrite append_assoc.
      destruct (comma_space (join ", " (t' :: xs) ++ "}" ++ rest)) as [_ [C1 [C2 C3]]].
      rewrite C1, C2, C3.
      assert (Hs : skip_ws (join ", " (t' :: xs) ++ "}" ++ rest)
                   = join ", " (t' :: xs) ++ "}" ++ rest).
      { rewrite Et0. reflexivity. }
      rewrite Hs.
      rewrite (Hscan ((k, x) :: acc) rest m depth Hne) by (cbn [map snd]; lia).
      cbn [rev]. rewrite <- app_assoc. reflexivity.
Qed.

Lemma scan_once_string (m d : nat) (X : string) :
  scan_once (S m) d (String dquote X)
  = match scanstring X with
    | Some (t, rest) => Ok (VStr t, rest)
    | None => Raise Value_error
    end.
Proof. reflexivity. Qed.

(** What a digit and a sign are not *)
Lemma numeral_head (c : ascii) :
  is_digit c = true \/ c = "-"%char ->
  is_ws c = false /\ Ascii.eqb "]" c = false /\ Ascii.eqb "}" c = false
  /\ Ascii.eqb dquote c = false /\ Ascii.eqb "{" c = false /\ Ascii.eqb "[" c = false
  /\ Ascii.eqb "n" c = false /\ Ascii.eqb "t" c = false /\ Ascii.eqb "f" c = false.
Proof.
  intros [H | ->]; [|repeat split; reflexivity].
  destruct c as [[] [] [] [] [] [] [] []]; try discriminate H; repeat split; reflexivity.
Qed.

Lemma span_digits (ds rest : string) :
  all_chars is_digit ds = true -> delimited rest ->
  span is_digit (ds ++ rest) = (ds, rest).
Proof.
  intros Hd (c & r & -> & Hc). induction ds as [|a ds IH].
  - destruct Hc as [-> | [-> | ->]]; reflexivity.
  - cbn [all_chars] in Hd. apply andb_true_iff in Hd. destruct Hd as [Ha Hd].
    cbn [append span]. rewrite Ha, (IH Hd). reflexivity.
Qed.

Lemma scan_integer_of_Z (z : Z) (rest : string) :
  delimited rest -> scan_integer (of_Z z ++ rest) = Some (of_Z z, rest).
Proof.
  intros Hr.
  destruct (of_Z_shape z) as (sign & c & ds & -> & Hs & Hc & Hds & H0 & _).
  destruct (numeral_head c (or_introl Hc)) as (_ & _ & _ & _ & _ & _ & _).
  assert (Hm : Ascii.eqb "-" c = false).
  { destruct (Ascii.eqb "-" c) eqn:E; [|reflexivity].
    apply Ascii.eqb_eq in E. subst c. discriminate. }
  assert (Body : match after_prefix "0" (String c ds ++ rest) with
                 | Some r => Some (sign ++ "0", r)
                 | None =>
                     match span is_digit (String c ds ++ rest) with
                     | (EmptyString, _) => None
                     | (run, r) => Some (sign ++ run, r)
                     end
                 end = Some (sign ++ String c ds, rest)).
  { cbn [append after_prefix]. destruct (Ascii.eqb "0" c) eqn:E0.
    - rewrite (H0 eq_refl). apply Ascii.eqb_eq in E0. subst c. reflexivity.
    - cbn [span]. rewrite Hc, (span_digits ds rest Hds Hr). reflexivity. }
  unfold scan_integer. destruct Hs as [-> | ->].
  - cbn [append after_prefix]. rewrite Hm. exact Body.
  - change (after_prefix "-" (("-" ++ String c ds) ++ rest))
      with (Some (String c ds ++ rest)).
    cbv beta iota. exact Body.
Qed.

Lemma scan_number_of_Z (z : Z) (rest : string) :
  delimited rest -> (digits (of_Z z) <=? max_str_digits)%nat = true ->
  scan_number (of_Z z ++ rest) = Some (VInt z, rest).
Proof.
  intros Hr Hd. unfold scan_number. rewrite (scan_integer_of_Z z rest Hr).
  assert (F : scan_fraction rest = (EmptyString, rest)
              /\ scan_exponent rest = (EmptyString, rest)).
  { destruct Hr as (c & r & -> & [-> | [-> | ->]]); split; reflexivity. }
  destruct F as (-> & ->).
  apply Nat.leb_le in Hd. apply Nat.ltb_ge in Hd. rewrite Hd.
  destruct (of_Z_shape z) as (_ & _ & _ & _ & _ & _ & _ & _ & -> & _). reflexivity.
Qed.

(** Every integer of at most 4300 digits is read back. *)
Lemma int_reads_back (z : Z) : reads_back (VInt z).
Proof.
  intros Hp. cbn [plain] in Hp. exists (of_Z z). split; [reflexivity|].
  destruct (of_Z_shape z) as (sign & c & ds & E & Hs & Hc & _).
  assert (H : exists h t, of_Z z = String h t /\ (is_digit h = true \/ h = "-"%char)).
  { rewrite E. destruct Hs as [-> | ->]; eexists _, _; (split; [reflexivity|]); auto. }
  destruct H as (h & t & Eh & Hh).
  destruct (numeral_head h Hh) as (W & B1 & B2 & Q & O1 & O2 & N1 & N2 & N3).
  split; [exists h, t; auto|].
  intros rest m depth Hr Hm _. destruct m as [|m]; [lia|]. clear Hm.
  pose proof (scan_number_of_Z z rest Hr Hp) as Hn. rewrite Eh in *.
  cbn [append] in *. cbn [scan_once]. unfold DQ. cbn [after_prefix].
  rewrite Q, O1, O2. unfold scan_constant. cbn [after_prefix].
  rewrite N1, N2, N3, Hn. reflexivity.
Qed.

(** The decoder reads back the text of every plain value. *)
Lemma plain_reads_back (v : value) : reads_back v.
Proof.
  induction v as [| b | z | n | s | l IH | d IH | y m d0 | h] using value_ind.
  - intros _. exists "null". split; [reflexivity|]. split.
    + eexists _, _; repeat split; reflexivity.
    + intros rest m depth _ Hm _. destruct m as [|m]; [cbn in Hm; lia|]. reflexivity.
  - intros _. destruct b.
    + exists "true". split; [reflexivity|]. split.
      * eexists _, _; repeat split; reflexivity.
      * intros rest m depth _ Hm _. destruct m as [|m]; [cbn in Hm; lia|]. reflexivity.
    + exists "false". split; [reflexivity|]. split.
      * eexists _, _; repeat split; reflexivity.
      * intros rest m depth _ Hm _. destruct m as [|m]; [cbn in Hm; lia|]. reflexivity.
  - apply int_reads_back.
  - discriminate.
  - intros Hp. cbn [plain] in Hp. exists (dumps_str s). split; [reflexivity|]. split.
    + eexists dquote, _. rewrite <- (append_empty (dumps_str s)), dumps_str_app.
      repeat split; reflexivity.
    + intros rest m depth _ Hm _. destruct m as [|m]; [lia|].
      rewrite dumps_str_app, scan_once_string, (scanstring_round_trip s rest Hp).
      reflexivity.
  - intros Hp. cbn [plain] in Hp.
    destruct (elements_read_back l IH Hp) as [xs [Hxs [Hlen [Hhead Hscan]]]].
    exists ("[" ++ join ", " xs ++ "]"). cbn [dumps]. rewrite Hxs.
    split; [reflexivity|]. split.
    + eexists "["%char, _; repeat split; reflexivity.
    + intros rest m depth _ Hm Hd. destruct m as [|m]; [lia|].
      cbn [height] in Hd. destruct depth as [|depth]; [lia|].
      rewrite !length_append in Hm. cbn [String.length] in Hm.
      change (("[" ++ join ", " xs ++ "]") ++ rest)
        with (String "[" ((join ", " xs ++ "]") ++ rest)).
      rewrite append_assoc, scan_once_bracket.
      destruct l as [|x l].
      * destruct xs; [|discriminate]. reflexivity.
      * assert (Hne : x :: l <> []) by discriminate.
        rewrite (skip_ws_head _ _ (Hhead Hne)).
        rewrite (proj1 (not_closing _ ("]" ++ rest) (Hhead Hne))).
        rewrite (Hscan [] rest m depth Hne) by lia. reflexivity.
  - intros Hp. cbn [plain] in Hp. apply andb_true_iff in Hp. destruct Hp as [Hk Hp].
    destruct (members_read_back d IH Hp) as [xs [Hxs [Hlen [Hhead Hscan]]]].
    exists ("{" ++ join ", " xs ++ "}"). cbn [dumps]. rewrite Hxs.
    split; [reflexivity|]. split.
    + eexists "{"%char, _; repeat split; reflexivity.
    + intros rest m depth _ Hm Hd. destruct m as [|m]; [lia|].
      cbn [height] in Hd. destruct depth as [|depth]; [lia|].
      rewrite !length_append in Hm. cbn [String.length] in Hm.
      change (("{" ++ join ", " xs ++ "}") ++ rest)
        with (String "{" ((join ", " xs ++ "}") ++ rest)).
      rewrite append_assoc, scan_once_brace.
      destruct d as [|kv d].
      * destruct xs; [|discriminate]. reflexivity.
      * assert (Hne : kv :: d <> []) by discriminate.
        destruct (Hhead Hne) as [t0 Et0].
        pose proof (Hscan [] rest m depth Hne) as Hs. rewrite Et0 in *.
        change (skip_ws (String dquote t0 ++ "}" ++ rest))
          with (String dquote t0 ++ "}" ++ rest).
        change (after_prefix "}" (String dquote t0 ++ "}" ++ rest)) with (@None string).
        rewrite Hs by (cbn [String.length] in *; lia).
        cbn [rev app]. unfold dict_of_pairs.
        rewrite (dict_of_pairs_distinct (kv :: d) []); [reflexivity|].
        apply distinct_NoDup. exact Hk.
  - discriminate.
  - discriminate.
Qed.

(** The encoder writes a datetime as it writes the dict that stands
    for it. *)
Lemma dumps_decoded (v : value) : dumps (decoded v) = dumps v.
Proof.
  induction v as [| b | z | n | s | l IH | d IH | y m d0 | h] using value_ind;
    try reflexivity.
  - cbn [decoded dumps]. f_equal. f_equal. rewrite map_map.
    induction IH as [|x l Hx _ IHl]; [reflexivity|].
    cbn [map]. rewrite Hx, IHl. reflexivity.
  - cbn [decoded dumps]. f_equal. f_equal. rewrite map_map.
    induction IH as [|[k x] l Hx _ IHl]; [reflexivity|].
    cbn [map snd] in *. rewrite Hx, IHl. reflexivity.
Qed.

(** A plain value other than a number is read back by [loads] from its
    text, when the interpreter has room for its containers. *)
Lemma loads_dumps (v : value) (depth : nat) :
  plain v = true -> follows v "" -> (height v <= depth)%nat ->
  exists text, dumps v = Some text /\ loads depth text = Ok v.
Proof.
  intros Hp Hf Hd. destruct (plain_reads_back v Hp) as [text [Ht [Hh Hs]]].
  exists text. split; [exact Ht|].
  unfold loads.
  pose proof (skip_ws_head text "" Hh) as Hw. rewrite append_empty in Hw. rewrite Hw.
  specialize (Hs "" (2 * String.length text + 2)%nat depth).
  rewrite append_empty in Hs. rewrite Hs; [reflexivity | exact Hf | lia | exact Hd].
Qed.

Lemma loads_plain (l : list value) (depth : nat) :
  plain (decoded (VList l)) = true ->
  (height (decoded (VList l)) <= depth)%nat ->
  exists text, dumps (VList l) = Some text
               /\ loads depth text = Ok (decoded (VList l)).
Proof.
  intros Hp Hd. destruct (loads_dumps (decoded (VList l)) depth Hp I Hd) as [text [Ht Hl]].
  exists text. split; [rewrite <- dumps_decoded; exact Ht|exact Hl].
Qed.


(** The field names that the compiler writes are field names of the
    metadata. *)
Lemma lookup_In (md : metadata) (c : string) (fs : fields) :
  lookup c md = Some fs -> In (c, fs) md.
Proof.
  induction md as [|[c' fs'] md IH]; cbn [lookup]; [discriminate|].
  destruct (String.eqb c c') eqn:E.
  - apply String.eqb_eq in E. intros H; inversion H; subst. left; reflexivity.
  - intros H; right; apply IH; exact H.
Qed.

Lemma ascii_field (md : metadata) (c f t : string) (fs : fields) :
  ascii_metadata md = true -> lookup c md = Some fs -> In (f, t) fs ->
  ascii_text f = true.
Proof.
  intros Ha Hl Hf. apply lookup_In in Hl.
  unfold ascii_metadata in Ha. rewrite forallb_forall in Ha.
  specialize (Ha _ Hl). cbn in Ha. rewrite forallb_forall in Ha.
  exact (Ha _ Hf).
Qed.

Lemma ascii_amount_field (md : metadata) (c f : string) :
  ascii_metadata md = true -> _find_amount_field md c = Some f -> ascii_text f = true.
Proof.
  intros Ha. unfold _find_amount_field.
  destruct (lookup c md) as [fs|] eqn:El; [|discriminate].
  repeat match goal with
         | |- context [find ?p fs] =>
             let E := fresh "E" in
             destruct (find p fs) as [[f0 t0]|] eqn:E;
             [intros H; inversion H; subst;
              apply find_some in E; destruct E as [E _];
              exact (ascii_field md c f t0 fs Ha El E)|]
         end.
  discriminate.
Qed.

Lemma ascii_date_field (md : metadata) (c f : string) (others : list string) :
  ascii_metadata md = true -> _find_date_fields md c = f :: others ->
  ascii_text f = true.
Proof.
  intros Ha. unfold _find_date_fields.
  destruct (lookup c md) as [fs|] eqn:El; [|discriminate].
  intros H.
  assert (Hin : In f (map fst (filter (fun '(field_name, field_type) =>
                   String.eqb field_type "date"
                   || contains "date" (lower field_name)
                   || contains "time" (lower field_name)) fs)))
    by (rewrite H; left; reflexivity).
  apply in_map_iff in Hin. destruct Hin as [[f' t] [<- Hin]].
  apply filter_In in Hin. destruct Hin as [Hin _].
  exact (ascii_field md c f' t fs Ha El Hin).
Qed.

Lemma plain_year_range (Y : Z) :
  (2000 <= Y <= 2099)%Z -> plain (decoded (year_range Y)) = true.
Proof.
  intros HY.
  assert (All : forallb (fun n => plain (decoded (year_range (2000 + Z.of_nat n))))
                        (seq 0 100) = true) by (vm_compute; reflexivity).
  rewrite forallb_forall in All.
  specialize (All (Z.to_nat (Y - 2000))).
  replace (2000 + Z.of_nat (Z.to_nat (Y - 2000)))%Z with Y in All by lia.
  apply All, in_seq. lia.
Qed.

Lemma NoDup_distinct (l : list string) : NoDup l -> distinct l = true.
Proof.
  induction 1 as [|x l Hx _ IH]; [reflexivity|].
  cbn [distinct]. rewrite IH, andb_true_r. apply negb_true_iff.
  destruct (mem x l) eqn:E; [|reflexivity].
  exfalso. apply Hx. apply mem_In. exact E.
Qed.

Lemma dict_set_NoDup (k : string) (v : value) (d : dict) :
  NoDup (map fst d) -> NoDup (map fst (dict_set k v d)).
Proof.
  induction d as [|[k' v'] d IH]; cbn [dict_set map fst].
  - intros _. constructor; [intros []|constructor].
  - intros H. inversion H as [|? ? Hk Hd]; subst.
    destruct (String.eqb k k') eqn:E; cbn [map fst]; [exact H|].
    constructor; [|apply IH; exact Hd].
    intros Hin. apply in_map_iff in Hin. destruct Hin as [[k0 v0] [E0 Hin]].
    cbn in E0; subst k0. apply dict_set_In in Hin. destruct Hin as [[-> _]|Hin].
    + rewrite String.eqb_refl in E. discriminate.
    + apply Hk. apply in_map_iff. exists (k', v0). auto.
Qed.

Lemma match_stage_keys (md : metadata) (collection : string) (i : intent) (f : filters)
      (m : dict) :
  build_match_stage md collection i f = Some m -> NoDup (map fst m).
Proof.
  unfold build_match_stage.
  match goal with
  | |- match ?w with _ => _ end = _ -> _ => destruct w as [m0|] eqn:Ew
  end; [|discriminate].
  assert (H0 : NoDup (map fst m0)).
  { destruct (year f) as [y|]; [|inversion Ew; constructor].
    destruct (int_of y); [|discriminate].
    destruct (_find_date_fields md collection); inversion Ew; [constructor|].
    cbn. constructor; [intros []|constructor]. }
  destruct (status f).
  - destruct (_has_field md collection "status"); intros H; inversion H; subst;
      [apply dict_set_NoDup|]; exact H0.
  - destruct (intent_eqb i I_aggregate_sum && _has_field md collection "status");
      intros H; inversion H; subst; [apply dict_set_NoDup|]; exact H0.
Qed.

Lemma plain_match_stage (md : metadata) (collection question : string) (i : intent)
      (m : dict) :
  ascii_metadata md = true ->
  build_match_stage md collection i (_extract_filters question) = Some m ->
  plain (decoded (VDict [("$match", VDict m)])) = true.
Proof.
  intros Ha Hm. cbn [decoded map plain distinct mem existsb negb andb fst forallb].
  change (ascii_text "$match") with true. rewrite !andb_true_r. cbn [andb].
  apply andb_true_iff. split.
  - rewrite map_map.
    replace (map (fun x => fst (let '(k, x0) := x in (k, decoded x0))) m)
      with (map fst m).
    + apply NoDup_distinct. eapply match_stage_keys; exact Hm.
    + apply map_ext. intros [k x]. reflexivity.
  - apply forallb_forall. intros [k x] Hin.
    apply in_map_iff in Hin. destruct Hin as [[k0 x0] [E Hin]].
    inversion E; subst; clear E.
    destruct (match_stage_entries _ _ _ _ _ _ _ Hm Hin)
      as [[-> [s [-> [Hs _]]]]|[Y [y [-> [HY [_ [_ Hd]]]]]]].
    + cbn in Hs. destruct Hs as [<-|[<-|[<-|[]]]]; reflexivity.
    + rewrite (plain_year_range Y HY), andb_true_r.
      destruct (_find_date_fields md collection) as [|f others] eqn:Ed; [discriminate|].
      cbn in Hd. inversion Hd; subst. eapply ascii_date_field; eassumption.
Qed.

Lemma plain_intent_stages (md : metadata) (question collection : string) (i : intent) :
  ascii_metadata md = true ->
  forallb plain (map decoded (intent_stages md question collection i)) = true.
Proof.
  intros Ha.
  assert (Amount : forall f, _find_amount_field md collection = Some f ->
                             ascii_text ("$" ++ f) = true).
  { intros f Hf. cbn. eapply ascii_amount_field; eassumption. }
  assert (Date : forall f others, _find_date_fields md collection = f :: others ->
                                  ascii_text f = true).
  { intros f others Hf. eapply ascii_date_field; eassumption. }
  unfold intent_stages, product_stages, group_stage.
  destruct (_find_amount_field md collection) as [af|];
    [specialize (Amount af eq_refl)|clear Amount];
    (destruct (_find_date_fields md collection) as [|df others];
     [clear Date|specialize (Date df others eq_refl)]);
    destruct i;
    repeat match goal with
           | |- context [if ?b then _ else _] => destruct b
           end;
    try reflexivity;
    cbn [map decoded forallb plain distinct mem existsb fst negb andb];
    rewrite ?Amount, ?Date; reflexivity.
Qed.

(** The containers that the compiler nests *)
Lemma list_max_bound (n : nat) (l : list value) :
  forallb (fun v => (height v <=? n)%nat) l = true ->
  (list_max (map height l) <= n)%nat.
Proof.
  induction l as [|x l IH]; cbn [forallb map]; [intros _; cbn; lia|].
  intros H. apply andb_true_iff in H. destruct H as [Hx Hl].
  apply Nat.leb_le in Hx. rewrite list_max_cons. specialize (IH Hl). lia.
Qed.

Lemma height_match_stage (md : metadata) (collection question : string) (i : intent)
      (m : dict) :
  build_match_stage md collection i (_extract_filters question) = Some m ->
  (height (decoded (VDict [("$match", VDict m)])) <= 4)%nat.
Proof.
  intros Hm.
  enough (H : (list_max (map (fun kv => height (snd kv))
                             (map (fun '(k, x) => (k, decoded x)) m)) <= 2)%nat).
  { cbn [decoded map height snd]. rewrite list_max_cons. cbn [list_max fold_right]. lia. }
  assert (E : forall k x, In (k, x) m -> (height (decoded x) <= 2)%nat).
  { intros k x Hin.
    destruct (match_stage_entries _ _ _ _ _ _ _ Hm Hin)
      as [[_ [s [-> _]]]|[Y [y [-> _]]]]; cbn; lia. }
  clear Hm. induction m as [|[k x] m IH]; [cbn; lia|].
  cbn [map snd]. rewrite list_max_cons.
  pose proof (E k x (or_introl eq_refl)).
  assert (list_max (map (fun kv => height (snd kv))
                        (map (fun '(k, x) => (k, decoded x)) m)) <= 2)%nat
    by (apply IH; intros k0 x0 H0; apply (E k0 x0); right; exact H0).
  lia.
Qed.

Lemma height_intent_stages (md : metadata) (question collection : string) (i : intent) :
  forallb (fun v => (height v <=? 4)%nat)
          (map decoded (intent_stages md question collection i)) = true.
Proof.
  unfold intent_stages, product_stages, group_stage.
  destruct (_find_amount_field md collection) as [af|];
    destruct (_find_date_fields md collection) as [|df others];
    destruct i;
    repeat match goal with
           | |- context [if ?b then _ else _] => destruct b
           end;
    reflexivity.
Qed.

End RoundTripFacts.

Section RoundTrip.
Import Text Py Json Generator Props More.

(** X30. The text that [generate_mongo_query] returns is always valid
    JSON, and [json.loads] reads it back as the compiled pipeline, each
    date being the dict with the key [$date] that the encoder wrote for
    it, as soon as the interpreter lets it nest five containers.  Field
    names are ASCII, as the model of text assumes. *)
Theorem compiled_text_is_json (md : metadata) (question : string) (depth : nat) :
  ascii_metadata md = true ->
  (5 <= depth)%nat ->
  exists pipeline collection,
    generate_pipeline md question = Some (pipeline, collection)
    /\ loads depth (generate_mongo_query md question) = Ok (decoded (VList pipeline)).
Proof.
  intros Ha Hdepth.
  destruct (generate_pipeline_shape md question) as [c [m [Hr [Hm Hp]]]].
  eexists _, c. split; [exact Hp|].
  match type of Hp with _ = Some (?p, _) => set (pipeline := p) in * end.
  assert (Hplain : plain (decoded (VList pipeline)) = true).
  { subst pipeline. cbn [decoded plain]. rewrite map_app, forallb_app.
    apply andb_true_iff. split; [|apply plain_intent_stages; exact Ha].
    pose proof (plain_match_stage md c question _ m Ha Hm) as P.
    destruct m; [reflexivity|].
    cbn [map forallb]. rewrite P. reflexivity. }
  assert (Hheight : (height (decoded (VList pipeline)) <= depth)%nat).
  { enough (list_max (map height (map decoded pipeline)) <= 4)%nat
      by (cbn [decoded height]; lia).
    apply list_max_bound. subst pipeline. rewrite map_app, forallb_app.
    apply andb_true_iff. split; [|apply height_intent_stages].
    pose proof (height_match_stage md c question _ m Hm) as P.
    destruct m; [reflexivity|].
    cbn [map forallb]. apply Nat.leb_le in P. rewrite P. reflexivity. }
  destruct (loads_plain pipeline depth Hplain Hheight) as [text [Hd Hl]].
  unfold generate_mongo_query, generate_query. rewrite Hp, Hd. exact Hl.
Qed.

Lemma compiled_text_is_json_witness :
  exists pipeline collection,
    generate_pipeline orders_metadata "total sales in 2023" = Some (pipeline, collection)
    /\ loads 5 (generate_mongo_query orders_metadata "total sales in 2023")
       = Ok (decoded (VList pipeline)).
Proof.
  apply (compiled_text_is_json orders_metadata "total sales in 2023" 5);
    [reflexivity|lia].
Defined.

End RoundTrip.

(* ================================================================== *)
(** * The limits of the interpreter *)
(* ================================================================== *)

Section LimitFacts.
Import Text Py Json Agent Props More.

Lemma length_copies (n : nat) (c : ascii) : String.length (copies n c) = n.
Proof. induction n as [|n IH]; cbn; congruence. Qed.

Lemma occurrences_copies (c a : ascii) (n : nat) :
  Ascii.eqb c a = false -> occurrences c (copies n a) = 0%nat.
Proof. intros H. induction n as [|n IH]; cbn [copies occurrences]; [|rewrite H]; auto. Qed.

(** A text without a colon holds no key. *)
Lemma quote_keys_no_colon (s : string) : occurrences ":" s = 0%nat -> quote_keys s = s.
Proof.
  intros H. unfold quote_keys.
  destruct (quote_keys_from_shape (String.length s) s)
    as [E|(u & lead & c & id & sp & rest & tail & Hs & _)]; [exact E|].
  exfalso. rewrite Hs in H. rewrite occurrences_app in H. cbn [occurrences] in H.
  rewrite !occurrences_app in H. cbn [occurrences] in H.
  rewrite Ascii.eqb_refl in H. lia.
Qed.

Lemma quote_keys_nested (n : nat) : quote_keys (nested n) = nested n.
Proof.
  apply quote_keys_no_colon. unfold nested.
  rewrite occurrences_app, !occurrences_copies by reflexivity. reflexivity.
Qed.

Lemma scan_too_deep_step (m d : nat) (r : string) :
  scan_once (S (S m)) (S d) (String "[" (String "[" r))
  = match scan_once m d (String "[" r) with
    | Raise e => Raise e
    | Ok (v, r1) =>
        match after_prefix "]" (skip_ws r1) with
        | Some rest => Ok (VList [v], rest)
        | None =>
            match after_prefix "," (skip_ws r1) with
            | Some r2 => scan_elements m d (skip_ws r2) [v]
            | None => Raise Value_error
            end
        end
    end.
Proof. reflexivity. Qed.

(** With room for [d] containers, the scanner raises at the bracket
    that opens one more. *)
Lemma scan_once_too_deep (d : nat) (tail : string) :
  scan_once (2 * d + 1) d (copies (S d) "[" ++ tail) = Raise Recursion_error.
Proof.
  induction d as [|d IH]; [reflexivity|].
  replace (2 * S d + 1)%nat with (S (S (2 * d + 1))) by lia.
  change (copies (S (S d)) "[" ++ tail)
    with (String "[" (String "[" (copies d "[" ++ tail))).
  rewrite scan_too_deep_step.
  change (String "[" (copies d "[" ++ tail)) with (copies (S d) "[" ++ tail).
  rewrite IH. reflexivity.
Qed.

Lemma loads_too_deep (d : nat) : loads d (nested (S d)) = Raise Recursion_error.
Proof.
  apply (loads_recursion_fuel_enough (2 * d + 1)).
  unfold nested. change (skip_ws (copies (S d) "[" ++ copies (S d) "]"))
    with (copies (S d) "[" ++ copies (S d) "]").
  apply scan_once_too_deep.
Qed.

(** The counter on nested brackets *)
Lemma count_brackets_closing (o c : ascii) (tail : string) (n : nat) :
  Ascii.eqb c o = false ->
  forall (stack : list ascii) (i : nat),
    List.length stack = S n ->
    count_brackets o c (copies (S n) c ++ tail) stack i = Closed (i + S n).
Proof.
  intros Hco. induction n as [|n IH]; intros stack i Hl.
  - cbn [copies append count_brackets]. rewrite Hco, Ascii.eqb_refl.
    assert (Hr : List.length (rev stack) = 1%nat) by (rewrite length_rev; exact Hl).
    destruct (rev stack) as [|x [|y p]]; try discriminate Hr. reflexivity.
  - change (copies (S (S n)) c ++ tail) with (String c (copies (S n) c ++ tail)).
    cbn [count_brackets]. rewrite Hco, Ascii.eqb_refl.
    assert (Hr : List.length (rev stack) = S (S n)) by (rewrite length_rev; exact Hl).
    destruct (rev stack) as [|x [|y p]]; try discriminate Hr.
    rewrite IH.
    + f_equal. lia.
    + rewrite length_rev. cbn [List.length] in *. lia.
Qed.

Lemma count_brackets_nested (o c : ascii) (tail : string) :
  Ascii.eqb c o = false ->
  forall (k : nat) (stack : list ascii) (i : nat),
    (1 <= List.length stack + k)%nat ->
    count_brackets o c (copies k o ++ copies (List.length stack + k) c ++ tail) stack i
    = Closed (i + k + (List.length stack + k)).
Proof.
  intros Hco. induction k as [|k IH]; intros stack i Hl.
  - cbn [copies append]. rewrite Nat.add_0_r in *.
    destruct (List.length stack) as [|n] eqn:E; [lia|].
    rewrite (count_brackets_closing o c tail n Hco stack i E). f_equal. lia.
  - cbn [copies append count_brackets]. rewrite Ascii.eqb_refl.
    specialize (IH (stack ++ [o])%list (S i)).
    rewrite length_app in IH. cbn [List.length] in IH.
    replace (List.length stack + S k)%nat with (List.length stack + 1 + k)%nat by lia.
    rewrite IH by lia. f_equal. lia.
Qed.

End LimitFacts.

Section Limits.
Import Text Py Agent Props More.

(** Nested one container deeper than the interpreter allows, a span
    leaves the parser with the [RecursionError] of the second
    [json.loads]. *)
Lemma deep_nesting_leaves_decode_closed (w : world) (default : value) :
  decode_closed w default (nested (S (recursion_limit w)))
  = (Json.Raise Json.Recursion_error,
     [Loads_clean (nested (S (recursion_limit w)));
      Loads_original (nested (S (recursion_limit w)))]).
Proof.
  unfold decode_closed. rewrite quote_keys_nested, loads_too_deep. reflexivity.
Qed.

(** On such a span the order of the specification would end with the
    literal evaluator or the default, and the code raises. *)
Lemma deep_nesting_is_not_as_specified (w : world) (default : value) :
  fst (decode_closed w default (nested (S (recursion_limit w))))
  = Json.Raise Json.Recursion_error
  /\ exists v, fst (decode_as_specified w default (nested (S (recursion_limit w))))
               = Json.Ok v.
Proof.
  rewrite deep_nesting_leaves_decode_closed. split; [reflexivity|].
  unfold decode_as_specified. rewrite quote_keys_nested, loads_too_deep.
  destruct (literal_eval w _); eexists; reflexivity.
Qed.

(** Whatever the limit of the interpreter, there is a command on which
    the parser raises, and [process_query] answers with the execution
    error. *)
Lemma deep_nesting_raises (w : world) (collection_name : string) :
  collection_name <> "" -> all_chars is_word collection_name = true ->
  recover w ("db." ++ collection_name ++ ".aggregate("
             ++ nested (S (recursion_limit w)) ++ ")")
  = Parser_raised (Recursion_error_on (nested (S (recursion_limit w))))
  /\ run_query_code w ("db." ++ collection_name ++ ".aggregate("
                       ++ nested (S (recursion_limit w)) ++ ")")
     = (Execution_error (recursion_error_text w (nested (S (recursion_limit w))))
                        ("db." ++ collection_name ++ ".aggregate("
                         ++ nested (S (recursion_limit w)) ++ ")"), []).
Proof.
  intros Hc Hw. set (n := S (recursion_limit w)).
  set (content := nested n ++ ")").
  assert (S0 : search_command ("db." ++ collection_name ++ ".aggregate(" ++ content)
               = Some (collection_name, Op_aggregate, content)).
  { pose proof (match_command_at_complete collection_name content Op_aggregate Hc Hw) as M.
    change ("." ++ operation_name Op_aggregate ++ "(" ++ content)
      with (".aggregate(" ++ content) in M.
    change ("db." ++ collection_name ++ ".aggregate(" ++ content)
      with (String "d" ("b." ++ collection_name ++ ".aggregate(" ++ content)) in *.
    cbn [search_command]. rewrite M. reflexivity. }
  assert (R : recover w ("db." ++ collection_name ++ ".aggregate(" ++ content)
              = Parser_raised (Recursion_error_on (nested n))).
  { unfold recover. rewrite S0. unfold extract_argument. cbn [opening_of closing_of].
    change (find_char "[" content) with (Some 0%nat). cbv beta iota. cbn [drop].
    unfold content at 1, nested. rewrite append_assoc.
    pose proof (count_brackets_nested "[" "]" ")" eq_refl n [] 0) as C.
    cbn [List.length Nat.add] in C. rewrite C by (unfold n; lia). cbv zeta.
    change (0 + (n + n))%nat with (n + n)%nat.
    replace (slice 0 (n + n) content) with (nested n).
    - unfold n. rewrite deep_nesting_leaves_decode_closed. reflexivity.
    - unfold slice, content. rewrite Nat.sub_0_r. cbn [drop].
      replace (n + n)%nat with (String.length (nested n)).
      + symmetry. apply take_app.
      + unfold nested. rewrite length_append, !length_copies. reflexivity. }
  split; [exact R|]. unfold run_query_code. fold content. rewrite R. reflexivity.
Qed.

(** An interpreter that allows 1000 containers, and a command that
    nests 1001 *)
Lemma deep_nesting_is_an_execution_error :
  run_query_code (a_world "" 0) ("db.orders.aggregate(" ++ nested 1001 ++ ")")
  = (Execution_error "maximum recursion depth exceeded"
                     ("db.orders.aggregate(" ++ nested 1001 ++ ")"), []).
Proof.
  exact (proj2 (deep_nesting_raises (a_world "" 0) "orders"
                  ltac:(discriminate) eq_refl)).
Qed.

(** An integer of 4301 digits is refused by [json.loads], in a text
    that is valid JSON. *)
Lemma long_integer_is_refused (depth : nat) :
  Json.loads (S depth) (long_integer 4301) = Json.Raise Json.Value_error.
Proof. vm_compute. reflexivity. Qed.

(** A span that is valid JSON, and holds an integer of 4301 digits,
    goes through the four attempts and ends as the default. *)
Lemma long_integer_gives_default (w : world) (default : value) :
  literal_eval w (long_integer 4301) = None ->
  decode_closed w default (long_integer 4301)
  = (Json.Ok default,
     [Loads_clean (long_integer 4301); Loads_original (long_integer 4301);
      Literal_eval (long_integer 4301); Default_value]).
Proof.
  intros H. unfold decode_closed.
  assert (Q : quote_keys (long_integer 4301) = long_integer 4301)
    by (vm_compute; reflexivity).
  rewrite Q. change (recursion_limit w) with (S (99 + spare_depth w)).
  pose proof (long_integer_is_refused (99 + spare_depth w)) as L.
  rewrite L, H. reflexivity.
Qed.

End Limits.

(* ================================================================== *)
(** * Bare keys *)
(* ================================================================== *)

Section BareKeyFacts.
Import Text Py Json Agent Props More.


























End BareKeyFacts.

Section BareKeys.
Import Text Py Agent Props More.




Lemma bare_key_in_string_gives_default :
  shell_text (VDict [("note", VStr "a b: c")]) = bq "{note: `a b: c`}"
  /\ quote_keys (bq "{note: `a b: c`}") = bq "{`note`: `a `b`: c`}"
  /\ forall w default,
       literal_eval w (bq "{note: `a b: c`}") = None ->
       decode_closed w default (bq "{note: `a b: c`}")
       = (Json.Ok default,
          [Loads_clean (bq "{`note`: `a `b`: c`}"); Loads_original (bq "{note: `a b: c`}");
           Literal_eval (bq "{note: `a b: c`}"); Default_value]).
Proof.
  split; [reflexivity|]. split; [vm_compute; reflexivity|].
  intros w default H. unfold decode_closed.
  change (quote_keys (bq "{note: `a b: c`}")) with (bq "{`note`: `a `b`: c`}").
  change (Json.loads (recursion_limit w) (bq "{`note`: `a `b`: c`}"))
    with (@Json.Raise value Json.Value_error).
  change (Json.loads (recursion_limit w) (bq "{note: `a b: c`}"))
    with (@Json.Raise value Json.Value_error).
  cbv beta iota. rewrite H. reflexivity.
Qed.

End BareKeys.

(* ================================================================== *)
(** * Examples of the properties above *)
(* ================================================================== *)

Section MoreWitnesses.
Import Text Py Generator Agent Props More.


Lemma unclosed_iff_witness :
  count_brackets "{" "}" "a{b" ["{"%char] 1 = Unclosed <->
  forall p q, "a{b" = p ++ q -> p <> "" ->
              (occurrences "}" p < List.length ["{"%char] + occurrences "{" p)%nat.
Proof.
  apply (unclosed_iff "{" "}" "a{b" ["{"%char] 1); discriminate.
Defined.

Lemma search_year_leftmost_witness :
  exists before after,
    "orders 2021 and 2022" = before ++ "2021" ++ after
    /\ forall k, (k < String.length before)%nat ->
                 year_at (drop k "orders 2021 and 2022") = None.
Proof.
  apply (search_year_leftmost "orders 2021 and 2022" "2021"). reflexivity.
Defined.

Lemma unknown_vocabulary_lists_witness :
  _determine_intent (lower "hello") = I_list
  /\ exists collection prefix,
       generate_pipeline users_metadata "hello" =
         Some ((prefix ++ [sort_newest_first users_metadata collection; limit_10])%list,
               collection)
       /\ match_prefix prefix.
Proof.
  apply (unknown_vocabulary_lists users_metadata "hello"). reflexivity.
Defined.

End MoreWitnesses.
